(** * PeerOTP: the code engine, the Base32 codec, topic derivation, the
      receive session, setup and the tables of [otp/index.js], embedded and
      verified.

    Conventions of the embedding.
    - A JavaScript string is the list of its UTF-16 code units ([jsstring]).
    - A [Buffer] is a list of bytes ([Byte.byte]).
    - A JavaScript number that holds an integer is a [Z]; the 32-bit
      operators ([<<], [>>>], [|], [&]) are written out with their
      wrap-around ([toInt32], [toUint32]).
    - Node's own primitives that the program calls ([createHmac('sha1')],
      [hypercore-crypto.hash], [b4a.from], [b4a.toString(_, 'hex')]) are
      given by their published algorithms and checked on published vectors.
    - The clock is an input: a function that gives the value of each
      successive call of [Date.now()]. *)

From Stdlib Require Import ZArith NArith List Bool Lia.
From Stdlib.Strings Require Import String Ascii Byte.
From Stdlib Require Import QArith Qround.
Import ListNotations.
Local Open Scope Z_scope.

(** ** JavaScript numbers and strings *)

Module JS.

(** [ToInt32] and [ToUint32] of an integer-valued number. *)
Definition toInt32 (z : Z) : Z := (z + 2 ^ 31) mod 2 ^ 32 - 2 ^ 31.
Definition toUint32 (z : Z) : Z := z mod 2 ^ 32.

(** [a << k], [a >>> k], [a | b], [a & b]. *)
Definition shl (a k : Z) : Z := toInt32 (Z.shiftl (toInt32 a) (k mod 32)).
Definition ushr (a k : Z) : Z := Z.shiftr (toUint32 a) (k mod 32).
Definition bor (a b : Z) : Z := Z.lor (toInt32 a) (toInt32 b).
Definition band (a b : Z) : Z := Z.land (toInt32 a) (toInt32 b).

(** Strings as sequences of UTF-16 code units. *)
Definition jsstring : Type := list N.

Definition lit (s : string) : jsstring :=
  List.map N_of_ascii (list_ascii_of_string s).

(** [s.indexOf(ch)] for a one-unit [ch]: first position, or -1. *)
Fixpoint indexOf_from (s : jsstring) (ch : N) (i : Z) : Z :=
  match s with
  | [] => -1
  | c :: s' => if N.eqb c ch then i else indexOf_from s' ch (i + 1)
  end.
Definition indexOf (s : jsstring) (ch : N) : Z := indexOf_from s ch 0.

(** [String.prototype.toUpperCase], one code unit at a time.  The table is
    the Unicode mapping on U+0000..U+00FF and on every other code unit whose
    upper-case form holds a Basic Latin character; the remaining code units,
    whose upper-case forms lie wholly outside Basic Latin, are left as they
    are. *)
Definition upper_unit (c : N) : list N :=
  (if (97 <=? c) && (c <=? 122) then [c - 32]
   else if c =? 181 then [924]
   else if c =? 223 then [83; 83]
   else if (224 <=? c) && (c <=? 254) && negb (c =? 247) then [c - 32]
   else if c =? 255 then [376]
   else if c =? 305 then [73]
   else if c =? 329 then [700; 78]
   else if c =? 383 then [83]
   else if c =? 496 then [74; 780]
   else if c =? 7830 then [72; 817]
   else if c =? 7831 then [84; 776]
   else if c =? 7832 then [87; 778]
   else if c =? 7833 then [89; 778]
   else if c =? 7834 then [65; 702]
   else if c =? 64256 then [70; 70]
   else if c =? 64257 then [70; 73]
   else if c =? 64258 then [70; 76]
   else if c =? 64259 then [70; 70; 73]
   else if c =? 64260 then [70; 70; 76]
   else if c =? 64261 then [83; 84]
   else if c =? 64262 then [83; 84]
   else [c])%N.

Definition toUpperCase (s : jsstring) : jsstring := flat_map upper_unit s.

(** The regular-expression class [\s]. *)
Definition is_space (c : N) : bool :=
  ((9 <=? c) && (c <=? 13) || (c =? 32) || (c =? 160) || (c =? 5760)
   || (8192 <=? c) && (c <=? 8202) || (c =? 8232) || (c =? 8233)
   || (c =? 8239) || (c =? 8287) || (c =? 12288) || (c =? 65279))%N.

(** [s.replace(/\s/g, '')]. *)
Definition remove_spaces (s : jsstring) : jsstring :=
  filter (fun c => negb (is_space c)) s.

(** [s.replace(/=+$/, '')]: the run of '=' that ends the string is cut. *)
Fixpoint drop_eq (s : jsstring) : jsstring :=
  match s with
  | [] => []
  | c :: s' => if N.eqb c 61 then drop_eq s' else s
  end.
Definition strip_trailing_eq (s : jsstring) : jsstring :=
  rev (drop_eq (rev s)).

(** [Buffer.from(array)]: every element is reduced modulo 256. *)
Definition byte_of_Z (z : Z) : byte :=
  match Byte.of_N (Z.to_N (z mod 256)) with
  | Some b => b
  | None => x00
  end.
Definition Z_of_byte (b : byte) : Z := Z.of_N (Byte.to_N b).
Definition Buffer_from (l : list Z) : list byte := List.map byte_of_Z l.

End JS.
Import JS.

(** ** Base32 codec *)

Definition ALPHABET : jsstring := lit "ABCDEFGHIJKLMNOPQRSTUVWXYZ234567".

(** State of the loop of [base32Decode]: [bits], [value] and [output]. *)
Record dstate : Type := mkD { d_bits : Z; d_value : Z; d_output : list Z }.

(** One turn of [for (const ch of s)]. *)
Definition decode_step (st : dstate) (ch : N) : dstate :=
  let idx := indexOf ALPHABET ch in
  if idx =? -1 then st
  else
    let value := bor (shl (d_value st) 5) idx in
    let bits := d_bits st + 5 in
    if bits >=? 8
    then mkD (bits - 8) value
             (d_output st ++ [band (ushr value (bits - 8)) 255])
    else mkD bits value (d_output st).

Definition decode_loop (s : jsstring) (st : dstate) : dstate :=
  fold_left decode_step s st.

Definition base32Decode (str : jsstring) : list byte :=
  let s := remove_spaces (strip_trailing_eq (toUpperCase str)) in
  Buffer_from (d_output (decode_loop s (mkD 0 0 []))).

(** [ALPHABET[i]]; an index out of range gives [undefined], which [+=]
    appends as the nine letters of that word. *)
Definition alphabet_at (i : Z) : jsstring :=
  match nth_error ALPHABET (Z.to_nat i) with
  | Some c => if i <? 0 then lit "undefined" else [c]
  | None => lit "undefined"
  end.

(** State of the loop of [generateSecret]: [bits], [value] and [result]. *)
Record estate : Type := mkE { e_bits : Z; e_value : Z; e_result : jsstring }.

(** [while (bits >= 5) { ... }]; every turn takes 5 off [bits], so [bits]
    turns of fuel are never used up ([encode_while_exit] below). *)
Fixpoint encode_while (fuel : nat) (st : estate) : estate :=
  match fuel with
  | O => st
  | S fuel' =>
      if e_bits st >=? 5
      then encode_while fuel'
             (mkE (e_bits st - 5) (e_value st)
                  (e_result st ++
                   alphabet_at (band (ushr (e_value st) (e_bits st - 5)) 31)))
      else st
  end.

(** One turn of [for (const byte of raw)]. *)
Definition encode_step (st : estate) (b : byte) : estate :=
  let value := bor (shl (e_value st) 8) (Z_of_byte b) in
  let bits := e_bits st + 8 in
  encode_while (Z.to_nat bits) (mkE bits value (e_result st)).

(** [while (result.length % 8 !== 0) result += '=']. *)
Fixpoint pad_while (fuel : nat) (result : jsstring) : jsstring :=
  match fuel with
  | O => result
  | S fuel' =>
      if Z.of_nat (List.length result) mod 8 =? 0 then result
      else pad_while fuel' (result ++ [61%N])
  end.

(** The body of [generateSecret] after [raw] has been drawn. *)
Definition base32Encode (raw : list byte) : jsstring :=
  let st := fold_left encode_step raw (mkE 0 0 []) in
  let result :=
    if e_bits st >? 0
    then e_result st ++ alphabet_at (band (shl (e_value st) (5 - e_bits st)) 31)
    else e_result st in
  pad_while 8 result.

(** [generateSecret], with the 20 bytes of [randomBytes(20)] as its input. *)
Definition generateSecret (raw : list byte) : jsstring := base32Encode raw.

(** ** SHA-1 and HMAC

    [nodeCrypto.createHmac('sha1', key).update(data).digest()] is Node's
    built-in: HMAC (RFC 2104) over SHA-1 (FIPS 180-4), written out here so
    that the code engine can be run. *)

Module Sha1.

Definition w32 (z : Z) : Z := z mod 2 ^ 32.
Definition rotl (n x : Z) : Z :=
  w32 (Z.lor (Z.shiftl x n) (Z.shiftr x (32 - n))).

Definition be_word (b0 b1 b2 b3 : Z) : Z :=
  ((b0 * 256 + b1) * 256 + b2) * 256 + b3.

Fixpoint words_of_bytes (l : list Z) : list Z :=
  match l with
  | b0 :: b1 :: b2 :: b3 :: l' => be_word b0 b1 b2 b3 :: words_of_bytes l'
  | _ => []
  end.

Definition bytes_of_word (w : Z) : list Z :=
  [Z.shiftr w 24 mod 256; Z.shiftr w 16 mod 256; Z.shiftr w 8 mod 256;
   w mod 256].

(** The message schedule, newest word first. *)
Fixpoint expand (n : nat) (wr : list Z) : list Z :=
  match n with
  | O => wr
  | S n' =>
      expand n'
        (rotl 1 (Z.lxor (Z.lxor (nth 2 wr 0) (nth 7 wr 0))
                        (Z.lxor (nth 13 wr 0) (nth 15 wr 0))) :: wr)
  end.

Definition schedule (block : list Z) : list Z :=
  rev (expand 64 (rev (words_of_bytes block))).

Definition hstate : Type := (Z * Z * Z * Z * Z)%type.

Definition round (st : hstate * nat) (w : Z) : hstate * nat :=
  let '((a, b, c, d, e), t) := st in
  let f :=
    if (t <? 20)%nat then Z.lor (Z.land b c) (Z.land (Z.lnot b) d)
    else if (t <? 40)%nat then Z.lxor (Z.lxor b c) d
    else if (t <? 60)%nat
         then Z.lor (Z.lor (Z.land b c) (Z.land b d)) (Z.land c d)
    else Z.lxor (Z.lxor b c) d in
  let k :=
    if (t <? 20)%nat then 0x5A827999
    else if (t <? 40)%nat then 0x6ED9EBA1
    else if (t <? 60)%nat then 0x8F1BBCDC
    else 0xCA62C1D6 in
  let tmp := w32 (rotl 5 a + f + e + k + w) in
  ((tmp, a, rotl 30 b, c, d), S t).

Definition compress (h : hstate) (block : list Z) : hstate :=
  let '(h0, h1, h2, h3, h4) := h in
  let '((a, b, c, d, e), _) := fold_left round (schedule block) (h, O) in
  (w32 (h0 + a), w32 (h1 + b), w32 (h2 + c), w32 (h3 + d), w32 (h4 + e)).

Fixpoint blocks (fuel : nat) (l : list Z) : list (list Z) :=
  match fuel, l with
  | S fuel', _ :: _ => firstn 64 l :: blocks fuel' (skipn 64 l)
  | _, _ => []
  end.

Definition be64 (n : Z) : list Z :=
  bytes_of_word (Z.shiftr n 32) ++ bytes_of_word n.

Definition pad (msg : list Z) : list Z :=
  let len := Z.of_nat (List.length msg) in
  msg ++ [128] ++ repeat 0 (Z.to_nat ((55 - len) mod 64)) ++ be64 (8 * len).

Definition init : hstate :=
  (0x67452301, 0xEFCDAB89, 0x98BADCFE, 0x10325476, 0xC3D2E1F0).

Definition digest_bytes (h : hstate) : list Z :=
  let '(h0, h1, h2, h3, h4) := h in
  bytes_of_word h0 ++ bytes_of_word h1 ++ bytes_of_word h2 ++
  bytes_of_word h3 ++ bytes_of_word h4.

Definition sha1Z (msg : list Z) : list Z :=
  let p := pad msg in
  digest_bytes (fold_left compress (blocks (List.length p) p) init).

Definition sha1 (msg : list byte) : list byte :=
  List.map byte_of_Z (sha1Z (List.map Z_of_byte msg)).

Definition xor_pad (c : Z) (key : list byte) : list byte :=
  List.map (fun b => byte_of_Z (Z.lxor (Z_of_byte b) c)) key.

Definition hmac (key data : list byte) : list byte :=
  let k0 := if (64 <? List.length key)%nat then sha1 key else key in
  let k := k0 ++ repeat x00 (64 - List.length k0) in
  sha1 (xor_pad 0x5c k ++ sha1 (xor_pad 0x36 k ++ data)).

End Sha1.

(** ** The code engine *)

Definition hmacSha1 (keyBuf dataBuf : list byte) : list byte :=
  Sha1.hmac keyBuf dataBuf.

(** The loop [for (let i = 7; i >= 0; i--)] that fills [counterBuf] from its
    last byte to its first; [n] counts the turns left and [c] becomes
    [Math.floor(c / 256)] at each turn. *)
Fixpoint counter_loop (n : nat) (c : Z) (counterBuf : list Z) : list Z :=
  match n with
  | O => counterBuf
  | S i =>
      counter_loop i (c / 256)
        (firstn i counterBuf ++ [band c 255] ++ skipn (S i) counterBuf)
  end.

(** [buf[i]] read as a number and masked: a missing element is
    [undefined], which the bit operators turn into 0. *)
Definition at_ (buf : list byte) (i : Z) : Z :=
  if i <? 0 then 0 else nth (Z.to_nat i) (List.map Z_of_byte buf) 0.

(** [String(n)] for an integer [n >= 0]: its decimal digits. *)
Fixpoint digits (fuel : nat) (n : Z) (acc : jsstring) : jsstring :=
  match fuel with
  | O => acc
  | S fuel' =>
      let acc' := Z.to_N (48 + n mod 10) :: acc in
      if n / 10 =? 0 then acc' else digits fuel' (n / 10) acc'
  end.
Definition String_of (n : Z) : jsstring := digits (S (Z.to_nat n)) n [].

(** [s.padStart(len, '0')]. *)
Definition padStart (len : nat) (s : jsstring) : jsstring :=
  repeat 48%N (len - List.length s) ++ s.

(** [Math.floor(epochMs / 1000 / 30)], in exact arithmetic.  Node computes
    the two quotients in double precision; for an integer [epochMs] with
    [0 <= epochMs < 2^51] the two roundings move the quotient by less than
    [1/30000], so its floor is the one taken here. *)
Definition counter_of (epochMs : Z) : Z :=
  Qfloor (inject_Z epochMs / inject_Z 1000 / inject_Z 30)%Q.

Definition totp (secret : jsstring) (epochMs : Z) : jsstring :=
  let counter := counter_of epochMs in
  let keyBuf := base32Decode (remove_spaces secret) in
  let counterBuf := Buffer_from (counter_loop 8 counter (repeat 0 8)) in
  let hmac := hmacSha1 keyBuf counterBuf in
  let offset := band (at_ hmac 19) 0x0f in
  let code :=
    Z.rem
      (bor (bor (bor (shl (band (at_ hmac offset) 0x7f) 24)
                     (shl (band (at_ hmac (offset + 1)) 0xff) 16))
                (shl (band (at_ hmac (offset + 2)) 0xff) 8))
           (band (at_ hmac (offset + 3)) 0xff))
      1000000 in
  padStart 6 (String_of code).

(** ** Topic derivation

    [crypto.hash] of hypercore-crypto is libsodium's [crypto_generichash]
    with a 32-byte output: unkeyed BLAKE2b-256 (RFC 7693). *)

Module Blake2b.

Definition w64 (z : Z) : Z := z mod 2 ^ 64.
Definition rotr (n x : Z) : Z :=
  w64 (Z.lor (Z.shiftr x n) (Z.shiftl x (64 - n))).

Definition IV : list Z :=
  [0x6a09e667f3bcc908; 0xbb67ae8584caa73b; 0x3c6ef372fe94f82b;
   0xa54ff53a5f1d36f1; 0x510e527fade682d1; 0x9b05688c2b3e6c1f;
   0x1f83d9abfb41bd6b; 0x5be0cd19137e2179].

Definition SIGMA : list (list nat) :=
  [[0; 1; 2; 3; 4; 5; 6; 7; 8; 9; 10; 11; 12; 13; 14; 15];
   [14; 10; 4; 8; 9; 15; 13; 6; 1; 12; 0; 2; 11; 7; 5; 3];
   [11; 8; 12; 0; 5; 2; 15; 13; 10; 14; 3; 6; 7; 1; 9; 4];
   [7; 9; 3; 1; 13; 12; 11; 14; 2; 6; 5; 10; 4; 0; 15; 8];
   [9; 0; 5; 7; 2; 4; 10; 15; 14; 1; 11; 12; 6; 8; 3; 13];
   [2; 12; 6; 10; 0; 11; 8; 3; 4; 13; 7; 5; 15; 14; 1; 9];
   [12; 5; 1; 15; 14; 13; 4; 10; 0; 7; 6; 3; 9; 2; 8; 11];
   [13; 11; 7; 14; 12; 1; 3; 9; 5; 0; 15; 4; 8; 6; 2; 10];
   [6; 15; 14; 9; 11; 3; 0; 8; 12; 2; 13; 7; 1; 4; 10; 5];
   [10; 2; 8; 4; 7; 6; 1; 5; 15; 11; 9; 14; 3; 12; 13; 0];
   [0; 1; 2; 3; 4; 5; 6; 7; 8; 9; 10; 11; 12; 13; 14; 15];
   [14; 10; 4; 8; 9; 15; 13; 6; 1; 12; 0; 2; 11; 7; 5; 3]]%nat.

Definition get (v : list Z) (i : nat) : Z := nth i v 0.
Definition set (v : list Z) (i : nat) (x : Z) : list Z :=
  firstn i v ++ [x] ++ skipn (S i) v.

(** The mixing function G on the work vector. *)
Definition G (v : list Z) (a b c d : nat) (x y : Z) : list Z :=
  let va := w64 (get v a + get v b + x) in
  let vd := rotr 32 (Z.lxor (get v d) va) in
  let vc := w64 (get v c + vd) in
  let vb := rotr 24 (Z.lxor (get v b) vc) in
  let va := w64 (va + vb + y) in
  let vd := rotr 16 (Z.lxor vd va) in
  let vc := w64 (vc + vd) in
  let vb := rotr 63 (Z.lxor vb vc) in
  set (set (set (set v a va) b vb) c vc) d vd.

Definition mix_round (m : list Z) (v : list Z) (s : list nat) : list Z :=
  (let x i := get m (nth i s O) in
  let v := G v 0 4 8 12 (x 0) (x 1) in
  let v := G v 1 5 9 13 (x 2) (x 3) in
  let v := G v 2 6 10 14 (x 4) (x 5) in
  let v := G v 3 7 11 15 (x 6) (x 7) in
  let v := G v 0 5 10 15 (x 8) (x 9) in
  let v := G v 1 6 11 12 (x 10) (x 11) in
  let v := G v 2 7 8 13 (x 12) (x 13) in
  G v 3 4 9 14 (x 14) (x 15))%nat.

Definition le_word (l : list Z) : Z :=
  fold_right (fun b acc => b + 256 * acc) 0 l.

Fixpoint words_of_bytes (n : nat) (l : list Z) : list Z :=
  match n with
  | O => []
  | S n' => le_word (firstn 8 l) :: words_of_bytes n' (skipn 8 l)
  end.

Definition bytes_of_word (w : Z) : list Z :=
  List.map (fun i => Z.shiftr w (8 * Z.of_nat i) mod 256) (seq 0 8).

(** The compression function F: [t] is the number of bytes fed so far and
    [final] marks the last block. *)
Definition compress (h : list Z) (block : list Z) (t : Z) (final : bool)
  : list Z :=
  let m := words_of_bytes 16 (block ++ repeat 0 (128 - List.length block)) in
  let v := firstn 8 (h ++ repeat 0 8) ++ IV in
  let v := set v 12 (Z.lxor (get v 12) (w64 t)) in
  let v := set v 13 (Z.lxor (get v 13) (w64 (Z.shiftr t 64))) in
  let v := if final then set v 14 (Z.lxor (get v 14) (2 ^ 64 - 1)) else v in
  let v := fold_left (mix_round m) SIGMA v in
  List.map (fun i => Z.lxor (Z.lxor (get h i) (get v i)) (get v (i + 8)))
           (seq 0 8).

(** Every block but the last is compressed with the running byte count;
    the last one (at most 128 bytes, empty only for the empty message) is
    compressed with the final flag. *)
Fixpoint absorb (fuel : nat) (h : list Z) (t : Z) (msg : list Z) : list Z :=
  match fuel with
  | O => compress h msg (t + Z.of_nat (List.length msg)) true
  | S fuel' =>
      if (List.length msg <=? 128)%nat
      then compress h msg (t + Z.of_nat (List.length msg)) true
      else absorb fuel' (compress h (firstn 128 msg) (t + 128) false)
                  (t + 128) (skipn 128 msg)
  end.

(** Parameter block of an unkeyed hash with [outlen] bytes of output. *)
Definition init (outlen : Z) : list Z :=
  set IV 0 (Z.lxor (get IV 0) (Z.lxor 0x01010000 outlen)).

Definition hash32Z (msg : list Z) : list Z :=
  firstn 32 (flat_map bytes_of_word (absorb (List.length msg) (init 32) 0 msg)).

Definition hash32 (msg : list byte) : list byte :=
  List.map byte_of_Z (hash32Z (List.map Z_of_byte msg)).

End Blake2b.

Module B4a.

(** [b4a.from(string)]: the UTF-8 encoding of the string; a surrogate pair
    is one code point, a lone surrogate is written as U+FFFD. *)
Definition utf8_cp (cp : Z) : list Z :=
  if cp <? 0x80 then [cp]
  else if cp <? 0x800 then [0xC0 + cp / 64; 0x80 + cp mod 64]
  else if cp <? 0x10000
       then [0xE0 + cp / 4096; 0x80 + cp / 64 mod 64; 0x80 + cp mod 64]
  else [0xF0 + cp / 262144 mod 8; 0x80 + cp / 4096 mod 64;
        0x80 + cp / 64 mod 64; 0x80 + cp mod 64].

Definition is_high (c : Z) : bool := (0xD800 <=? c) && (c <=? 0xDBFF).
Definition is_low (c : Z) : bool := (0xDC00 <=? c) && (c <=? 0xDFFF).

Fixpoint utf8 (s : jsstring) : list Z :=
  match s with
  | [] => []
  | c :: s' =>
      let c := Z.of_N c mod 65536 in
      if is_high c then
        match s' with
        | d :: s'' =>
            let d := Z.of_N d mod 65536 in
            if is_low d
            then utf8_cp (0x10000 + (c - 0xD800) * 1024 + (d - 0xDC00))
                   ++ utf8 s''
            else utf8_cp 0xFFFD ++ utf8 s'
        | [] => utf8_cp 0xFFFD
        end
      else if is_low c then utf8_cp 0xFFFD ++ utf8 s'
      else utf8_cp c ++ utf8 s'
  end.

Definition from (s : jsstring) : list byte := List.map byte_of_Z (utf8 s).

(** [b4a.toString(buf, 'hex')]. *)
Definition hex_digit (d : Z) : N :=
  Z.to_N (if d <? 10 then 48 + d else 87 + d).

Definition toString_hex (buf : list byte) : jsstring :=
  flat_map (fun b => [hex_digit (Z_of_byte b / 16);
                      hex_digit (Z_of_byte b mod 16)]) buf.

(** [b4a.from(string, 'hex')]: pairs of hexadecimal digits, up to the first
    pair that is not one. *)
Definition hex_value (c : N) : option Z :=
  let c := Z.of_N c in
  if (48 <=? c) && (c <=? 57) then Some (c - 48)
  else if (97 <=? c) && (c <=? 102) then Some (c - 87)
  else if (65 <=? c) && (c <=? 70) then Some (c - 55)
  else None.

Fixpoint from_hex (s : jsstring) : list byte :=
  match s with
  | a :: b :: s' =>
      match hex_value a, hex_value b with
      | Some x, Some y => byte_of_Z (16 * x + y) :: from_hex s'
      | _, _ => []
      end
  | _ => []
  end.

End B4a.

Definition crypto_hash (data : list byte) : list byte := Blake2b.hash32 data.

(** The template literal [`peerotp:vault:${name}:intercom-vibe-2025`]. *)
Definition topicSeed (name : jsstring) : list byte :=
  B4a.from (lit "peerotp:vault:" ++ name ++ lit ":intercom-vibe-2025").

(** [runShare]: [topicBuf] and [topicHex] of a vault named [name]. *)
Definition shareTopic (name : jsstring) : list byte :=
  crypto_hash (topicSeed name).
Definition shareTopicHex (name : jsstring) : jsstring :=
  B4a.toString_hex (shareTopic name).

(** [topicHex.slice(0, 16)], the excerpt shown in the hint of [runShare]. *)
Definition shareHint (name : jsstring) : jsstring :=
  firstn 16 (shareTopicHex name).

(** [if (customTopic)]: [undefined] and the empty string are falsy. *)
Definition truthy (v : option jsstring) : bool :=
  match v with
  | Some (_ :: _) => true
  | _ => false
  end.

(** [runReceive]: [topicBuf].  [customTopic] is [args.topic] when it is a
    string, [None] when the flag is absent (the numbers and booleans that
    the argument parser can also produce are not covered). *)
Definition receiveTopic (customTopic : option jsstring) (VAULT_NAME : jsstring)
  : list byte :=
  if truthy customTopic then
    let t := match customTopic with Some t => t | None => [] end in
    let full :=
      if (List.length t =? 64)%nat then t
      else B4a.toString_hex (crypto_hash (topicSeed t)) in
    B4a.from_hex full
  else crypto_hash (topicSeed VAULT_NAME).

(** ** Parsed data

    What [JSON.parse] hands to the program, and the reads and calls the
    program makes on it. *)

(** What [JSON.parse] returns.  A number is kept by its exact value; the
    fields of an object are its own properties. *)
#[local] Unset Elimination Schemes.
Inductive json : Type :=
  | JNull
  | JBool (b : bool)
  | JNum (q : Q)
  | JStr (s : jsstring)
  | JArr (items : list json)
  | JObj (fields : list (jsstring * json)).
#[local] Set Elimination Schemes.

(** Values the callback handles: [undefined], parsed data, and methods
    inherited from a prototype (only their [name] and [length] are data). *)
Inductive value : Type :=
  | Undefined
  | Val (j : json)
  | Method (name : jsstring) (arity : Z).

(** A completion: normal, or an exception ([TypeError] from a property read
    on [null]/[undefined] or a call of a non-function, [Error] from the
    file system). *)
Inductive completion (A : Type) : Type :=
  | Normal (a : A)
  | Throw.
Arguments Normal {A} a.
Arguments Throw {A}.

Definition bind {A B} (c : completion A) (k : A -> completion B)
  : completion B :=
  match c with
  | Normal a => k a
  | Throw => Throw
  end.

Notation "x <- c ;; k" := (bind c (fun x => k))
  (at level 61, c at next level, right associativity).

Fixpoint str_eqb (a b : jsstring) : bool :=
  match a, b with
  | [], [] => true
  | x :: a', y :: b' => N.eqb x y && str_eqb a' b'
  | _, _ => false
  end.

Definition own (fields : list (jsstring * json)) (key : jsstring) : value :=
  match find (fun p => str_eqb (fst p) key) fields with
  | Some (_, j) => Val j
  | None => Undefined
  end.

Definition number (n : Z) : value := Val (JNum (inject_Z n)).

(** [v.key] for the property names the program reads ([type], [v],
    [vault], [name], [entries], [length], [forEach], [secret], [label],
    [issuer], [replace]); of these the prototypes provide [entries] and
    [forEach] on arrays and [replace] on strings. *)
Definition get (v : value) (key : jsstring) : completion value :=
  match v with
  | Undefined => Throw
  | Val JNull => Throw
  | Val (JObj fields) => Normal (own fields key)
  | Val (JArr items) =>
      if str_eqb key (lit "length")
      then Normal (number (Z.of_nat (List.length items)))
      else if str_eqb key (lit "forEach") then Normal (Method key 1)
      else if str_eqb key (lit "entries") then Normal (Method key 0)
      else Normal Undefined
  | Val (JStr s) =>
      if str_eqb key (lit "length")
      then Normal (number (Z.of_nat (List.length s)))
      else if str_eqb key (lit "replace") then Normal (Method key 2)
      else Normal Undefined
  | Val (JBool _) => Normal Undefined
  | Val (JNum _) => Normal Undefined
  | Method name arity =>
      if str_eqb key (lit "length") then Normal (number arity)
      else if str_eqb key (lit "name") then Normal (Val (JStr name))
      else Normal Undefined
  end.

(** [recv.m(...)] for a method [m] that cannot itself throw here. *)
Definition call (recv : value) (m : jsstring) : completion unit :=
  f <- get recv m ;;
  match f with
  | Method _ _ => Normal tt
  | _ => Throw
  end.

(** [x === 'vault_share'] and [x === PROTO_VER]. *)
Definition is_str (x : value) (s : jsstring) : bool :=
  match x with
  | Val (JStr t) => str_eqb t s
  | _ => false
  end.
Definition is_num (x : value) (n : Z) : bool :=
  match x with
  | Val (JNum q) => Qeq_bool q (inject_Z n)
  | _ => false
  end.

(** ** Further built-ins of the language

    What the rest of [otp/index.js] calls on strings, numbers and parsed
    data.  As above, each is given on the values the program can hand it. *)

Module Builtin.

(** [s.trim()]: the characters of the class [\s] (white space and line
    terminators) are cut at both ends. *)
Fixpoint trimStart (s : jsstring) : jsstring :=
  match s with
  | [] => []
  | c :: s' => if is_space c then trimStart s' else s
  end.
Definition trimEnd (s : jsstring) : jsstring := rev (trimStart (rev s)).
Definition trim (s : jsstring) : jsstring := trimEnd (trimStart s).

(** [String.prototype.toLowerCase], one code unit at a time.  The table is
    the Unicode mapping on U+0000..U+00FF and on the two other code units
    whose lower-case form holds a Basic Latin character (U+0130 and the
    Kelvin sign); the remaining code units, whose lower-case forms lie
    wholly outside Basic Latin, are left as they are.  The program only
    compares the result with ['v'], ['d'] and ['q']. *)
Definition lower_unit (c : N) : list N :=
  (if (65 <=? c) && (c <=? 90) then [c + 32]
   else if (192 <=? c) && (c <=? 222) && negb (c =? 215) then [c + 32]
   else if c =? 304 then [105; 775]
   else if c =? 8490 then [107]
   else [c])%N.

Definition toLowerCase (s : jsstring) : jsstring := flat_map lower_unit s.

(** The value of a digit or letter in a numeral. *)
Definition digit_value (c : N) : option Z :=
  let c := Z.of_N c in
  if (48 <=? c) && (c <=? 57) then Some (c - 48)
  else if (97 <=? c) && (c <=? 122) then Some (c - 87)
  else if (65 <=? c) && (c <=? 90) then Some (c - 55)
  else None.

(** The longest run of digits of radix [R] that starts [s], read as a
    number; [None] when there is no digit. *)
Fixpoint parse_digits (R : Z) (s : jsstring) (acc : Z) (seen : bool)
  : option Z :=
  match s with
  | [] => if seen then Some acc else None
  | c :: s' =>
      match digit_value c with
      | Some d =>
          if d <? R then parse_digits R s' (acc * R + d) true
          else if seen then Some acc else None
      | None => if seen then Some acc else None
      end
  end.

(** [parseInt(s)] with no radix: leading white space is skipped, a sign is
    read, the prefix [0x] or [0X] selects radix 16, and the digits up to the
    first character that is not one are read; [None] is [NaN].  The result
    is the exact integer: Node rounds it to a double, which changes neither
    a value below 2^53 nor the outcome of comparing a larger one with the
    length of an array. *)
Definition parseInt (s : jsstring) : option Z :=
  let s1 := trimStart s in
  let sign := match s1 with 45%N :: _ => -1 | _ => 1 end in
  let s2 :=
    match s1 with
    | c :: s' => if (c =? 43)%N || (c =? 45)%N then s' else s1
    | [] => s1
    end in
  let '(R, s3) :=
    match s2 with
    | 48%N :: x :: s' => if (x =? 120)%N || (x =? 88)%N then (16, s') else (10, s2)
    | _ => (10, s2)
    end in
  option_map (Z.mul sign) (parse_digits R s3 0 false).

(** [Math.round(x)]: the nearest integer, a tie going upwards. *)
Definition Math_round (x : Q) : Z := Qfloor (x + (1 # 2))%Q.

(** [s.repeat(count)] for an integer [count]: a negative one raises a
    [RangeError]. *)
Definition repeat_ (s : jsstring) (count : Z) : completion jsstring :=
  if count <? 0 then Throw
  else Normal (List.concat (repeat s (Z.to_nat count))).

(** [s.padEnd(len)], [s.slice(a, b)] and [s.slice(a)] for indices that are
    not negative. *)
Definition padEnd (len : nat) (s : jsstring) : jsstring :=
  s ++ repeat 32%N (len - List.length s).
Definition slice (s : jsstring) (a b : nat) : jsstring :=
  firstn (b - a) (skipn a s).
Definition slice_from (s : jsstring) (a : nat) : jsstring := skipn a s.

(** [if (v)], [!v] and [v || w] look at whether [v] is truthy. *)
Definition ToBoolean (v : value) : bool :=
  match v with
  | Undefined => false
  | Val JNull => false
  | Val (JBool b) => b
  | Val (JNum q) => negb (Qeq_bool q 0)
  | Val (JStr s) => match s with [] => false | _ :: _ => true end
  | Val (JArr _) => true
  | Val (JObj _) => true
  | Method _ _ => true
  end.

Definition is_empty (s : jsstring) : bool :=
  match s with [] => true | _ :: _ => false end.

(** [a || b] on strings. *)
Definition or_else (a b : jsstring) : jsstring := if is_empty a then b else a.

Definition has_own (fields : list (jsstring * json)) (key : jsstring) : bool :=
  existsb (fun p => str_eqb (fst p) key) fields.

(** Whether parsed data can be written into a template literal.  An object
    is written through [Object.prototype.toString] unless it has a property
    [toString] of its own, which, being data, cannot be called: the
    conversion then raises a [TypeError].  An array is written by joining
    its elements. *)
Fixpoint printable (j : json) : bool :=
  match j with
  | JObj fields => negb (has_own fields (lit "toString"))
  | JArr items => forallb printable items
  | _ => true
  end.

(** [`${v}`], for its effect only. *)
Definition interpolate (v : value) : completion unit :=
  match v with
  | Val j => if printable j then Normal tt else Throw
  | _ => Normal tt
  end.

(** The receiver of a method that only arrays have ([forEach], [push],
    [splice]), and of one that only strings have ([replace], [padEnd]):
    on anything else the call raises a [TypeError], since a property that
    parsed data provides under such a name is not a function. *)
Definition as_array (v : value) : completion (list json) :=
  match v with
  | Val (JArr items) => Normal items
  | _ => Throw
  end.
Definition as_string (v : value) : completion jsstring :=
  match v with
  | Val (JStr s) => Normal s
  | _ => Throw
  end.

(** [obj.key = j] on the own properties of an object. *)
Fixpoint assign (fields : list (jsstring * json)) (key : jsstring) (j : json)
  : list (jsstring * json) :=
  match fields with
  | [] => [(key, j)]
  | (k, v) :: fields' =>
      if str_eqb k key then (k, j) :: fields'
      else (k, v) :: assign fields' key j
  end.

End Builtin.
Import Builtin.

(** ** Upper case in full

    [String.prototype.toUpperCase] on every string: the string is read as
    code points (a high surrogate followed by a low one is one code
    point), and each is replaced by its upper-case form in the Unicode
    Character Database, without regard to locale or context.  The tables
    are those of Unicode 14.0.  Line 248 stores what this function
    returns; the decoder, which only looks for the characters of the
    alphabet, is given the shorter table of [JS.upper_unit]. *)

Module Unicode.

(** A run of code points with one-to-one upper-case forms: the first and
    the last code point, the step from one to the next, and the upper-case
    form of the first; the forms follow at the same step. *)
Definition run : Type := (N * N * N * N)%type.

Definition in_run (c : N) (r : run) : bool :=
  let '(first, last, step, _) := r in
  ((first <=? c) && (c <=? last) && ((c - first) mod step =? 0))%N.

Definition simple_upper (table : list run) (c : N) : N :=
  match find (in_run c) table with
  | Some (first, _, _, target) => (target + (c - first))%N
  | None => c
  end.

(** The one-to-one mappings of the Basic Multilingual Plane. *)
Definition simple : list run :=
  [(97, 122, 1, 65); (181, 181, 1, 924); (224, 246, 1, 192);
   (248, 254, 1, 216); (255, 255, 1, 376); (257, 303, 2, 256);
   (305, 305, 1, 73); (307, 311, 2, 306); (314, 328, 2, 313);
   (331, 375, 2, 330); (378, 382, 2, 377); (383, 383, 1, 83);
   (384, 384, 1, 579); (387, 389, 2, 386); (392, 392, 1, 391);
   (396, 396, 1, 395); (402, 402, 1, 401); (405, 405, 1, 502);
   (409, 409, 1, 408); (410, 410, 1, 573); (414, 414, 1, 544);
   (417, 421, 2, 416); (424, 424, 1, 423); (429, 429, 1, 428);
   (432, 432, 1, 431); (436, 438, 2, 435); (441, 441, 1, 440);
   (445, 445, 1, 444); (447, 447, 1, 503); (453, 453, 1, 452);
   (454, 454, 1, 452); (456, 456, 1, 455); (457, 457, 1, 455);
   (459, 459, 1, 458); (460, 460, 1, 458); (462, 476, 2, 461);
   (477, 477, 1, 398); (479, 495, 2, 478); (498, 498, 1, 497);
   (499, 499, 1, 497); (501, 501, 1, 500); (505, 543, 2, 504);
   (547, 563, 2, 546); (572, 572, 1, 571); (575, 576, 1, 11390);
   (578, 578, 1, 577); (583, 591, 2, 582); (592, 592, 1, 11375);
   (593, 593, 1, 11373); (594, 594, 1, 11376); (595, 595, 1, 385);
   (596, 596, 1, 390); (598, 599, 1, 393); (601, 601, 1, 399);
   (603, 603, 1, 400); (604, 604, 1, 42923); (608, 608, 1, 403);
   (609, 609, 1, 42924); (611, 611, 1, 404); (613, 613, 1, 42893);
   (614, 614, 1, 42922); (616, 616, 1, 407); (617, 617, 1, 406);
   (618, 618, 1, 42926); (619, 619, 1, 11362); (620, 620, 1, 42925);
   (623, 623, 1, 412); (625, 625, 1, 11374); (626, 626, 1, 413);
   (629, 629, 1, 415); (637, 637, 1, 11364); (640, 640, 1, 422);
   (642, 642, 1, 42949); (643, 643, 1, 425); (647, 647, 1, 42929);
   (648, 648, 1, 430); (649, 649, 1, 580); (650, 651, 1, 433);
   (652, 652, 1, 581); (658, 658, 1, 439); (669, 669, 1, 42930);
   (670, 670, 1, 42928); (837, 837, 1, 921); (881, 883, 2, 880);
   (887, 887, 1, 886); (891, 893, 1, 1021); (940, 940, 1, 902);
   (941, 943, 1, 904); (945, 961, 1, 913); (962, 962, 1, 931);
   (963, 971, 1, 931); (972, 972, 1, 908); (973, 974, 1, 910);
   (976, 976, 1, 914); (977, 977, 1, 920); (981, 981, 1, 934);
   (982, 982, 1, 928); (983, 983, 1, 975); (985, 1007, 2, 984);
   (1008, 1008, 1, 922); (1009, 1009, 1, 929); (1010, 1010, 1, 1017);
   (1011, 1011, 1, 895); (1013, 1013, 1, 917); (1016, 1016, 1, 1015);
   (1019, 1019, 1, 1018); (1072, 1103, 1, 1040); (1104, 1119, 1, 1024);
   (1121, 1153, 2, 1120); (1163, 1215, 2, 1162); (1218, 1230, 2, 1217);
   (1231, 1231, 1, 1216); (1233, 1327, 2, 1232); (1377, 1414, 1, 1329);
   (4304, 4346, 1, 7312); (4349, 4351, 1, 7357); (5112, 5117, 1, 5104);
   (7296, 7296, 1, 1042); (7297, 7297, 1, 1044); (7298, 7298, 1, 1054);
   (7299, 7300, 1, 1057); (7301, 7301, 1, 1058); (7302, 7302, 1, 1066);
   (7303, 7303, 1, 1122); (7304, 7304, 1, 42570); (7545, 7545, 1, 42877);
   (7549, 7549, 1, 11363); (7566, 7566, 1, 42950); (7681, 7829, 2, 7680);
   (7835, 7835, 1, 7776); (7841, 7935, 2, 7840); (7936, 7943, 1, 7944);
   (7952, 7957, 1, 7960); (7968, 7975, 1, 7976); (7984, 7991, 1, 7992);
   (8000, 8005, 1, 8008); (8017, 8023, 2, 8025); (8032, 8039, 1, 8040);
   (8048, 8049, 1, 8122); (8050, 8053, 1, 8136); (8054, 8055, 1, 8154);
   (8056, 8057, 1, 8184); (8058, 8059, 1, 8170); (8060, 8061, 1, 8186);
   (8112, 8113, 1, 8120); (8126, 8126, 1, 921); (8144, 8145, 1, 8152);
   (8160, 8161, 1, 8168); (8165, 8165, 1, 8172); (8526, 8526, 1, 8498);
   (8560, 8575, 1, 8544); (8580, 8580, 1, 8579); (9424, 9449, 1, 9398);
   (11312, 11359, 1, 11264); (11361, 11361, 1, 11360);
   (11365, 11365, 1, 570); (11366, 11366, 1, 574); (11368, 11372, 2, 11367);
   (11379, 11379, 1, 11378); (11382, 11382, 1, 11381);
   (11393, 11491, 2, 11392); (11500, 11502, 2, 11499);
   (11507, 11507, 1, 11506); (11520, 11557, 1, 4256);
   (11559, 11559, 1, 4295); (11565, 11565, 1, 4301);
   (42561, 42605, 2, 42560); (42625, 42651, 2, 42624);
   (42787, 42799, 2, 42786); (42803, 42863, 2, 42802);
   (42874, 42876, 2, 42873); (42879, 42887, 2, 42878);
   (42892, 42892, 1, 42891); (42897, 42899, 2, 42896);
   (42900, 42900, 1, 42948); (42903, 42921, 2, 42902);
   (42933, 42947, 2, 42932); (42952, 42954, 2, 42951);
   (42961, 42961, 1, 42960); (42967, 42969, 2, 42966);
   (42998, 42998, 1, 42997); (43859, 43859, 1, 42931);
   (43888, 43967, 1, 5024); (65345, 65370, 1, 65313)]%N.

(** The one-to-one mappings of the supplementary planes. *)
Definition supplementary : list run :=
  [(66600, 66639, 1, 66560); (66776, 66811, 1, 66736);
   (66967, 66977, 1, 66928); (66979, 66993, 1, 66940);
   (66995, 67001, 1, 66956); (67003, 67004, 1, 66964);
   (68800, 68850, 1, 68736); (71872, 71903, 1, 71840);
   (93792, 93823, 1, 93760); (125218, 125251, 1, 125184)]%N.

(** The code points whose upper-case form has several characters. *)
Definition special : list (N * list N) :=
  [(223, [83; 83]); (329, [700; 78]); (496, [74; 780]);
   (912, [921; 776; 769]); (944, [933; 776; 769]); (1415, [1333; 1362]);
   (7830, [72; 817]); (7831, [84; 776]); (7832, [87; 778]);
   (7833, [89; 778]); (7834, [65; 702]); (8016, [933; 787]);
   (8018, [933; 787; 768]); (8020, [933; 787; 769]); (8022, [933; 787; 834]);
   (8064, [7944; 921]); (8065, [7945; 921]); (8066, [7946; 921]);
   (8067, [7947; 921]); (8068, [7948; 921]); (8069, [7949; 921]);
   (8070, [7950; 921]); (8071, [7951; 921]); (8072, [7944; 921]);
   (8073, [7945; 921]); (8074, [7946; 921]); (8075, [7947; 921]);
   (8076, [7948; 921]); (8077, [7949; 921]); (8078, [7950; 921]);
   (8079, [7951; 921]); (8080, [7976; 921]); (8081, [7977; 921]);
   (8082, [7978; 921]); (8083, [7979; 921]); (8084, [7980; 921]);
   (8085, [7981; 921]); (8086, [7982; 921]); (8087, [7983; 921]);
   (8088, [7976; 921]); (8089, [7977; 921]); (8090, [7978; 921]);
   (8091, [7979; 921]); (8092, [7980; 921]); (8093, [7981; 921]);
   (8094, [7982; 921]); (8095, [7983; 921]); (8096, [8040; 921]);
   (8097, [8041; 921]); (8098, [8042; 921]); (8099, [8043; 921]);
   (8100, [8044; 921]); (8101, [8045; 921]); (8102, [8046; 921]);
   (8103, [8047; 921]); (8104, [8040; 921]); (8105, [8041; 921]);
   (8106, [8042; 921]); (8107, [8043; 921]); (8108, [8044; 921]);
   (8109, [8045; 921]); (8110, [8046; 921]); (8111, [8047; 921]);
   (8114, [8122; 921]); (8115, [913; 921]); (8116, [902; 921]);
   (8118, [913; 834]); (8119, [913; 834; 921]); (8124, [913; 921]);
   (8130, [8138; 921]); (8131, [919; 921]); (8132, [905; 921]);
   (8134, [919; 834]); (8135, [919; 834; 921]); (8140, [919; 921]);
   (8146, [921; 776; 768]); (8147, [921; 776; 769]); (8150, [921; 834]);
   (8151, [921; 776; 834]); (8162, [933; 776; 768]); (8163, [933; 776; 769]);
   (8164, [929; 787]); (8166, [933; 834]); (8167, [933; 776; 834]);
   (8178, [8186; 921]); (8179, [937; 921]); (8180, [911; 921]);
   (8182, [937; 834]); (8183, [937; 834; 921]); (8188, [937; 921]);
   (64256, [70; 70]); (64257, [70; 73]); (64258, [70; 76]);
   (64259, [70; 70; 73]); (64260, [70; 70; 76]); (64261, [83; 84]);
   (64262, [83; 84]); (64275, [1348; 1350]); (64276, [1348; 1333]);
   (64277, [1348; 1339]); (64278, [1358; 1350]); (64279, [1348; 1341])]%N.

Definition upper_unit (c : N) : list N :=
  match find (fun p => (fst p =? c)%N) special with
  | Some (_, l) => l
  | None => [simple_upper simple c]
  end.

Definition is_high (c : N) : bool := ((55296 <=? c) && (c <=? 56319))%N.
Definition is_low (c : N) : bool := ((56320 <=? c) && (c <=? 57343))%N.

(** The code point of a surrogate pair, and the pair of a code point of
    the supplementary planes. *)
Definition code_point (hi lo : N) : N :=
  (65536 + (hi - 55296) * 1024 + (lo - 56320))%N.
Definition units_of (cp : N) : list N :=
  [55296 + (cp - 65536) / 1024; 56320 + (cp - 65536) mod 1024]%N.

Definition upper_pair (hi lo : N) : list N :=
  units_of (simple_upper supplementary (code_point hi lo)).

Fixpoint toUpperCase (s : jsstring) : jsstring :=
  match s with
  | [] => []
  | c :: rest =>
      match rest with
      | d :: rest' =>
          if is_high c && is_low d
          then upper_pair c d ++ toUpperCase rest'
          else upper_unit c ++ toUpperCase rest
      | [] => upper_unit c
      end
  end.

End Unicode.

(** ** The countdown *)

(** The escape sequences of the table [C]. *)
Module C.
Definition esc (s : string) : jsstring := 27%N :: lit s.
Definition reset : jsstring := esc "[0m".
Definition bold : jsstring := esc "[1m".
Definition dim : jsstring := esc "[2m".
Definition green : jsstring := esc "[32m".
Definition yellow : jsstring := esc "[33m".
Definition red : jsstring := esc "[31m".
End C.

(** [secondsRemaining()], with the value of [Date.now()] as its input.
    [Math.floor(now / 1000)] is computed in double precision; for an integer
    [now] below 2^53 in size the rounded quotient has the floor of the exact
    one.  [%] is the remainder that takes the sign of the dividend. *)
Definition secondsRemaining (now : Z) : Z := 30 - Z.rem (now / 1000) 30.

(** The body of [countdownBar] once [rem] has been read.  [pct * W] is two
    thirds of [rem] up to the rounding of two double-precision operations,
    too little to move it across a half: [Math.round] gives what it gives
    on the exact value. *)
Definition countdownBar_of (rem : Z) : completion jsstring :=
  let pct := (inject_Z rem / inject_Z 30)%Q in
  let W := 20 in
  let filled := Math_round (pct * inject_Z W)%Q in
  let color :=
    if rem <=? 5 then C.red else if rem <=? 10 then C.yellow else C.green in
  full <- repeat_ [9608%N] filled ;;
  rest <- repeat_ [9617%N] (W - filled) ;;
  Normal (color ++ full ++ C.dim ++ rest ++ C.reset ++ [32%N] ++ color
          ++ C.bold ++ String_of rem ++ lit "s" ++ C.reset).

(** [countdownBar()], with the value of [Date.now()] as its input. *)
Definition countdownBar (now : Z) : completion jsstring :=
  countdownBar_of (secondsRemaining now).

(** [`${code.slice(0, 3)} ${code.slice(3)}`], the way a code is shown. *)
Definition pretty (code : jsstring) : jsstring :=
  slice code 0 3 ++ [32%N] ++ slice_from code 3.

(** ** The receive session

    [runReceive] registers callbacks and returns; what happens afterwards is
    decided by the order in which Node's event loop delivers events.  The
    session is therefore a state ([session]) and a step function ([step])
    over events; each callback runs to its first [await] without
    interleaving.  A ['data'] event can be delivered for as long as the
    process runs: the callbacks are never removed and [swarm.destroy()] is
    asynchronous.  Of console output only what can raise an exception is
    kept (the conversion of a value to text, and [countdownBar()]); the
    user interrupt is left out. *)

Definition PROTO_VER : Z := 1.

(** [msg.type !== 'vault_share' || msg.v !== PROTO_VER], negated: [true]
    when the message goes on to be accepted. *)
Definition header_ok (msg : value) : completion bool :=
  ty <- get msg (lit "type") ;;
  if negb (is_str ty (lit "vault_share")) then Normal false
  else v <- get msg (lit "v") ;; Normal (is_num v PROTO_VER).

(** The callback of [vault.entries.forEach], lines 436-438.  [clock] gives
    the values of the successive calls of [Date.now()] in this run of the
    ['data'] callback, and [k] is the number of calls made so far.
    [totp(e.secret)] reads the clock for its second parameter and starts
    with [secret.replace]; [totp] is total on strings.  The first line
    printed converts [e.label] and [e.issuer] to text, the second calls
    [countdownBar()], which reads the clock once more. *)
Definition entry_body (clock : nat -> Z) (k : nat) (e : value)
  : completion unit :=
  secret <- get e (lit "secret") ;;
  _ <- call secret (lit "replace") ;;
  label <- get e (lit "label") ;;
  _ <- interpolate label ;;
  issuer <- get e (lit "issuer") ;;
  _ <- interpolate issuer ;;
  _ <- countdownBar (clock (S k)) ;;
  Normal tt.

Fixpoint forEach_items (clock : nat -> Z) (k : nat) (items : list json)
  : completion unit :=
  match items with
  | [] => Normal tt
  | e :: items' =>
      _ <- entry_body clock k (Val e) ;; forEach_items clock (S (S k)) items'
  end.

Definition forEach (clock : nat -> Z) (entries : value) : completion unit :=
  _ <- call entries (lit "forEach") ;;
  match entries with
  | Val (JArr items) => forEach_items clock 0 items
  | _ => Throw
  end.

(** What a callback does to the world, in order. *)
Inductive action : Type :=
  | Latch
  | WriteFile (name : value) (vault : value)
  | ConnWrite (conn : nat)
  | SetTimeout (ms : Z)
  | Warn
  | SwarmDestroy
  | Exit (code : Z)
  | Unhandled.

(** How a run of the ['data'] callback ends: it returns, it is suspended at
    [await new Promise(r => setTimeout(r, 500))], or it throws and its
    promise is rejected. *)
Inductive outcome : Type := Returned | Suspended | Rejected.

(** Lines 432-445, up to the write: [Throw] when a read, a conversion to
    text or [countdownBar()] fails.  Line 434 writes [vault.name] and
    [vault.entries.length] into a template literal; the file name is
    computed from [vault.name], which must be a string. *)
Definition read_vault (clock : nat -> Z) (msg : value)
  : completion (value * value) :=
  vault <- get msg (lit "vault") ;;
  name <- get vault (lit "name") ;;
  _ <- interpolate name ;;
  entries <- get vault (lit "entries") ;;
  len <- get entries (lit "length") ;;
  _ <- interpolate len ;;
  _ <- forEach clock entries ;;
  _ <- call name (lit "replace") ;;
  Normal (name, vault).

(** The ['data'] callback of a connection.  [payload] is the result of
    [JSON.parse(raw.toString())], [None] when it throws; [clock] gives the
    values of [Date.now()] during this run of the callback; [fs_ok] tells
    whether [fs.writeFileSync] succeeds.  The result is the new value of
    [received], the actions taken and the way the run ends. *)
Definition onData (received : bool) (conn : nat) (payload : option json)
    (clock : nat -> Z) (fs_ok : bool) : bool * list action * outcome :=
  if received then (received, [], Returned)
  else
    match payload with
    | None => (received, [], Returned)
    | Some j =>
        let msg := Val j in
        match header_ok msg with
        | Throw => (received, [], Rejected)
        | Normal false => (received, [], Returned)
        | Normal true =>
            match read_vault clock msg with
            | Throw => (true, [Latch], Rejected)
            | Normal (name, vault) =>
                if fs_ok
                then (true,
                      [Latch; WriteFile name vault; ConnWrite conn;
                       SetTimeout 500],
                      Suspended)
                else (true, [Latch], Rejected)
            end
        end
    end.

(** The process: running, ended by [process.exit(code)], or ended by an
    unhandled promise rejection (Node's default since version 15). *)
Inductive status : Type := Running | Exited (code : Z) | Crashed.

Record session : Type := mkS {
  received : bool;
  status_of : status;
  joined : bool;      (* [disc.flushed()] has resolved *)
  timer60 : bool;     (* the 60 s timer is pending *)
  grace : nat;        (* callbacks suspended at the 500 ms wait *)
  exit0 : nat;        (* [swarm.destroy()] pending, followed by exit(0) *)
  exit1 : nat;        (* [swarm.destroy()] pending, followed by exit(1) *)
  trace : list action
}.

Inductive event : Type :=
  | Data (conn : nat) (payload : option json) (clock : nat -> Z)
         (fs_ok : bool)
  | Flushed
  | Timer60
  | Grace
  | Destroyed0
  | Destroyed1.

Definition init : session := mkS false Running false false 0 0 0 [].

Definition step (s : session) (e : event) : session :=
  match status_of s with
  | Running =>
      match e with
      | Data conn payload clock fs_ok =>
          let '(r, acts, out) := onData (received s) conn payload clock fs_ok in
          match out with
          | Returned =>
              mkS r Running (joined s) (timer60 s) (grace s) (exit0 s)
                  (exit1 s) (trace s ++ acts)
          | Suspended =>
              mkS r Running (joined s) (timer60 s) (S (grace s)) (exit0 s)
                  (exit1 s) (trace s ++ acts)
          | Rejected =>
              mkS r Crashed (joined s) (timer60 s) (grace s) (exit0 s)
                  (exit1 s) (trace s ++ acts ++ [Unhandled])
          end
      | Flushed =>
          if joined s then s
          else mkS (received s) Running true true (grace s) (exit0 s)
                   (exit1 s) (trace s ++ [SetTimeout 60000])
      | Timer60 =>
          if timer60 s then
            if negb (received s)
            then mkS (received s) Running (joined s) false (grace s)
                     (exit0 s) (S (exit1 s))
                     (trace s ++ [Warn; SwarmDestroy])
            else mkS (received s) Running (joined s) false (grace s)
                     (exit0 s) (exit1 s) (trace s)
          else s
      | Grace =>
          match grace s with
          | O => s
          | S g =>
              mkS (received s) Running (joined s) (timer60 s) g
                  (S (exit0 s)) (exit1 s) (trace s ++ [SwarmDestroy])
          end
      | Destroyed0 =>
          match exit0 s with
          | O => s
          | S _ =>
              mkS (received s) (Exited 0) (joined s) (timer60 s) (grace s)
                  (exit0 s) (exit1 s) (trace s ++ [Exit 0])
          end
      | Destroyed1 =>
          match exit1 s with
          | O => s
          | S _ =>
              mkS (received s) (Exited 1) (joined s) (timer60 s) (grace s)
                  (exit0 s) (exit1 s) (trace s ++ [Exit 1])
          end
      end
  | _ => s
  end.

Definition run (s : session) (evs : list event) : session :=
  fold_left step evs s.

(** ** Programs that talk to the user

    [runSetup] and the tables read answers from the terminal, read the
    clock, write lines and save the vault.  A program is a function of the
    [world]: the answers not yet read, the number of times the clock has
    been read, and what has been done so far.  It ends normally, raises an
    exception (which [main] reports before it exits with code 1), or waits
    for an answer that never comes.  The text of the lines is left out;
    the headings and the lines of [printVaultTable] are left out
    altogether. *)

(** What the process is given: the values of successive calls of
    [Date.now()], the bytes of [randomBytes(20)], the text of
    [new Date().toISOString()], and whether [fs.writeFileSync] succeeds. *)
Record env : Type := mkEnv {
  Date_now : nat -> Z;
  randomBytes : list byte;
  toISOString : jsstring;
  writable : bool
}.

(** The lines written through [info], [success] and [warn]. *)
Inductive notice : Type :=
  | ExistingVault
  | CreatingVault (name : jsstring)
  | Removed
  | InvalidIndex
  | GeneratedSecret (secret : jsstring)
  | SecretValidated
  | SecretMayBeInvalid
  | LabelRequired
  | EntryAdded
  | VaultSize (n : nat).

Inductive effect : Type :=
  | Say (n : notice)
  | SaveVault (vault : json)
  | CurrentOTP (label code bar : jsstring)
  | Row (label code bar : jsstring)
  | Footer (entries : nat) (rem : Z).

Record world : Type := mkW {
  stdin : list jsstring;
  ticks : nat;
  effects : list effect
}.

Inductive result (A : Type) : Type :=
  | Ok (a : A)
  | Raised
  | Pending.
Arguments Ok {A} a.
Arguments Raised {A}.
Arguments Pending {A}.

Definition io (A : Type) : Type := world -> result A * world.

Definition ret {A} (a : A) : io A := fun w => (Ok a, w).

Definition io_bind {A B} (m : io A) (k : A -> io B) : io B :=
  fun w =>
    match m w with
    | (Ok a, w') => k a w'
    | (Raised, w') => (Raised, w')
    | (Pending, w') => (Pending, w')
    end.

Notation "x <~ m ;; k" := (io_bind m (fun x => k))
  (at level 61, m at next level, right associativity).

(** A computation on values inside a program. *)
Definition lift {A} (c : completion A) : io A :=
  fun w =>
    match c with
    | Normal a => (Ok a, w)
    | Throw => (Raised, w)
    end.

(** [await ask(q)]: the next line typed; when there is none the promise
    is never resolved. *)
Definition ask : io jsstring :=
  fun w =>
    match stdin w with
    | [] => (Pending, w)
    | a :: rest => (Ok a, mkW rest (ticks w) (effects w))
    end.

(** [Date.now()]. *)
Definition read_clock (e : env) : io Z :=
  fun w => (Ok (Date_now e (ticks w)), mkW (stdin w) (S (ticks w)) (effects w)).

Definition emit (x : effect) : io unit :=
  fun w => (Ok tt, mkW (stdin w) (ticks w) (effects w ++ [x])).

(** [arr.forEach(f)]. *)
Fixpoint each {A} (f : A -> io unit) (l : list A) : io unit :=
  match l with
  | [] => ret tt
  | a :: l' => _ <~ f a ;; each f l'
  end.

(** ** Vault I/O *)

(** [loadVault()]: [file] is what [JSON.parse] makes of the vault file,
    [None] when the file is missing or cannot be read or parsed. *)
Definition loadVault (file : option json) : value :=
  match file with
  | Some j => Val j
  | None => Val JNull
  end.

(** [saveVault(vault)]. *)
Definition saveVault (e : env) (vault : json) : io unit :=
  if writable e then emit (SaveVault vault) else lift Throw.

(** ** The tables *)

(** The callback of [forEach] in [printVaultTable]. *)
Definition table_entry (e : json) : completion unit :=
  label <- get (Val e) (lit "label") ;;
  _ <- interpolate label ;;
  issuer <- get (Val e) (lit "issuer") ;;
  _ <- interpolate issuer ;;
  secret <- get (Val e) (lit "secret") ;;
  interpolate secret.

Fixpoint table_entries (items : list json) : completion unit :=
  match items with
  | [] => Normal tt
  | e :: items' => _ <- table_entry e ;; table_entries items'
  end.

Definition printVaultTable (vault : value) : completion unit :=
  name <- get vault (lit "name") ;;
  _ <- interpolate name ;;
  entries <- get vault (lit "entries") ;;
  len <- get entries (lit "length") ;;
  _ <- interpolate len ;;
  items <- as_array entries ;;
  table_entries items.

(** The callback of [forEach] in [printOTPTable].  [totp(entry.secret)]
    reads the clock for its second parameter before its body calls
    [secret.replace]. *)
Definition otp_row (e : env) (bar : jsstring) (entry : json) : io unit :=
  secret <~ lift (get (Val entry) (lit "secret")) ;;
  t <~ read_clock e ;;
  s <~ lift (as_string secret) ;;
  let code := totp s t in
  label <~ lift (get (Val entry) (lit "label")) ;;
  l <~ lift (as_string label) ;;
  emit (Row (slice (padEnd 22 l) 0 22) (pretty code) bar).

Definition printOTPTable (e : env) (vault : value) : io unit :=
  t0 <~ read_clock e ;;
  let rem := secondsRemaining t0 in
  t1 <~ read_clock e ;;
  bar <~ lift (countdownBar t1) ;;
  entries <~ lift (get vault (lit "entries")) ;;
  items <~ lift (as_array entries) ;;
  _ <~ each (otp_row e bar) items ;;
  emit (Footer (List.length items) rem).

(** ** Setup *)

Definition set_entries (vault : json) (items : list json) : json :=
  match vault with
  | JObj fields => JObj (assign fields (lit "entries") (JArr items))
  | _ => vault
  end.

(** [{ label, issuer, secret }]. *)
Definition new_entry (label issuer secret : jsstring) : json :=
  JObj [(lit "label", JStr label); (lit "issuer", JStr issuer);
        (lit "secret", JStr secret)].

(** What line 248 makes of the secret typed:
    [.trim().toUpperCase().replace(/\s/g, '')]. *)
Definition typed_secret (a : jsstring) : jsstring :=
  remove_spaces (Unicode.toUpperCase (trim a)).

(** Lines 244-270: a new entry is asked for and added to [vault].  The
    secret typed is validated by decoding it inside [try]; [base32Decode]
    returns on every string, so that the [catch] branch is never taken. *)
Definition add_entry (e : env) (vault : json) : io unit :=
  a <~ ask ;;
  let label := trim a in
  a <~ ask ;;
  let issuer := or_else (trim a) label in
  a <~ ask ;;
  let typed := typed_secret a in
  secret <~
    (if is_empty typed
     then
       let secret := generateSecret (randomBytes e) in
       _ <~ emit (Say (GeneratedSecret secret)) ;; ret secret
     else
       _ <~ match Normal (base32Decode typed) with
            | Normal _ => emit (Say SecretValidated)
            | Throw => emit (Say SecretMayBeInvalid)
            end ;;
       ret typed) ;;
  if is_empty label then emit (Say LabelRequired)
  else
    entries <~ lift (get (Val vault) (lit "entries")) ;;
    items <~ lift (as_array entries) ;;
    let items' := items ++ [new_entry label issuer secret] in
    _ <~ saveVault e (set_entries vault items') ;;
    _ <~ emit (Say EntryAdded) ;;
    _ <~ emit (Say (VaultSize (List.length items'))) ;;
    t <~ read_clock e ;;
    let code := totp secret t in
    t' <~ read_clock e ;;
    bar <~ lift (countdownBar t') ;;
    emit (CurrentOTP label code bar).

(** [idx >= 0 && idx < length] for [idx = parseInt(answer) - 1]. *)
Definition in_bounds (idx : option Z) (length : nat) : bool :=
  match idx with
  | Some i => (0 <=? i) && (i <? Z.of_nat length)
  | None => false
  end.

(** Lines 224-236: an entry is deleted by its number.  [printVaultTable]
    has called [vault.entries.forEach], so that [vault.entries] is an array
    when its length is compared. *)
Definition delete_entry (e : env) (vault : json) : io unit :=
  _ <~ lift (printVaultTable (Val vault)) ;;
  a <~ ask ;;
  let idx := option_map (fun n => n - 1) (parseInt a) in
  entries <~ lift (get (Val vault) (lit "entries")) ;;
  items <~ lift (as_array entries) ;;
  if in_bounds idx (List.length items)
  then
    let i := Z.to_nat (match idx with Some i => i | None => 0 end) in
    let removed := nth i items JNull in
    _ <~ saveVault e (set_entries vault (firstn i items ++ skipn (S i) items)) ;;
    label <~ lift (get (Val removed) (lit "label")) ;;
    _ <~ lift (interpolate label) ;;
    emit (Say Removed)
  else emit (Say InvalidIndex).

(** [runSetup()], with the content of the vault file as its input. *)
Definition runSetup (e : env) (file : option json) : io unit :=
  let loaded := loadVault file in
  if ToBoolean loaded
  then
    let vault := match loaded with Val j => j | _ => JNull end in
    name <~ lift (get loaded (lit "name")) ;;
    _ <~ lift (interpolate name) ;;
    entries <~ lift (get loaded (lit "entries")) ;;
    len <~ lift (get entries (lit "length")) ;;
    _ <~ lift (interpolate len) ;;
    _ <~ emit (Say ExistingVault) ;;
    a <~ ask ;;
    let choice := toLowerCase (trim a) in
    if str_eqb choice (lit "v") then lift (printVaultTable loaded)
    else if str_eqb choice (lit "d") then delete_entry e vault
    else if str_eqb choice (lit "q") then ret tt
    else add_entry e vault
  else
    a <~ ask ;;
    let vaultName := or_else (trim a) (lit "MyTeam") in
    let vault :=
      JObj [(lit "name", JStr vaultName);
            (lit "created", JStr (toISOString e));
            (lit "entries", JArr [])] in
    _ <~ emit (Say (CreatingVault vaultName)) ;;
    add_entry e vault.

(** A run of [runSetup] on the lines [answers]. *)
Definition setup (e : env) (file : option json) (answers : list jsstring)
  : result unit * world :=
  runSetup e file (mkW answers 0 []).

(** ** Share mode *)

(** The object that [runShare] writes to every peer that connects and the
    one with which [runReceive] acknowledges it, as [JSON.parse] returns
    them at the other end; [ts] is the sender's clock. *)
Definition share_payload (vault : json) (ts : Z) : json :=
  JObj [(lit "v", JNum (inject_Z PROTO_VER));
        (lit "type", JStr (lit "vault_share"));
        (lit "vault", vault);
        (lit "ts", JNum (inject_Z ts))].

Definition ack_payload (ts : Z) : json :=
  JObj [(lit "type", JStr (lit "vault_ack")); (lit "ts", JNum (inject_Z ts))].

(** The ['data'] callback of [runShare]: parsing and the test of
    [msg.type] are both inside [try], so that nothing is raised; the
    result tells whether receipt is confirmed to the user. *)
Definition share_onData (payload : option json) : bool :=
  match payload with
  | None => false
  | Some j =>
      match get (Val j) (lit "type") with
      | Normal ty => is_str ty (lit "vault_ack")
      | Throw => false
      end
  end.

(** [runShare] up to [topicBuf]: the lines 337 and 341 read [vault.name]
    and [vault.entries.length], and the topic is derived from the text of
    the name.  Only a name that is a string is covered ([None] otherwise:
    any other value is first converted to text). *)
Definition runShare_topic (vault : value) : completion (option (list byte)) :=
  name <- get vault (lit "name") ;;
  _ <- interpolate name ;;
  entries <- get vault (lit "entries") ;;
  len <- get entries (lit "length") ;;
  _ <- interpolate len ;;
  match name with
  | Val (JStr n) => Normal (Some (shareTopic n))
  | _ => Normal None
  end.

(** ** The Base32 codec seen through its pending bits

    Only the low [bits] bits of [value] are ever read again, in the decoder
    and in the encoder alike; on that view both loops are small arithmetic
    machines, and the wrap-around of [value] disappears. *)

Definition is_alpha (c : N) : bool := negb (indexOf ALPHABET c =? -1).

Definition in_range (i : Z) : bool := (0 <=? i) && (i <? 32).

Definition dview (st : dstate) : Z * Z :=
  (d_bits st, d_value st mod 2 ^ d_bits st).

Definition eview (st : estate) : Z * Z :=
  (e_bits st, e_value st mod 2 ^ e_bits st).

(** The decoder on pending bits: new view and bytes put out. *)
Definition ndec (s : Z * Z) (idx : Z) : (Z * Z) * list Z :=
  let '(bits, p) := s in
  let p' := p * 32 + idx in
  if bits + 5 >=? 8
  then ((bits - 3, p' mod 2 ^ (bits - 3)), [p' / 2 ^ (bits - 3)])
  else ((bits + 5, p'), []).

Definition ndec_run (s : Z * Z) (idxs : list Z) : (Z * Z) * list Z :=
  fold_left (fun acc idx =>
               let '(s', o) := ndec (fst acc) idx in (s', snd acc ++ o))
            idxs (s, []).

(** The encoder on pending bits: new view and alphabet indices put out. *)
Definition nenc (s : Z * Z) (x : Z) : (Z * Z) * list Z :=
  let '(bits, p) := s in
  let p' := p * 256 + x in
  if bits <? 2
  then ((bits + 3, p' mod 2 ^ (bits + 3)), [p' / 2 ^ (bits + 3)])
  else ((bits - 2, p' mod 2 ^ (bits - 2)),
        [p' / 2 ^ (bits + 3); (p' mod 2 ^ (bits + 3)) / 2 ^ (bits - 2)]).

(** The decoder is [8 - be] bits into a byte when the encoder has [be] bits
    of it left to put out. *)
Definition dec_bits_for (be : Z) : Z := if be =? 0 then 0 else 8 - be.

(** The byte that the decoder has not yet put out. *)
Definition pending (be y : Z) : list Z := if be =? 0 then [] else [y].

Definition zlist_eqb (a b : list Z) : bool :=
  if list_eq_dec Z.eq_dec a b then true else false.

(** One byte [x] through the encoder and its characters through the
    decoder, when [be] bits of the byte [y] before it are still pending:
    the decoder puts out [y] and holds [x] back, or puts out both; the
    eight new bits leave as characters of five, but for those pending. *)
Definition step_ok (be y x : Z) : bool :=
  let '((be', pe'), idxs) := nenc (be, y mod 2 ^ be) x in
  let '((bd', pd'), out) := ndec_run (dec_bits_for be, y / 2 ^ be) idxs in
  let y' := if be' =? 0 then 0 else x in
  forallb in_range idxs && (0 <=? be') && (be' <? 5)
  && (5 * Z.of_nat (List.length idxs) + be' =? be + 8)
  && (pe' =? y' mod 2 ^ be') && (bd' =? dec_bits_for be')
  && (pd' =? y' / 2 ^ be')
  && zlist_eqb (out ++ pending be' y') (pending be y ++ [x]).

(** The last, partly filled character gives the decoder the rest of [y]. *)
Definition final_ok (be y : Z) : bool :=
  let idx := (y mod 2 ^ be) * 2 ^ (5 - be) in
  in_range idx
  && zlist_eqb (snd (ndec (dec_bits_for be, y / 2 ^ be) idx)) [y].

Definition byte_values : list Z := List.map Z.of_nat (seq 0 256).

(** The encoder after [raw], and the decoder after the characters put out
    so far. *)
Definition enc_after (raw : list byte) : estate :=
  fold_left encode_step raw (mkE 0 0 []).
Definition dec_after (raw : list byte) : dstate :=
  decode_loop (e_result (enc_after raw)) (mkD 0 0 []).

(** ** The code engine as section 4.3 of the specification words it *)

Module Spec.

Definition digit (d : Z) : N := Z.to_N (48 + d).

(** [n] written with exactly [width] decimal digits. *)
Fixpoint decimal (width : nat) (n : Z) : jsstring :=
  match width with
  | O => []
  | S w => decimal w (n / 10) ++ [digit (n mod 10)]
  end.

(** [c] as an 8-byte big-endian unsigned integer. *)
Definition be8 (c : Z) : list byte :=
  List.map (fun k => byte_of_Z ((c / 256 ^ k) mod 256)) [7; 6; 5; 4; 3; 2; 1; 0].

Definition byte_at (digest : list byte) (i : Z) : Z :=
  nth (Z.to_nat i) (List.map Z_of_byte digest) 0.

(** Steps 1 to 7. *)
Definition code (secret : jsstring) (atTimeMillis : Z) : jsstring :=
  let counter := atTimeMillis / (1000 * 30) in
  let counterBytes := be8 counter in
  let key := base32Decode secret in
  let digest := Sha1.hmac key counterBytes in
  let offset := Z.land (byte_at digest 19) 0x0F in
  let value :=
    Z.lor (Z.lor (Z.lor (Z.shiftl (Z.land (byte_at digest offset) 0x7F) 24)
                        (Z.shiftl (byte_at digest (offset + 1)) 16))
                 (Z.shiftl (byte_at digest (offset + 2)) 8))
          (byte_at digest (offset + 3)) in
  decimal 6 (value mod 1000000).

End Spec.

(** The integer times on which the exact quotient of [counter_of] is the
    one Node computes in double precision. *)
Definition epoch_ok (t : Z) : Prop := 0 <= t < 2 ^ 51.

Definition is_digit (c : N) : bool := ((48 <=? c) && (c <=? 57))%N.

(** The white-space characters, listed. *)
Definition spaces : list N :=
  [9; 10; 11; 12; 13; 32; 160; 5760; 8192; 8193; 8194; 8195; 8196; 8197;
   8198; 8199; 8200; 8201; 8202; 8232; 8233; 8239; 8287; 12288; 65279]%N.

(** A character the decoder cannot see: its upper-case form has no
    character of the alphabet. *)
Definition skipped (c : N) : bool :=
  forallb (fun d => negb (is_alpha d)) (upper_unit c).

(** A character outside the alphabet whatever its case: not in [ALPHABET]
    and not one of 'a'..'z'. *)
Definition outside (c : N) : bool :=
  negb (is_alpha c) && negb ((97 <=? c) && (c <=? 122))%N.

(** [totp] after the secret has been decoded. *)
Definition totp_with_key (keyBuf : list byte) (epochMs : Z) : jsstring :=
  let counter := counter_of epochMs in
  let counterBuf := Buffer_from (counter_loop 8 counter (repeat 0 8)) in
  let hmac := hmacSha1 keyBuf counterBuf in
  let offset := band (at_ hmac 19) 0x0f in
  let code :=
    Z.rem
      (bor (bor (bor (shl (band (at_ hmac offset) 0x7f) 24)
                     (shl (band (at_ hmac (offset + 1)) 0xff) 16))
                (shl (band (at_ hmac (offset + 2)) 0xff) 8))
           (band (at_ hmac (offset + 3)) 0xff))
      1000000 in
  padStart 6 (String_of code).

(** [counterBuf] as the loop of lines 132-137 leaves it at the time
    [epochMs]: the message that [totp] gives to HMAC. *)
Definition counterBuf_at (epochMs : Z) : list byte :=
  Buffer_from (counter_loop 8 (counter_of epochMs) (repeat 0 8)).

(** Lines 140-148: what [totp] makes of the digest. *)
Definition code_of_hmac (hmac : list byte) : jsstring :=
  let offset := band (at_ hmac 19) 0x0f in
  let code :=
    Z.rem
      (bor (bor (bor (shl (band (at_ hmac offset) 0x7f) 24)
                     (shl (band (at_ hmac (offset + 1)) 0xff) 16))
                (shl (band (at_ hmac (offset + 2)) 0xff) 8))
           (band (at_ hmac (offset + 3)) 0xff))
      1000000 in
  padStart 6 (String_of code).

(** The secret of the RFC 6238 test vectors, "12345678901234567890". *)
Definition rfc_secret : jsstring := lit "GEZDGNBVGY3TQOJQGEZDGNBVGY3TQOJQ".

(** ** Reading the trace of a receive session *)

(** A payload the callback takes for a share message: it parses, its
    [type] is ["vault_share"] and its [v] is the protocol version. *)
Definition valid_header (payload : option json) : bool :=
  match payload with
  | Some j =>
      match header_ok (Val j) with
      | Normal true => true
      | _ => false
      end
  | None => false
  end.

Definition is_latch (a : action) : bool :=
  match a with Latch => true | _ => false end.

Definition is_write (a : action) : bool :=
  match a with WriteFile _ _ => true | _ => false end.

(** Persistence and acknowledgement I/O. *)
Definition is_io (a : action) : bool :=
  match a with WriteFile _ _ | ConnWrite _ => true | _ => false end.

Definition count (f : action -> bool) (l : list action) : nat :=
  List.length (filter f l).

(** Actions that neither set the latch nor touch the disk or a peer. *)
Definition quiet (acts : list action) : bool :=
  forallb (fun a => negb (is_latch a) && negb (is_io a)) acts.

(** In a trace, every persistence or acknowledgement action comes after
    the latch has been set. *)
Definition latch_before_io (tr : list action) : Prop :=
  forall pre a post, tr = pre ++ a :: post -> is_io a = true -> In Latch pre.

Definition is_data_valid (e : event) : bool :=
  match e with
  | Data _ payload _ _ => valid_header payload
  | _ => false
  end.

(** A well-formed share message, as [JSON.parse] returns it. *)
Definition sample_vault : json :=
  JObj [(lit "name", JStr (lit "myteam"));
        (lit "created", JStr (lit "2025-01-01T00:00:00.000Z"));
        (lit "entries",
         JArr [JObj [(lit "label", JStr (lit "AWS Root"));
                     (lit "issuer", JStr (lit "Amazon"));
                     (lit "secret", JStr (lit "JBSWY3DPEHPK3PXP"))]])].

Definition sample_share : json :=
  JObj [(lit "v", JNum (inject_Z 1)); (lit "type", JStr (lit "vault_share"));
        (lit "vault", sample_vault); (lit "ts", JNum (inject_Z 1700000000000))].

(** A clock that starts at [sample_share]'s time stamp and goes on by a
    millisecond at every reading. *)
Definition sample_clock (k : nat) : Z := 1700000000000 + Z.of_nat k.

(** A share message whose one entry has a label that cannot be converted
    to text: an object with a property [toString] of its own. *)
Definition unprintable_share : json :=
  JObj [(lit "v", JNum (inject_Z 1)); (lit "type", JStr (lit "vault_share"));
        (lit "vault",
         JObj [(lit "name", JStr (lit "myteam"));
               (lit "entries",
                JArr [JObj [(lit "label",
                             JObj [(lit "toString", JNum (inject_Z 1))]);
                            (lit "issuer", JStr (lit "Amazon"));
                            (lit "secret", JStr (lit "JBSWY3DPEHPK3PXP"))]])])].

(** A message with the right type and version and no vault. *)
Definition header_only : json :=
  JObj [(lit "v", JNum (inject_Z 1)); (lit "type", JStr (lit "vault_share"))].

(** The bytes of an ASCII text. *)
Definition ascii_bytes (s : string) : list byte :=
  List.map byte_of_Z (List.map (fun c => Z.of_N c) (lit s)).

(** Opens a session into its fields and unfolds one step from a running
    state. *)
Ltac open_session s :=
  destruct s as [r st j t g e0 e1 tr];
  cbn [received status_of joined timer60 grace exit0 exit1 trace] in *.

Ltac run_step :=
  unfold step;
  cbn [received status_of joined timer60 grace exit0 exit1 trace].

(** ** Reading the rest of the program

    Definitions used to state what the rest of [otp/index.js] does. *)

(** The vaults written by a list of effects, oldest first. *)
Definition saved_of (l : list effect) : list json :=
  flat_map (fun x => match x with SaveVault v => [v] | _ => [] end) l.
Definition saved (w : world) : list json := saved_of (effects w).

Definition is_string (v : value) : bool :=
  match v with Val (JStr _) => true | _ => false end.

(** The vault format of line 171, [{ name, created, entries: [{ label,
    secret, issuer }] }]: the name and the three fields of every entry
    are texts. *)
Definition entry_ok (e : json) : bool :=
  match e with
  | JObj fields =>
      is_string (own fields (lit "label"))
      && is_string (own fields (lit "issuer"))
      && is_string (own fields (lit "secret"))
  | _ => false
  end.

Definition entries_of (vault : json) : option (list json) :=
  match vault with
  | JObj fields =>
      match own fields (lit "entries") with
      | Val (JArr items) => Some items
      | _ => None
      end
  | _ => None
  end.

Definition name_of (vault : json) : option jsstring :=
  match vault with
  | JObj fields =>
      match own fields (lit "name") with
      | Val (JStr n) => Some n
      | _ => None
      end
  | _ => None
  end.

Definition well_formed (vault : json) : bool :=
  match name_of vault, entries_of vault with
  | Some _, Some items => forallb entry_ok items
  | _, _ => false
  end.

(** The vault that [runSetup] makes when there is none. *)
Definition fresh_vault (e : env) (answer : jsstring) : json :=
  JObj [(lit "name", JStr (or_else (trim answer) (lit "MyTeam")));
        (lit "created", JStr (toISOString e));
        (lit "entries", JArr [])].

(** The secret that [runSetup] stores for the line typed. *)
Definition stored_secret (e : env) (answer : jsstring) : jsstring :=
  if is_empty (typed_secret answer) then generateSecret (randomBytes e)
  else typed_secret answer.

(** [items] without its element of index [i]. *)
Definition without (i : nat) (items : list json) : list json :=
  firstn i items ++ skipn (S i) items.

(** What [runSetup] may write in place of [vault]: the same vault with one
    entry more, whose label is not empty, or with one entry less. *)
Inductive edit (vault : json) (items : list json) : json -> Prop :=
  | Added (label issuer secret : jsstring) :
      label <> [] -> issuer <> [] ->
      edit vault items
        (set_entries vault (items ++ [new_entry label issuer secret]))
  | Deleted (i : nat) :
      (i < List.length items)%nat ->
      edit vault items (set_entries vault (without i items)).

(** The vault that a run of [runSetup] works on: the one in the file, or
    a new one named by the first line typed. *)
Definition opened (e : env) (file : option json) (answers : list jsstring)
    (vault : json) : Prop :=
  (file = Some vault /\ ToBoolean (Val vault) = true) \/
  (ToBoolean (loadVault file) = false /\
   exists a rest, answers = a :: rest /\ vault = fresh_vault e a).

(** A check over all code units. *)
Fixpoint all_from (n : nat) (c : N) (p : N -> bool) : bool :=
  match n with
  | O => true
  | S n' => p c && all_from n' (N.succ c) p
  end.
Definition all_units (p : N -> bool) : bool := all_from (Nat.pow 2 16) 0 p.

Definition nlist_eqb (a b : list N) : bool :=
  if list_eq_dec N.eq_dec a b then true else false.

(** A check over the code points of a run and their upper-case forms. *)
Definition run_all (p : N -> N -> bool) (r : Unicode.run) : bool :=
  let '(first, last, step, target) := r in
  forallb (fun k => p (first + step * N.of_nat k)%N
                      (target + step * N.of_nat k)%N)
          (seq 0 (S (N.to_nat ((last - first) / step)))).

(** The number of times the code unit [c] occurs in [s]. *)
Definition count_unit (c : N) (s : jsstring) : nat := count_occ N.eq_dec s c.

(** The bar for one value of [rem]: it is drawn for [rem <= 30], with
    [round (2 rem / 3)] full cells out of 20 and at least one, and is not
    drawn for a larger [rem]. *)
Definition bar_ok (rem : Z) : bool :=
  match countdownBar_of rem with
  | Normal bar =>
      (rem <=? 30)
      && (Z.of_nat (count_unit 9608 bar) =? (2 * rem + 1) / 3)
      && (count_unit 9608 bar + count_unit 9617 bar =? 20)%nat
      && (1 <=? count_unit 9608 bar)%nat
  | Throw => 30 <? rem
  end.

Definition is_ack (a : action) : bool :=
  match a with ConnWrite _ => true | _ => false end.

(** Every acknowledgement in a trace comes straight after a file write. *)
Definition ack_after_write (tr : list action) : Prop :=
  forall pre conn post, tr = pre ++ ConnWrite conn :: post ->
    exists pre' name vault, pre = pre' ++ [WriteFile name vault].

(** A vault has been written and its receipt acknowledged. *)
Definition persisted (tr : list action) : Prop :=
  exists pre name vault conn post,
    tr = pre ++ WriteFile name vault :: ConnWrite conn :: post.

(** What the ['data'] callback does when it accepts a vault. *)
Definition accept_actions (name vault : value) (conn : nat) : list action :=
  [Latch; WriteFile name vault; ConnWrite conn; SetTimeout 500].

(** Rewrites every comparison with a constant to its value. *)
Ltac decide_tests :=
  repeat match goal with
  | |- context [(?a <=? ?b)%N] =>
      first [ rewrite (proj2 (N.leb_le a b)) by lia
            | rewrite (proj2 (N.leb_gt a b)) by lia ]
  | |- context [(?a =? ?b)%N] => rewrite (proj2 (N.eqb_neq a b)) by lia
  end.

(** Opens the steps of a program. *)
Ltac io_unfold :=
  unfold io_bind, lift, ask, emit, read_clock, ret, saveVault in *;
  cbn [stdin ticks effects fst snd] in *.

(** An entry that [printOTPTable] can show: its secret and its label are
    texts. *)
Definition field_is_string (e : json) (key : jsstring) : bool :=
  match get (Val e) key with
  | Normal v => is_string v
  | Throw => false
  end.
Definition displayable (e : json) : bool :=
  field_is_string e (lit "secret") && field_is_string e (lit "label").

Definition is_row (x : effect) : bool :=
  match x with Row _ _ _ => true | _ => false end.

(** The layout of a row: a label of 22 code units and a code written as
    three digits, a space and three digits. *)
Definition row_layout (x : effect) : Prop :=
  match x with
  | Row label code _ =>
      List.length label = 22%nat /\
      exists a b, code = a ++ [32%N] ++ b /\
                  List.length a = 3%nat /\ List.length b = 3%nat /\
                  forallb is_digit (a ++ b) = true
  | _ => True
  end.

(** The row that [printOTPTable] prints for [entry] when the clock reads
    [t] as its code is computed: the label cut or filled with spaces to 22
    code units, the code of the entry's secret at [t], and the bar.  There
    is none when the secret or the label is not a text. *)
Definition row_of (bar : jsstring) (t : Z) (entry : json) : option effect :=
  match get (Val entry) (lit "secret"), get (Val entry) (lit "label") with
  | Normal (Val (JStr s)), Normal (Val (JStr l)) =>
      Some (Row (firstn 22 l ++ repeat 32%N (22 - List.length l))
                (pretty (totp s t)) bar)
  | _, _ => None
  end.

(** The rows of the entries before the first one that has no row.  The
    clock is read once for every row; [k] numbers the reading of the first
    row. *)
Fixpoint rows_of (e : env) (bar : jsstring) (k : nat) (items : list json)
    : list effect :=
  match items with
  | [] => []
  | entry :: items' =>
      match row_of bar (Date_now e k) entry with
      | Some x => x :: rows_of e bar (S k) items'
      | None => []
      end
  end.

(** A vault that [runReceive] accepts and [printOTPTable] cannot show:
    its one entry has a secret and no label. *)
Definition unlabelled_vault : json :=
  JObj [(lit "name", JStr (lit "ops"));
        (lit "entries", JArr [JObj [(lit "secret", JStr (lit "JBSWY3DPEHPK3PXP"))]])].

(** ** The codec read the other way

    The encoder run on the bytes that the decoder has put out.  The
    characters it has not yet written again are in flight: they are the
    encoder's pending bits followed by the decoder's. *)

Definition nenc_run (s : Z * Z) (xs : list Z) : (Z * Z) * list Z :=
  fold_left (fun acc x =>
               let '(s', o) := nenc (fst acc) x in (s', snd acc ++ o))
            xs (s, []).

Definition flight (be pe bd pd : Z) : list Z :=
  let v := pe * 2 ^ bd + pd in
  if be + bd =? 0 then []
  else if be + bd =? 5 then [v]
  else [v / 32; v mod 32].

Definition is_byte (y : Z) : bool := (0 <=? y) && (y <? 256).

Fixpoint same (a b : list Z) : bool :=
  match a, b with
  | [], [] => true
  | x :: a', y :: b' => (x =? y) && same a' b'
  | _, _ => false
  end.

(** One character [idx] through the decoder and the byte it may put out
    through the encoder: the characters written again and those in flight
    are the ones in flight before, and [idx]. *)
Definition rstep_ok (be pe bd pd idx : Z) : bool :=
  let '((bd', pd'), o) := ndec (bd, pd) idx in
  let '((be', pe'), cs) := nenc_run (be, pe) o in
  (0 <=? be') && (be' <? 5) && (0 <=? bd') && (bd' <? 8)
  && ((be' + bd') mod 5 =? 0)
  && (0 <=? pe') && (pe' <? 2 ^ be') && (0 <=? pd') && (pd' <? 2 ^ bd')
  && forallb is_byte o && forallb in_range cs
  && same (cs ++ flight be' pe' bd' pd') (flight be pe bd pd ++ [idx]).

Definition below (n : Z) : list Z := List.map Z.of_nat (seq 0 (Z.to_nat n)).

(** The decoder after the characters [idxs], and the encoder after the
    bytes put out so far. *)
Definition dec_on (idxs : list Z) : dstate :=
  decode_loop (flat_map alphabet_at idxs) (mkD 0 0 []).
Definition enc_on (idxs : list Z) : estate :=
  fold_left encode_step (Buffer_from (d_output (dec_on idxs))) (mkE 0 0 []).

(** A string as the encoder writes it when no padding is needed: characters
    of the alphabet only, a multiple of 8 of them. *)
Definition canonical (s : jsstring) : Prop :=
  forallb is_alpha s = true /\ Z.of_nat (List.length s) mod 8 = 0.

(** A process for the examples: the clock starts 59 s after the epoch and
    advances by a millisecond at every reading. *)
Definition sample_env : env :=
  mkEnv (fun k => 59000 + Z.of_nat k) (repeat x2a 20)
        (lit "2025-01-01T00:00:00.000Z") true.

(** * Proofs *)

(** ** The 32-bit operators on the values the codec feeds them *)

Section Bits.

Lemma toInt32_mod32 (z : Z) : toInt32 z mod 2 ^ 32 = z mod 2 ^ 32.
Proof.
  unfold toInt32. rewrite Zminus_mod_idemp_l. f_equal. lia.
Qed.

Lemma toInt32_small (z : Z) : - 2 ^ 31 <= z < 2 ^ 31 -> toInt32 z = z.
Proof.
  intros H. unfold toInt32. rewrite Z.mod_small; lia.
Qed.

Lemma mod_pow2_mod32 (j a b : Z) :
  0 <= j <= 32 -> a mod 2 ^ 32 = b mod 2 ^ 32 -> a mod 2 ^ j = b mod 2 ^ j.
Proof.
  intros Hj H.
  assert (D : (2 ^ j | 2 ^ 32)).
  { exists (2 ^ (32 - j)). rewrite <- Z.pow_add_r by lia. f_equal. lia. }
  assert (P : 0 < 2 ^ j) by (apply Z.pow_pos_nonneg; lia).
  rewrite <- (Z.mod_mod_divide a (2 ^ 32) (2 ^ j)) by assumption.
  rewrite <- (Z.mod_mod_divide b (2 ^ 32) (2 ^ j)) by assumption.
  now rewrite H.
Qed.

Lemma toInt32_mod (j z : Z) : 0 <= j <= 32 -> toInt32 z mod 2 ^ j = z mod 2 ^ j.
Proof.
  intros Hj. apply mod_pow2_mod32; [assumption | apply toInt32_mod32].
Qed.

(** [x & (2^j - 1)] keeps the low [j] bits. *)
Lemma band_ones (j x : Z) : 0 <= j < 32 -> band x (2 ^ j - 1) = x mod 2 ^ j.
Proof.
  intros Hj. unfold band.
  assert (B : 0 < 2 ^ j <= 2 ^ 31).
  { split; [apply Z.pow_pos_nonneg; lia | apply Z.pow_le_mono_r; lia]. }
  rewrite (toInt32_small (2 ^ j - 1)) by lia.
  change (2 ^ j - 1) with (Z.pred (2 ^ j)). rewrite <- Z.ones_equiv.
  rewrite Z.land_ones by lia. apply toInt32_mod. lia.
Qed.

(** A group of [m] bits cut out of a number [k] bits from its low end. *)
Lemma div_mod_pow2 (x k m : Z) :
  0 <= k -> 0 <= m -> (x / 2 ^ k) mod 2 ^ m = (x mod 2 ^ (k + m)) / 2 ^ k.
Proof.
  intros Hk Hm.
  assert (Pk : 0 < 2 ^ k) by (apply Z.pow_pos_nonneg; lia).
  assert (Pm : 0 < 2 ^ m) by (apply Z.pow_pos_nonneg; lia).
  rewrite Z.pow_add_r by lia.
  rewrite Z.rem_mul_r by lia.
  rewrite (Z.mul_comm (2 ^ k)), Z.div_add by lia.
  rewrite (Z.div_small (x mod 2 ^ k)) by (apply Z.mod_pos_bound; lia).
  reflexivity.
Qed.

(** [(w >>> k) & (2^m - 1)] reads only the low [k + m] bits of [w]. *)
Lemma band_ushr (w k m : Z) :
  0 <= k < 32 -> 0 <= m < 32 -> k + m <= 32 ->
  band (ushr w k) (2 ^ m - 1) = (w mod 2 ^ (k + m)) / 2 ^ k.
Proof.
  intros Hk Hm Hkm. rewrite band_ones by lia. unfold ushr, toUint32.
  rewrite (Z.mod_small k 32) by lia.
  rewrite Z.shiftr_div_pow2 by lia.
  rewrite div_mod_pow2 by lia. f_equal.
  apply mod_pow2_mod32; [lia |]. now rewrite Z.mod_mod by lia.
Qed.

Lemma shl_mod32 (v n : Z) :
  0 <= n < 32 -> shl v n mod 2 ^ 32 = (v * 2 ^ n) mod 2 ^ 32.
Proof.
  intros Hn. unfold shl. rewrite (Z.mod_small n 32) by lia.
  rewrite toInt32_mod32, Z.shiftl_mul_pow2 by lia.
  rewrite <- Zmult_mod_idemp_l, toInt32_mod32, Zmult_mod_idemp_l.
  reflexivity.
Qed.

Lemma lor_low (a b n : Z) :
  0 <= n -> a mod 2 ^ n = 0 -> 0 <= b < 2 ^ n -> Z.lor a b = a + b.
Proof.
  intros Hn Ha Hb.
  assert (L : Z.land a b = 0).
  { apply Z.bits_inj'. intros i Hi. rewrite Z.land_spec, Z.bits_0.
    destruct (Z.lt_ge_cases i n) as [Lt | Ge].
    - rewrite <- (Z.mod_pow2_bits_low a n i) by lia. rewrite Ha, Z.bits_0.
      reflexivity.
    - rewrite <- (Z.mod_small b (2 ^ n)) by lia.
      rewrite Z.mod_pow2_bits_high by lia. apply andb_false_r. }
  pose proof (Z.add_lor_land a b) as E. rewrite L in E. lia.
Qed.

(** [(v << n) | b] for a [b] of at most [n] bits: [v * 2^n + b] up to the
    32-bit wrap. *)
Lemma bor_shl_mod32 (v n b : Z) :
  0 <= n < 32 -> 0 <= b < 2 ^ n ->
  bor (shl v n) b mod 2 ^ 32 = (v * 2 ^ n + b) mod 2 ^ 32.
Proof.
  intros Hn Hb. unfold bor.
  assert (B : 0 < 2 ^ n <= 2 ^ 31).
  { split; [apply Z.pow_pos_nonneg; lia | apply Z.pow_le_mono_r; lia]. }
  rewrite (toInt32_small b) by lia.
  rewrite (lor_low _ _ n); try lia.
  - rewrite <- Zplus_mod_idemp_l, toInt32_mod32, shl_mod32 by lia.
    now rewrite Zplus_mod_idemp_l.
  - rewrite toInt32_mod by lia.
    rewrite (mod_pow2_mod32 n _ (v * 2 ^ n)) by (try lia; now apply shl_mod32).
    apply Z_mod_mult.
Qed.

(** The low [j + n] bits of [(v << n) | b] are the low [j] bits of [v]
    followed by [b]. *)
Lemma bor_shl_low (v n b j : Z) :
  0 <= n < 32 -> 0 <= b < 2 ^ n -> 0 <= j -> j + n <= 32 ->
  bor (shl v n) b mod 2 ^ (j + n) = (v mod 2 ^ j) * 2 ^ n + b.
Proof.
  intros Hn Hb Hj Hjn.
  rewrite (mod_pow2_mod32 (j + n) _ (v * 2 ^ n + b))
    by (try lia; now apply bor_shl_mod32).
  assert (Pn : 0 < 2 ^ n) by (apply Z.pow_pos_nonneg; lia).
  assert (Pj : 0 < 2 ^ j) by (apply Z.pow_pos_nonneg; lia).
  rewrite (Z.add_comm j n), Z.pow_add_r by lia.
  rewrite Z.rem_mul_r by lia.
  rewrite (Z.add_comm (v * 2 ^ n)), Z.mod_add by lia.
  rewrite Z.div_add by lia.
  rewrite (Z.mod_small b), (Z.div_small b), Z.add_0_l by lia.
  rewrite (Z.mul_comm (2 ^ n)). apply Z.add_comm.
Qed.

End Bits.

(** ** The Base32 codec: round trip and leniency *)

Section Codec.

Lemma indexOf_from_range (s : jsstring) (ch : N) (i : Z) :
  indexOf_from s ch i = -1 \/
  i <= indexOf_from s ch i < i + Z.of_nat (List.length s).
Proof.
  revert i. induction s as [| c s IH]; intros i; simpl; [now left |].
  destruct (N.eqb c ch); [right; lia |].
  destruct (IH (i + 1)) as [E | R]; [now left | right; lia].
Qed.

Lemma indexOf_alphabet (ch : N) :
  indexOf ALPHABET ch = -1 \/ 0 <= indexOf ALPHABET ch < 32.
Proof.
  destruct (indexOf_from_range ALPHABET ch 0) as [E | R]; [now left |].
  right. exact R.
Qed.

(** [ALPHABET[i]] is one character, and [indexOf] finds it back at [i]. *)
Lemma alphabet_at_index (i : Z) :
  in_range i = true ->
  exists c, alphabet_at i = [c] /\ indexOf ALPHABET c = i /\ c <> 61%N.
Proof.
  intros H.
  assert (A : forallb (fun k =>
                match alphabet_at (Z.of_nat k) with
                | [c] => (indexOf ALPHABET c =? Z.of_nat k) && negb (N.eqb c 61)
                | _ => false
                end) (seq 0 32) = true) by (vm_compute; reflexivity).
  rewrite forallb_forall in A.
  unfold in_range in H. apply andb_prop in H as [H0 H1].
  apply Z.leb_le in H0. apply Z.ltb_lt in H1.
  specialize (A (Z.to_nat i)). rewrite Z2Nat.id in A by lia.
  assert (I : In (Z.to_nat i) (seq 0 32)) by (apply in_seq; lia).
  specialize (A I).
  destruct (alphabet_at i) as [| c [| ? ?]]; try discriminate.
  apply andb_prop in A as [A1 A2].
  exists c. repeat split.
  - now apply Z.eqb_eq.
  - intros ->. discriminate.
Qed.

Lemma decode_step_skip (st : dstate) (ch : N) :
  is_alpha ch = false -> decode_step st ch = st.
Proof.
  unfold is_alpha, decode_step. intros H.
  destruct (indexOf ALPHABET ch =? -1); [reflexivity | discriminate].
Qed.

(** Characters outside the alphabet leave the decoder where it is. *)
Lemma decode_loop_filter (s : jsstring) (st : dstate) :
  decode_loop s st = decode_loop (filter is_alpha s) st.
Proof.
  unfold decode_loop. revert st.
  induction s as [| c s IH]; intros st; simpl; [reflexivity |].
  destruct (is_alpha c) eqn:A; simpl.
  - apply IH.
  - rewrite decode_step_skip by assumption. apply IH.
Qed.

Lemma pow2_pos (k : Z) : 0 <= k -> 0 < 2 ^ k.
Proof. intros. apply Z.pow_pos_nonneg; lia. Qed.

(** One decoder turn on a character of the alphabet. *)
Lemma decode_step_view (st : dstate) (ch : N) :
  is_alpha ch = true -> 0 <= d_bits st < 8 ->
  dview (decode_step st ch) = fst (ndec (dview st) (indexOf ALPHABET ch)) /\
  d_output (decode_step st ch) =
    d_output st ++ snd (ndec (dview st) (indexOf ALPHABET ch)).
Proof.
  intros A B. unfold is_alpha in A. unfold decode_step, dview, ndec.
  destruct (indexOf_alphabet ch) as [E | R]; [rewrite E in A; discriminate |].
  set (idx := indexOf ALPHABET ch) in *.
  destruct (idx =? -1) eqn:E1; [apply Z.eqb_eq in E1; lia |].
  pose proof (bor_shl_low (d_value st) 5 idx (d_bits st)) as L.
  change (2 ^ 5) with 32 in L. specialize (L ltac:(lia) ltac:(lia) ltac:(lia) ltac:(lia)).
  destruct (d_bits st + 5 >=? 8) eqn:G; simpl.
  - assert (G' : 8 <= d_bits st + 5) by (apply Z.geb_le in G; lia).
    replace (d_bits st + 5 - 8) with (d_bits st - 3) by lia.
    split.
    + f_equal. rewrite <- L.
      symmetry. apply Z.mod_mod_divide.
      exists (2 ^ 8). rewrite <- Z.pow_add_r by lia. f_equal. lia.
    + f_equal. f_equal. change 255 with (2 ^ 8 - 1).
      rewrite band_ushr by lia.
      replace (d_bits st - 3 + 8) with (d_bits st + 5) by lia.
      now rewrite L.
  - split; [| now rewrite app_nil_r].
    f_equal. exact L.
Qed.

Lemma ndec_bits (s : Z * Z) (idx : Z) :
  0 <= fst s < 8 -> 0 <= fst (fst (ndec s idx)) < 8.
Proof.
  destruct s as [b p]. unfold ndec. simpl.
  destruct (b + 5 >=? 8) eqn:G; simpl; intros H.
  - apply Z.geb_le in G. lia.
  - rewrite Z.geb_leb in G. apply Z.leb_gt in G. lia.
Qed.

Lemma ndec_run_snoc (s : Z * Z) (idxs : list Z) (idx : Z) :
  ndec_run s (idxs ++ [idx]) =
    (fst (ndec (fst (ndec_run s idxs)) idx),
     snd (ndec_run s idxs) ++ snd (ndec (fst (ndec_run s idxs)) idx)).
Proof.
  unfold ndec_run. rewrite fold_left_app. simpl.
  destruct (ndec _ idx). reflexivity.
Qed.

Lemma ndec_run_bits (s : Z * Z) (idxs : list Z) :
  0 <= fst s < 8 -> 0 <= fst (fst (ndec_run s idxs)) < 8.
Proof.
  intros H. induction idxs as [| idx idxs IH] using rev_ind; [exact H |].
  rewrite ndec_run_snoc. simpl. now apply ndec_bits.
Qed.

(** The decoder loop on a run of alphabet characters. *)
Lemma decode_loop_view (idxs : list Z) (st : dstate) :
  forallb in_range idxs = true -> 0 <= d_bits st < 8 ->
  let st' := decode_loop (flat_map alphabet_at idxs) st in
  dview st' = fst (ndec_run (dview st) idxs) /\
  d_output st' = d_output st ++ snd (ndec_run (dview st) idxs).
Proof.
  intros F B. induction idxs as [| idx idxs IH] using rev_ind.
  - simpl. split; [reflexivity | now rewrite app_nil_r].
  - rewrite forallb_app in F. apply andb_prop in F as [F1 F2].
    simpl in F2. rewrite andb_true_r in F2.
    specialize (IH F1). simpl in IH. destruct IH as [IH1 IH2].
    destruct (alphabet_at_index idx F2) as (c & Ec & Ei & _).
    simpl. rewrite flat_map_app. simpl. rewrite Ec, app_nil_r.
    unfold decode_loop in *. rewrite fold_left_app. simpl.
    set (mid := fold_left decode_step (flat_map alphabet_at idxs) st) in *.
    assert (Bm : 0 <= d_bits mid < 8).
    { pose proof (ndec_run_bits (dview st) idxs B) as Q.
      rewrite <- IH1 in Q. exact Q. }
    assert (Ac : is_alpha c = true).
    { unfold is_alpha. rewrite Ei. unfold in_range in F2.
      apply andb_prop in F2 as [F2 _]. apply Z.leb_le in F2.
      destruct (idx =? -1) eqn:E; [apply Z.eqb_eq in E; lia | reflexivity]. }
    destruct (decode_step_view mid c Ac Bm) as [V O].
    rewrite Ei in V, O. rewrite ndec_run_snoc. simpl.
    rewrite <- IH1. split; [exact V |].
    rewrite O, IH2, <- app_assoc. reflexivity.
Qed.

Lemma low_bits (v p n j : Z) :
  v mod 2 ^ n = p -> 0 <= j <= n -> v mod 2 ^ j = p mod 2 ^ j.
Proof.
  intros E H. rewrite <- E. symmetry. apply Z.mod_mod_divide.
  exists (2 ^ (n - j)). rewrite <- Z.pow_add_r by lia. f_equal. lia.
Qed.

Lemma Z_of_byte_range (b : byte) : 0 <= Z_of_byte b < 256.
Proof.
  unfold Z_of_byte. pose proof (Byte.to_N_bounded b). lia.
Qed.

(** The alphabet index read [k] bits above the low end of [v], when the
    low [n] bits of [v] are [p]. *)
Lemma idx_mid (v p n k : Z) :
  v mod 2 ^ n = p -> 0 <= k -> k + 5 <= n <= 32 ->
  band (ushr v k) 31 = (p mod 2 ^ (k + 5)) / 2 ^ k.
Proof.
  intros E Hk Hn. change 31 with (2 ^ 5 - 1). rewrite band_ushr by lia.
  now rewrite (low_bits v p n (k + 5) E) by lia.
Qed.

Lemma idx_top (v p n k : Z) :
  v mod 2 ^ n = p -> 0 <= k -> k + 5 = n -> n <= 32 ->
  band (ushr v k) 31 = p / 2 ^ k.
Proof.
  intros E Hk Hn Hn'. rewrite (idx_mid v p n k E) by lia.
  rewrite Hn, <- E, Z.mod_mod; [reflexivity |].
  apply Z.pow_nonzero; lia.
Qed.

(** One encoder turn: one or two characters, by the bits that were pending. *)
Lemma encode_step_view (st : estate) (b : byte) :
  0 <= e_bits st < 5 ->
  eview (encode_step st b) = fst (nenc (eview st) (Z_of_byte b)) /\
  e_result (encode_step st b) =
    e_result st ++ flat_map alphabet_at (snd (nenc (eview st) (Z_of_byte b))).
Proof.
  intros B. pose proof (Z_of_byte_range b) as X.
  destruct st as [bits v r]. unfold encode_step, eview, nenc. simpl in *.
  pose proof (bor_shl_low v 8 (Z_of_byte b) bits) as L.
  change (2 ^ 8) with 256 in L.
  specialize (L ltac:(lia) ltac:(lia) ltac:(lia) ltac:(lia)).
  remember (bor (shl v 8) (Z_of_byte b)) as v' eqn:Ev. clear Ev.
  remember (v mod 2 ^ bits * 256 + Z_of_byte b) as p' eqn:Ep. clear Ep.
  assert (C : bits = 0 \/ bits = 1 \/ bits = 2 \/ bits = 3 \/ bits = 4) by lia.
  destruct C as [-> | [-> | [-> | [-> | ->]]]]; simpl;
    rewrite ?app_nil_r, <- ?app_assoc.
  - split; [f_equal; apply (low_bits v' p' 8 3 L); lia |].
    rewrite (idx_top v' p' 8 3 L) by lia. reflexivity.
  - split; [f_equal; apply (low_bits v' p' 9 4 L); lia |].
    rewrite (idx_top v' p' 9 4 L) by lia. reflexivity.
  - split; [f_equal; apply (low_bits v' p' 10 0 L); lia |].
    rewrite (idx_top v' p' 10 5 L), (idx_mid v' p' 10 0 L) by lia.
    reflexivity.
  - split; [f_equal; apply (low_bits v' p' 11 1 L); lia |].
    rewrite (idx_top v' p' 11 6 L), (idx_mid v' p' 11 1 L) by lia.
    reflexivity.
  - split; [f_equal; apply (low_bits v' p' 12 2 L); lia |].
    rewrite (idx_top v' p' 12 7 L), (idx_mid v' p' 12 2 L) by lia.
    reflexivity.
Qed.

(** The inner loop of the encoder leaves fewer than five bits pending:
    its fuel is never the reason it stops. *)
Lemma encode_while_exit (st : estate) (b : byte) :
  0 <= e_bits st < 5 -> 0 <= e_bits (encode_step st b) < 5.
Proof.
  intros H. destruct (encode_step_view st b H) as [V _].
  unfold eview, nenc in V.
  destruct (Z.ltb_spec (e_bits st) 2); injection V as -> _; lia.
Qed.

Lemma byte_values_In (x : Z) : 0 <= x < 256 -> In x byte_values.
Proof.
  intros H. unfold byte_values. apply in_map_iff.
  exists (Z.to_nat x). split; [lia | apply in_seq; lia].
Qed.

Lemma zlist_eqb_eq (a b : list Z) : zlist_eqb a b = true -> a = b.
Proof.
  unfold zlist_eqb. destruct (list_eq_dec Z.eq_dec a b); [trivial | discriminate].
Qed.

(** Every state the two loops can be in together, and every next byte. *)
Lemma step_ok_all (be y x : Z) :
  0 <= be < 5 -> 0 <= y < 256 -> (be = 0 -> y = 0) -> 0 <= x < 256 ->
  step_ok be y x = true.
Proof.
  intros Hbe Hy H0 Hx.
  assert (A : forallb (fun be =>
                forallb (fun y => forallb (step_ok be y) byte_values)
                        (if be =? 0 then [0] else byte_values))
                [0; 1; 2; 3; 4] = true) by (vm_compute; reflexivity).
  rewrite forallb_forall in A.
  assert (I : In be [0; 1; 2; 3; 4]) by (simpl; lia).
  specialize (A be I). rewrite forallb_forall in A.
  assert (J : In y (if be =? 0 then [0] else byte_values)).
  { destruct (be =? 0) eqn:E.
    - apply Z.eqb_eq in E. left. symmetry. auto.
    - now apply byte_values_In. }
  specialize (A y J). rewrite forallb_forall in A.
  apply A. now apply byte_values_In.
Qed.

Lemma final_ok_all (be y : Z) :
  0 < be < 5 -> 0 <= y < 256 -> final_ok be y = true.
Proof.
  intros Hbe Hy.
  assert (A : forallb (fun be => forallb (final_ok be) byte_values)
                [1; 2; 3; 4] = true) by (vm_compute; reflexivity).
  rewrite forallb_forall in A.
  assert (I : In be [1; 2; 3; 4]) by (simpl; lia).
  specialize (A be I). rewrite forallb_forall in A.
  apply A. now apply byte_values_In.
Qed.

(** The two loops stay coupled: the decoder has put out every byte but,
    when encoder bits are pending, the last one, of which it holds the
    high part. *)
Lemma codec_coupled (raw : list byte) :
  exists be y idxs,
    0 <= be < 5 /\ 0 <= y < 256 /\ (be = 0 -> y = 0) /\
    eview (enc_after raw) = (be, y mod 2 ^ be) /\
    dview (dec_after raw) = (dec_bits_for be, y / 2 ^ be) /\
    d_output (dec_after raw) ++ pending be y = List.map Z_of_byte raw /\
    forallb in_range idxs = true /\
    e_result (enc_after raw) = flat_map alphabet_at idxs /\
    5 * Z.of_nat (List.length idxs) + be = 8 * Z.of_nat (List.length raw).
Proof.
  induction raw as [| x raw IH] using rev_ind.
  - exists 0, 0, []. cbn. repeat split; lia.
  - destruct IH
      as (be & y & idxs & Hbe & Hy & H0 & EV & DV & OUT & FI & RES & CNT).
    pose proof (Z_of_byte_range x) as Hx.
    pose proof (step_ok_all be y (Z_of_byte x) Hbe Hy H0 Hx) as OK.
    unfold step_ok in OK.
    assert (EB : 0 <= e_bits (enc_after raw) < 5).
    { unfold eview in EV. injection EV as -> _. exact Hbe. }
    destruct (encode_step_view (enc_after raw) x EB) as [EV' RES'].
    rewrite EV in EV', RES'.
    destruct (nenc (be, y mod 2 ^ be) (Z_of_byte x)) as [[be' pe'] new] eqn:NE.
    simpl in EV', RES'.
    destruct (ndec_run (dec_bits_for be, y / 2 ^ be) new)
      as [[bd' pd'] out] eqn:ND.
    repeat (apply andb_prop in OK as [OK ?]).
    assert (DB : 0 <= d_bits (dec_after raw) < 8).
    { unfold dview in DV. injection DV as -> _. unfold dec_bits_for.
      destruct (Z.eqb_spec be 0); lia. }
    assert (EA : enc_after (raw ++ [x]) = encode_step (enc_after raw) x).
    { unfold enc_after. now rewrite fold_left_app. }
    assert (DA : dec_after (raw ++ [x]) =
                 decode_loop (flat_map alphabet_at new) (dec_after raw)).
    { unfold dec_after, decode_loop. rewrite EA, RES', fold_left_app.
      reflexivity. }
    destruct (decode_loop_view new (dec_after raw) OK DB) as [DV' OUT'].
    rewrite DV, ND in DV', OUT'. simpl in DV', OUT'.
    exists be', (if be' =? 0 then 0 else Z_of_byte x), (idxs ++ new).
    rewrite EA, DA.
    repeat match goal with
           | H : (_ =? _) = true |- _ => apply Z.eqb_eq in H
           | H : (_ <=? _) = true |- _ => apply Z.leb_le in H
           | H : (_ <? _) = true |- _ => apply Z.ltb_lt in H
           | H : zlist_eqb _ _ = true |- _ => apply zlist_eqb_eq in H
           end.
    repeat split; try lia.
    + destruct (Z.eqb_spec be' 0); lia.
    + destruct (Z.eqb_spec be' 0); lia.
    + intros ->. reflexivity.
    + rewrite EV'. f_equal. assumption.
    + rewrite DV'. f_equal; assumption.
    + rewrite OUT', <- app_assoc, map_app. simpl.
      rewrite <- OUT, <- app_assoc. f_equal. assumption.
    + rewrite forallb_app, FI, OK. reflexivity.
    + rewrite RES', RES, flat_map_app. reflexivity.
    + rewrite !length_app. cbn [List.length]. lia.
Qed.

Lemma indexOf_from_In (s : jsstring) (ch : N) (i : Z) :
  indexOf_from s ch i <> -1 -> In ch s.
Proof.
  revert i. induction s as [| c s IH]; intros i; simpl; [congruence |].
  destruct (N.eqb_spec c ch); [now left | right; eauto].
Qed.

Lemma is_alpha_In (c : N) : is_alpha c = true -> In c ALPHABET.
Proof.
  unfold is_alpha, indexOf. intros H.
  apply (indexOf_from_In ALPHABET c 0).
  destruct (Z.eqb_spec (indexOf_from ALPHABET c 0) (-1)); [discriminate | assumption].
Qed.

(** A character of the alphabet is its own upper case, is not white space
    and is not the padding character. *)
Lemma is_alpha_plain (c : N) :
  is_alpha c = true ->
  upper_unit c = [c] /\ is_space c = false /\ N.eqb c 61 = false.
Proof.
  intros H. apply is_alpha_In in H.
  assert (A : forallb (fun c =>
                match upper_unit c with
                | [d] => N.eqb d c && negb (is_space c) && negb (N.eqb c 61)
                | _ => false
                end) ALPHABET = true) by (vm_compute; reflexivity).
  rewrite forallb_forall in A. specialize (A c H).
  destruct (upper_unit c) as [| d [| ? ?]]; try discriminate.
  apply andb_prop in A as [A A3]. apply andb_prop in A as [A1 A2].
  apply N.eqb_eq in A1. subst d.
  repeat split; now apply negb_true_iff.
Qed.

Lemma alphabet_run_alpha (idxs : list Z) :
  forallb in_range idxs = true ->
  forallb is_alpha (flat_map alphabet_at idxs) = true.
Proof.
  induction idxs as [| i idxs IH]; simpl; [reflexivity |].
  intros H. apply andb_prop in H as [H1 H2].
  destruct (alphabet_at_index i H1) as (c & Ec & Ei & _).
  rewrite Ec. simpl. rewrite IH by assumption.
  unfold is_alpha. rewrite Ei. unfold in_range in H1.
  apply andb_prop in H1 as [H1 _]. apply Z.leb_le in H1.
  destruct (Z.eqb_spec i (-1)); [lia | reflexivity].
Qed.

Lemma filter_alpha_run (s : jsstring) :
  forallb is_alpha s = true -> filter is_alpha s = s.
Proof.
  induction s as [| c s IH]; simpl; [reflexivity |].
  intros H. apply andb_prop in H as [H1 H2]. rewrite H1. f_equal. auto.
Qed.

Lemma filter_alpha_padding (k : nat) : filter is_alpha (repeat 61%N k) = [].
Proof. induction k; simpl; [reflexivity | assumption]. Qed.

Lemma toUpperCase_app (s t : jsstring) :
  toUpperCase (s ++ t) = toUpperCase s ++ toUpperCase t.
Proof. apply flat_map_app. Qed.

Lemma toUpperCase_alpha_run (s : jsstring) :
  forallb is_alpha s = true -> toUpperCase s = s.
Proof.
  induction s as [| c s IH]; simpl; [reflexivity |].
  intros H. apply andb_prop in H as [H1 H2].
  destruct (is_alpha_plain c H1) as (U & _ & _).
  rewrite U. simpl. f_equal. auto.
Qed.

Lemma toUpperCase_padding (k : nat) :
  toUpperCase (repeat 61%N k) = repeat 61%N k.
Proof. induction k; simpl; [reflexivity | now f_equal]. Qed.

Lemma drop_eq_split (s : jsstring) :
  exists k, s = repeat 61%N k ++ drop_eq s.
Proof.
  induction s as [| c s IH]; simpl; [now exists O |].
  destruct (N.eqb_spec c 61) as [-> | _].
  - destruct IH as [k E]. exists (S k). simpl. now f_equal.
  - now exists O.
Qed.

Lemma rev_padding (k : nat) : rev (repeat 61%N k) = repeat 61%N k.
Proof.
  induction k; simpl; [reflexivity |].
  rewrite IHk. symmetry. apply repeat_cons.
Qed.

(** [replace(/=+$/, '')] cuts a run of '=' off the end and nothing else. *)
Lemma strip_trailing_eq_split (s : jsstring) :
  exists k, s = strip_trailing_eq s ++ repeat 61%N k.
Proof.
  unfold strip_trailing_eq. destruct (drop_eq_split (rev s)) as [k E].
  exists k. rewrite <- (rev_involutive s) at 1. rewrite E at 1.
  now rewrite rev_app_distr, rev_padding.
Qed.

Lemma filter_alpha_spaces (s : jsstring) :
  filter is_alpha (remove_spaces s) = filter is_alpha s.
Proof.
  unfold remove_spaces. induction s as [| c s IH]; simpl; [reflexivity |].
  destruct (is_alpha c) eqn:A.
  - destruct (is_alpha_plain c A) as (_ & S & _). rewrite S. simpl.
    rewrite A. now f_equal.
  - destruct (is_space c); simpl; [| rewrite A]; exact IH.
Qed.

(** What [base32Decode] computes: the decoder loop on the alphabet
    characters of the upper-cased input, everything else being skipped. *)
Lemma base32Decode_alpha (str : jsstring) :
  base32Decode str =
    Buffer_from
      (d_output (decode_loop (filter is_alpha (toUpperCase str)) (mkD 0 0 []))).
Proof.
  unfold base32Decode. rewrite decode_loop_filter, filter_alpha_spaces.
  destruct (strip_trailing_eq_split (toUpperCase str)) as [k E].
  rewrite E at 2. rewrite filter_app, filter_alpha_padding, app_nil_r.
  reflexivity.
Qed.

Lemma final_idx (v be : Z) :
  0 < be < 5 -> band (shl v (5 - be)) 31 = (v mod 2 ^ be) * 2 ^ (5 - be).
Proof.
  intros H. change 31 with (2 ^ 5 - 1). rewrite band_ones by lia.
  rewrite (mod_pow2_mod32 5 _ (v * 2 ^ (5 - be)))
    by (try lia; apply shl_mod32; lia).
  replace (2 ^ 5) with (2 ^ be * 2 ^ (5 - be))
    by (rewrite <- Z.pow_add_r by lia; f_equal; lia).
  apply Z.mul_mod_distr_r; apply Z.pow_nonzero; lia.
Qed.

Lemma pad_while_split (n : nat) (r : jsstring) :
  exists k, (k <= n)%nat /\ pad_while n r = r ++ repeat 61%N k /\
    (forall j, (j < k)%nat -> Z.of_nat (List.length r + j) mod 8 <> 0) /\
    (Z.of_nat (List.length r + k) mod 8 = 0 \/ k = n).
Proof.
  revert r. induction n as [| n IH]; intros r; simpl.
  - exists O. rewrite app_nil_r. repeat split; lia.
  - destruct (Z.eqb_spec (Z.of_nat (List.length r) mod 8) 0) as [E | NE].
    + exists O. rewrite app_nil_r, Nat.add_0_r. repeat split; lia.
    + destruct (IH (r ++ [61%N])) as (k & Hk & P & Q & R).
      exists (S k). rewrite length_app in Q, R. simpl in Q, R.
      repeat split.
      * lia.
      * rewrite P, <- app_assoc. reflexivity.
      * intros j Hj. destruct j as [| j]; [now rewrite Nat.add_0_r |].
        specialize (Q j ltac:(lia)).
        now replace (List.length r + S j)%nat
          with (List.length r + 1 + j)%nat by lia.
      * destruct R as [R | ->]; [left | now right].
        now replace (List.length r + S k)%nat
          with (List.length r + 1 + k)%nat by lia.
Qed.

(** The padding loop stops within its eight turns, on a multiple of 8. *)
Lemma pad_while_8 (r : jsstring) :
  exists k, pad_while 8 r = r ++ repeat 61%N k /\
            Z.of_nat (List.length r + k) mod 8 = 0 /\ (k < 8)%nat.
Proof.
  destruct (pad_while_split 8 r) as (k & Hk & P & Q & R).
  exists k. split; [exact P |].
  assert (K : (k < 8)%nat); [| split; [destruct R as [R | ->]; [exact R | lia] | exact K]].
  destruct (Nat.eq_dec k 8) as [-> | N]; [| lia].
  exfalso.
  pose proof (Z.mod_pos_bound (- Z.of_nat (List.length r)) 8 ltac:(lia)) as B.
  apply (Q (Z.to_nat ((- Z.of_nat (List.length r)) mod 8))); [lia |].
  rewrite Nat2Z.inj_add, Z2Nat.id by lia.
  rewrite Zplus_mod_idemp_r, Z.add_opp_diag_r. reflexivity.
Qed.

Lemma byte_of_Z_of_byte (b : byte) : byte_of_Z (Z_of_byte b) = b.
Proof.
  unfold byte_of_Z, Z_of_byte.
  pose proof (Byte.to_N_bounded b).
  rewrite Z.mod_small by lia. rewrite N2Z.id, Byte.of_to_N. reflexivity.
Qed.

Lemma Buffer_from_bytes (l : list byte) :
  Buffer_from (List.map Z_of_byte l) = l.
Proof.
  unfold Buffer_from. rewrite map_map.
  rewrite (map_ext _ (fun b => b)) by apply byte_of_Z_of_byte.
  apply map_id.
Qed.

Lemma ndec_run_single (s : Z * Z) (idx : Z) :
  ndec_run s [idx] = (fst (ndec s idx), snd (ndec s idx)).
Proof.
  unfold ndec_run. simpl. destruct (ndec s idx). reflexivity.
Qed.

(** The characters [base32Encode] returns before padding, as alphabet
    indices, and what the decoder makes of them. *)
Lemma encode_decode_core (raw : list byte) :
  exists idxs k,
    forallb in_range idxs = true /\
    base32Encode raw = flat_map alphabet_at idxs ++ repeat 61%N k /\
    Z.of_nat (List.length (base32Encode raw)) mod 8 = 0 /\
    (k < 8)%nat /\
    8 * Z.of_nat (List.length raw) <= 5 * Z.of_nat (List.length idxs)
      < 8 * Z.of_nat (List.length raw) + 5 /\
    d_output (decode_loop (flat_map alphabet_at idxs) (mkD 0 0 []))
      = List.map Z_of_byte raw.
Proof.
  destruct (codec_coupled raw)
    as (be & y & idxs & Hbe & Hy & H0 & EV & DV & OUT & FI & RES & CNT).
  unfold base32Encode. fold (enc_after raw).
  assert (EB : e_bits (enc_after raw) = be)
    by (unfold eview in EV; now injection EV).
  assert (EP : e_value (enc_after raw) mod 2 ^ be = y mod 2 ^ be)
    by (unfold eview in EV; rewrite EB in EV; now injection EV).
  rewrite EB.
  destruct (be >? 0) eqn:G.
  - assert (Hb : 0 < be < 5) by (apply Z.gtb_lt in G; lia).
    rewrite final_idx, EP by assumption.
    pose proof (final_ok_all be y Hb Hy) as F. unfold final_ok in F.
    apply andb_prop in F as [F1 F2]. apply zlist_eqb_eq in F2.
    set (idx := y mod 2 ^ be * 2 ^ (5 - be)) in *.
    destruct (pad_while_8 (e_result (enc_after raw) ++ alphabet_at idx))
      as (k & P & L & K).
    exists (idxs ++ [idx]), k.
    assert (FI' : forallb in_range (idxs ++ [idx]) = true)
      by (rewrite forallb_app, FI; simpl; now rewrite F1).
    repeat split.
    + exact FI'.
    + rewrite P, RES, flat_map_app. simpl. now rewrite app_nil_r.
    + rewrite P, length_app, repeat_length. exact L.
    + exact K.
    + rewrite length_app. cbn [List.length]. lia.
    + rewrite length_app. cbn [List.length]. lia.
    + rewrite flat_map_app. unfold decode_loop. rewrite fold_left_app.
      rewrite <- RES. fold (decode_loop (e_result (enc_after raw)) (mkD 0 0 [])).
      fold (dec_after raw).
      assert (DB : 0 <= d_bits (dec_after raw) < 8).
      { unfold dview in DV. injection DV as -> _. unfold dec_bits_for.
        destruct (Z.eqb_spec be 0); lia. }
      assert (F1' : forallb in_range [idx] = true) by (simpl; now rewrite F1).
      destruct (decode_loop_view [idx] (dec_after raw) F1' DB) as [_ O].
      unfold decode_loop in O. rewrite O, DV, ndec_run_single.
      cbn [snd]. rewrite F2, <- OUT. unfold pending.
      destruct (Z.eqb_spec be 0); [lia | reflexivity].
  - assert (Hb : be = 0) by (rewrite Z.gtb_ltb in G; apply Z.ltb_ge in G; lia).
    destruct (pad_while_8 (e_result (enc_after raw))) as (k & P & L & K).
    exists idxs, k. repeat split.
    + exact FI.
    + now rewrite P, RES.
    + rewrite P, length_app, repeat_length. exact L.
    + exact K.
    + lia.
    + lia.
    + rewrite <- RES. fold (dec_after raw). rewrite <- OUT.
      unfold pending. rewrite Hb. simpl. now rewrite app_nil_r.
Qed.

Lemma alphabet_run_length (idxs : list Z) :
  forallb in_range idxs = true ->
  List.length (flat_map alphabet_at idxs) = List.length idxs.
Proof.
  induction idxs as [| i idxs IH]; simpl; [reflexivity |].
  intros H. apply andb_prop in H as [H1 H2].
  destruct (alphabet_at_index i H1) as (c & Ec & _).
  rewrite Ec. simpl. f_equal. auto.
Qed.

(** The decoder undoes the encoder: upper-casing leaves the encoded text
    as it is, the padding is cut, and the loop gives the bytes back. *)
Lemma decode_encode (b : list byte) : base32Decode (base32Encode b) = b.
Proof.
  destruct (encode_decode_core b) as (idxs & k & FI & E & _ & _ & _ & D).
  rewrite base32Decode_alpha, E.
  pose proof (alphabet_run_alpha idxs FI) as A.
  rewrite toUpperCase_app, toUpperCase_padding, toUpperCase_alpha_run by exact A.
  rewrite filter_app, filter_alpha_padding, app_nil_r, filter_alpha_run by exact A.
  rewrite D. apply Buffer_from_bytes.
Qed.

(** C3 -- round trip: for every byte sequence [b], decoding the Base32
    encoding of [b] (5-bit groups through the RFC 4648 alphabet, padded
    with '=' to a multiple of 8 characters) returns exactly [b]. *)
Theorem base32_roundtrip (b : list byte) : base32Decode (base32Encode b) = b.
Proof. exact (decode_encode b). Qed.

(** C9 -- [generateSecret]: for every 20-byte input, the string returned
    uses only the RFC 4648 alphabet followed by '=' padding, its length is a
    multiple of 8, and [base32Decode] gives the 20 bytes back.  (For 20
    bytes the string has 32 characters and no padding is needed.) *)
Theorem generateSecret_ok (raw : list byte) :
  List.length raw = 20%nat ->
  (exists body k,
      generateSecret raw = body ++ repeat 61%N k /\
      Forall (fun c => In c ALPHABET) body) /\
  Z.of_nat (List.length (generateSecret raw)) mod 8 = 0 /\
  List.length (generateSecret raw) = 32%nat /\
  Forall (fun c => In c ALPHABET) (generateSecret raw) /\
  base32Decode (generateSecret raw) = raw.
Proof.
  intros L. unfold generateSecret.
  destruct (encode_decode_core raw) as (idxs & k & FI & E & M & K & C & _).
  pose proof (alphabet_run_alpha idxs FI) as A.
  pose proof (alphabet_run_length idxs FI) as N.
  assert (AF : Forall (fun c => In c ALPHABET) (flat_map alphabet_at idxs)).
  { apply Forall_forall. intros c Hc. apply is_alpha_In.
    rewrite forallb_forall in A. now apply A. }
  assert (NI : List.length idxs = 32%nat) by (rewrite L in C; lia).
  assert (K0 : k = 0%nat).
  { rewrite E, length_app, repeat_length, N, NI in M.
    rewrite Nat2Z.inj_add in M. change (Z.of_nat 32) with (4 * 8) in M.
    rewrite Z.add_comm, Z.mod_add in M by lia.
    rewrite Z.mod_small in M by lia. lia. }
  subst k. simpl in E. rewrite app_nil_r in E.
  repeat split.
  - exists (flat_map alphabet_at idxs), 0%nat. simpl.
    rewrite app_nil_r. split; assumption.
  - exact M.
  - now rewrite E, N.
  - now rewrite E.
  - apply decode_encode.
Qed.

Lemma generateSecret_ok_witness :
  List.length (repeat x2a 20) = 20%nat /\
  List.length (generateSecret (repeat x2a 20)) = 32%nat /\
  base32Decode (generateSecret (repeat x2a 20)) = repeat x2a 20.
Proof.
  split; [reflexivity |].
  destruct (generateSecret_ok (repeat x2a 20) eq_refl) as (_ & _ & L & _ & D).
  split; assumption.
Defined.

End Codec.

(** ** The code engine against section 4.3 *)

Section Engine.

Lemma counter_of_div (t : Z) : counter_of t = t / 30000.
Proof.
  unfold counter_of, Qfloor, Qdiv, Qmult, Qinv, inject_Z. simpl.
  now rewrite !Z.mul_1_r.
Qed.

Lemma is_space_In (c : N) : is_space c = true -> In c spaces.
Proof.
  unfold is_space, spaces. intros H.
  repeat match goal with
         | H : (_ || _) = true |- _ => apply orb_prop in H as [H | H]
         | H : (_ && _) = true |- _ => apply andb_prop in H as [? ?]
         | H : (_ <=? _)%N = true |- _ => apply N.leb_le in H
         | H : (_ =? _)%N = true |- _ => apply N.eqb_eq in H
         end; simpl; lia.
Qed.

(** White space is invisible to the decoder, before and after upper-casing. *)
Lemma space_skipped (c : N) :
  is_space c = true -> upper_unit c = [c] /\ is_alpha c = false.
Proof.
  intros H. apply is_space_In in H.
  assert (A : forallb (fun c =>
                match upper_unit c with
                | [d] => N.eqb d c && negb (is_alpha c)
                | _ => false
                end) spaces = true) by (vm_compute; reflexivity).
  rewrite forallb_forall in A. specialize (A c H).
  destruct (upper_unit c) as [| d [| ? ?]]; try discriminate.
  apply andb_prop in A as [A1 A2]. apply N.eqb_eq in A1. subst d.
  split; [reflexivity | now apply negb_true_iff].
Qed.

Lemma filter_alpha_upper_spaces (s : jsstring) :
  filter is_alpha (toUpperCase (remove_spaces s))
  = filter is_alpha (toUpperCase s).
Proof.
  unfold remove_spaces, toUpperCase.
  induction s as [| c s IH]; simpl; [reflexivity |].
  destruct (is_space c) eqn:S; simpl.
  - destruct (space_skipped c S) as [U A]. rewrite U. simpl. now rewrite A.
  - rewrite !filter_app. now f_equal.
Qed.

(** [totp] strips white space before decoding; the decoder would have
    skipped it anyway. *)
Lemma base32Decode_remove_spaces (s : jsstring) :
  base32Decode (remove_spaces s) = base32Decode s.
Proof.
  now rewrite !base32Decode_alpha, filter_alpha_upper_spaces.
Qed.

Lemma at_range (buf : list byte) (i : Z) : 0 <= at_ buf i < 256.
Proof.
  unfold at_. destruct (i <? 0); [lia |].
  destruct (nth_in_or_default (Z.to_nat i) (List.map Z_of_byte buf) 0) as [I | ->];
    [| lia].
  apply in_map_iff in I as (b & <- & _). apply Z_of_byte_range.
Qed.

Lemma at_byte_at (buf : list byte) (i : Z) :
  0 <= i -> at_ buf i = Spec.byte_at buf i.
Proof.
  intros H. unfold at_, Spec.byte_at.
  destruct (Z.ltb_spec i 0); [lia | reflexivity].
Qed.

Lemma band_land (j x : Z) :
  0 <= j < 32 -> 0 <= x < 2 ^ 31 -> band x (2 ^ j - 1) = Z.land x (2 ^ j - 1).
Proof.
  intros Hj Hx. rewrite band_ones by lia.
  change (2 ^ j - 1) with (Z.pred (2 ^ j)). rewrite <- Z.ones_equiv.
  now rewrite Z.land_ones by lia.
Qed.

Lemma lor_bound (n a b : Z) :
  0 <= n -> 0 <= a < 2 ^ n -> 0 <= b < 2 ^ n -> 0 <= Z.lor a b < 2 ^ n.
Proof.
  intros Hn Ha Hb. split; [apply Z.lor_nonneg; lia |].
  destruct (Z.eq_dec (Z.lor a b) 0) as [-> | NZ]; [apply Z.pow_pos_nonneg; lia |].
  assert (P : 0 < Z.lor a b) by (pose proof (proj2 (Z.lor_nonneg a b)); lia).
  assert (N0 : 0 < n).
  { destruct (Z.eq_dec n 0) as [-> | ?]; [| lia].
    exfalso. apply NZ. replace a with 0 by (simpl in Ha; lia).
    replace b with 0 by (simpl in Hb; lia). reflexivity. }
  apply Z.log2_lt_pow2; [exact P |].
  rewrite Z.log2_lor by lia.
  apply Z.max_lub_lt.
  - destruct (Z.eq_dec a 0) as [-> | ?]; [simpl; lia |].
    apply Z.log2_lt_pow2; lia.
  - destruct (Z.eq_dec b 0) as [-> | ?]; [simpl; lia |].
    apply Z.log2_lt_pow2; lia.
Qed.

Lemma bor_small (a b : Z) :
  0 <= a < 2 ^ 31 -> 0 <= b < 2 ^ 31 ->
  bor a b = Z.lor a b /\ 0 <= bor a b < 2 ^ 31.
Proof.
  intros Ha Hb. unfold bor. rewrite !toInt32_small by lia.
  split; [reflexivity | apply lor_bound; lia].
Qed.

Lemma shl_small (a k : Z) :
  0 <= k < 32 -> 0 <= a -> a * 2 ^ k < 2 ^ 31 ->
  shl a k = Z.shiftl a k /\ 0 <= shl a k < 2 ^ 31.
Proof.
  intros Hk Ha Hb. unfold shl.
  assert (P : 0 < 2 ^ k) by (apply Z.pow_pos_nonneg; lia).
  assert (A : a < 2 ^ 31) by nia.
  rewrite (Z.mod_small k 32), (toInt32_small a) by lia.
  rewrite Z.shiftl_mul_pow2 by lia.
  rewrite toInt32_small by nia. split; [reflexivity | nia].
Qed.

(** The 31-bit number that [totp] cuts out of the digest, with and without
    the 32-bit wrap. *)
Lemma truncate_value (d0 d1 d2 d3 : Z) :
  0 <= d0 < 256 -> 0 <= d1 < 256 -> 0 <= d2 < 256 -> 0 <= d3 < 256 ->
  let v := bor (bor (bor (shl (band d0 0x7f) 24) (shl (band d1 0xff) 16))
                    (shl (band d2 0xff) 8))
               (band d3 0xff) in
  v = Z.lor (Z.lor (Z.lor (Z.shiftl (Z.land d0 0x7F) 24) (Z.shiftl d1 16))
                   (Z.shiftl d2 8)) d3
  /\ 0 <= v < 2 ^ 31.
Proof.
  intros H0 H1 H2 H3.
  assert (B0 : band d0 0x7f = Z.land d0 0x7F /\ 0 <= band d0 0x7f < 128).
  { change 0x7f with (2 ^ 7 - 1). rewrite band_ones by lia.
    change (2 ^ 7 - 1) with (Z.pred (2 ^ 7)). rewrite <- Z.ones_equiv.
    rewrite Z.land_ones by lia. split; [reflexivity |].
    apply Z.mod_pos_bound. lia. }
  assert (B : forall d, 0 <= d < 256 -> band d 0xff = d).
  { intros d Hd. change 0xff with (2 ^ 8 - 1). rewrite band_ones by lia.
    apply Z.mod_small. lia. }
  destruct B0 as [E0 R0]. rewrite !B by assumption.
  destruct (shl_small (band d0 0x7f) 24) as [S0 T0]; try lia.
  destruct (shl_small d1 16) as [S1 T1]; try lia.
  destruct (shl_small d2 8) as [S2 T2]; try lia.
  destruct (bor_small (shl (band d0 0x7f) 24) (shl d1 16) T0 T1) as [O1 U1].
  destruct (bor_small _ (shl d2 8) U1 T2) as [O2 U2].
  destruct (bor_small _ d3 U2 ltac:(lia)) as [O3 U3].
  simpl. split; [| exact U3].
  rewrite O3, O2, O1, S0, S1, S2, E0. reflexivity.
Qed.

Lemma decimal_zero (w : nat) : Spec.decimal w 0 = repeat 48%N w.
Proof.
  induction w as [| w IH]; [reflexivity |].
  cbn [Spec.decimal]. change (0 / 10) with 0. rewrite IH.
  change (Spec.digit (0 mod 10)) with 48%N.
  symmetry. apply (repeat_cons w 48%N).
Qed.

Lemma decimal_length (w : nat) (n : Z) : List.length (Spec.decimal w n) = w.
Proof.
  revert n. induction w as [| w IH]; intros n; [reflexivity |].
  cbn [Spec.decimal]. rewrite length_app, IH. simpl. lia.
Qed.

(** [String(n)] is [n] written with [w] digits, less the [z] zeros it
    would start with; [fuel] turns are enough when [n < 10 ^ fuel]. *)
Lemma digits_decimal (w : nat) :
  forall (fuel : nat) (n : Z) (acc : jsstring),
    0 <= n < 10 ^ Z.of_nat (S w) ->
    (1 <= fuel)%nat -> n < 10 ^ Z.of_nat fuel ->
    exists z, (z <= w)%nat /\
      digits fuel n acc = skipn z (Spec.decimal (S w) n) ++ acc /\
      firstn z (Spec.decimal (S w) n) = repeat 48%N z.
Proof.
  induction w as [| w IH]; intros fuel n acc Hn Hf Hp.
  - destruct fuel as [| fuel]; [lia |].
    change (10 ^ Z.of_nat 1) with 10 in Hn.
    exists O. cbn [digits]. rewrite (Z.div_small n 10) by lia. simpl.
    repeat split. lia.
  - destruct fuel as [| fuel]; [lia |].
    cbn [digits]. destruct (Z.eqb_spec (n / 10) 0) as [E | NE].
    + exists (S w). split; [lia |].
      cbn [Spec.decimal]. rewrite E. change (0 / 10) with 0.
      rewrite decimal_zero.
      change (Spec.digit (0 mod 10)) with 48%N.
      rewrite <- (repeat_cons w 48%N).
      change (48%N :: repeat 48%N w) with (repeat 48%N (S w)).
      rewrite skipn_app, firstn_app, repeat_length, Nat.sub_diag.
      rewrite skipn_all2, firstn_all2 by (rewrite repeat_length; lia).
      simpl. rewrite app_nil_r. split; reflexivity.
    + assert (Hq : 0 <= n / 10 < 10 ^ Z.of_nat (S w)).
      { rewrite Nat2Z.inj_succ, Z.pow_succ_r in Hn by lia.
        split; [apply Z.div_pos; lia | apply Z.div_lt_upper_bound; lia]. }
      assert (Hq' : n / 10 < 10 ^ Z.of_nat fuel).
      { rewrite Nat2Z.inj_succ, Z.pow_succ_r in Hp by lia.
        apply Z.div_lt_upper_bound; lia. }
      assert (Hf' : (1 <= fuel)%nat).
      { destruct fuel; [| lia]. simpl in Hq'. lia. }
      destruct (IH fuel (n / 10) (Z.to_N (48 + n mod 10) :: acc) Hq Hf' Hq')
        as (z & Hz & D & Z0).
      exists z. split; [lia |].
      assert (L : List.length (Spec.decimal (S w) (n / 10)) = S w)
        by apply decimal_length.
      rewrite D. change (Spec.decimal (S (S w)) n)
        with (Spec.decimal (S w) (n / 10) ++ [Spec.digit (n mod 10)]).
      rewrite skipn_app, firstn_app.
      replace (z - List.length (Spec.decimal (S w) (n / 10)))%nat with O by lia.
      simpl skipn at 2. simpl firstn at 2.
      rewrite app_nil_r, <- app_assoc. split; [reflexivity | exact Z0].
Qed.

(** [String(n).padStart(6, '0')] is [n] written with six digits. *)
Lemma padStart_String_of (n : Z) :
  0 <= n < 1000000 -> padStart 6 (String_of n) = Spec.decimal 6 n.
Proof.
  intros H. unfold String_of, padStart.
  destruct (digits_decimal 5 (S (Z.to_nat n)) n []) as (z & Hz & D & Z0).
  - simpl. lia.
  - lia.
  - rewrite Nat2Z.inj_succ, Z2Nat.id, Z.pow_succ_r by lia.
    pose proof (Z.pow_gt_lin_r 10 n ltac:(lia) ltac:(lia)). lia.
  - rewrite D, app_nil_r, length_skipn, decimal_length.
    replace (6 - (6 - z))%nat with z by lia.
    rewrite <- Z0. apply firstn_skipn.
Qed.

Lemma band_255 (x : Z) : band x 255 = x mod 256.
Proof. change 255 with (2 ^ 8 - 1). now rewrite band_ones by lia. Qed.

(** The loop over [counterBuf] writes the counter big-endian. *)
Lemma counterBuf_be8 (c : Z) :
  Buffer_from (counter_loop 8 c (repeat 0 8)) = Spec.be8 c.
Proof.
  unfold Spec.be8, Buffer_from.
  cbn [counter_loop repeat firstn skipn app List.map].
  rewrite !band_255, !Z.div_div by lia.
  rewrite <- (Z.div_1_r c) at 8.
  reflexivity.
Qed.

Lemma totp_unfold (s : jsstring) (t : Z) :
  totp s t = totp_with_key (base32Decode (remove_spaces s)) t.
Proof. unfold totp, totp_with_key. cbv zeta. reflexivity. Qed.

(** The code engine computes what section 4.3 prescribes, for every key
    and every counter. *)
Lemma totp_with_key_spec (key : list byte) (t : Z) :
  totp_with_key key t =
    let digest := Sha1.hmac key (Spec.be8 (t / 30000)) in
    let offset := Z.land (Spec.byte_at digest 19) 0x0F in
    let value :=
      Z.lor (Z.lor (Z.lor (Z.shiftl (Z.land (Spec.byte_at digest offset) 0x7F) 24)
                          (Z.shiftl (Spec.byte_at digest (offset + 1)) 16))
                   (Z.shiftl (Spec.byte_at digest (offset + 2)) 8))
            (Spec.byte_at digest (offset + 3)) in
    Spec.decimal 6 (value mod 1000000).
Proof.
  unfold totp_with_key, hmacSha1.
  rewrite counter_of_div, counterBuf_be8.
  set (digest := Sha1.hmac key (Spec.be8 (t / 30000))).
  cbv zeta.
  pose proof (at_range digest 19) as R19.
  assert (O : band (at_ digest 19) 0x0f = Z.land (Spec.byte_at digest 19) 0x0F).
  { change 0x0f with (2 ^ 4 - 1). rewrite band_land by lia.
    now rewrite at_byte_at by lia. }
  rewrite O.
  set (offset := Z.land (Spec.byte_at digest 19) 0x0F).
  assert (RO : 0 <= offset < 16).
  { subst offset. change 0x0F with (Z.ones 4). rewrite Z.land_ones by lia.
    apply Z.mod_pos_bound. lia. }
  destruct (truncate_value (at_ digest offset) (at_ digest (offset + 1))
              (at_ digest (offset + 2)) (at_ digest (offset + 3)))
    as [V VR]; try apply at_range.
  cbv zeta in V, VR. rewrite V in *.
  rewrite !at_byte_at in * by lia.
  rewrite Z.rem_mod_nonneg by lia.
  apply padStart_String_of. apply Z.mod_pos_bound. lia.
Qed.

Lemma totp_spec (s : jsstring) (t : Z) : totp s t = Spec.code s t.
Proof.
  rewrite totp_unfold, totp_with_key_spec, base32Decode_remove_spaces.
  unfold Spec.code. cbv zeta. change (1000 * 30) with 30000. reflexivity.
Qed.

Lemma decimal_digits (w : nat) (n : Z) :
  forallb is_digit (Spec.decimal w n) = true.
Proof.
  revert n. induction w as [| w IH]; intros n; [reflexivity |].
  cbn [Spec.decimal]. rewrite forallb_app, IH. simpl.
  rewrite andb_true_r. unfold is_digit, Spec.digit.
  pose proof (Z.mod_pos_bound n 10 ltac:(lia)).
  apply andb_true_intro. split; [apply N.leb_le | apply N.leb_le]; lia.
Qed.

(** [totp] returns six decimal digits, whatever the key and the time. *)
Lemma totp_with_key_six (key : list byte) (t : Z) :
  List.length (totp_with_key key t) = 6%nat /\
  forallb is_digit (totp_with_key key t) = true.
Proof.
  rewrite totp_with_key_spec. cbv zeta.
  split; [apply decimal_length | apply decimal_digits].
Qed.

(** C1 -- for every secret [s] and every time [t] in epoch milliseconds,
    [totp s t] is the RFC 6238/4226 computation of section 4.3: the counter
    is [floor(t / 1000 / 30)], written as 8 big-endian bytes; the key is
    [base32Decode s]; the digest is HMAC-SHA1 of the counter bytes under
    the key; the offset is the low nibble of digest byte 19; the value is
    the 31-bit big-endian number at that offset; the result is the value
    modulo 1000000 written with exactly six digits. *)
Theorem totp_matches_rfc (s : jsstring) (t : Z) :
  epoch_ok t -> totp s t = Spec.code s t.
Proof.
  intros _. apply totp_spec.
Qed.

Lemma totp_matches_rfc_witness :
  epoch_ok 59000 /\ totp rfc_secret 59000 = Spec.code rfc_secret 59000.
Proof.
  assert (E : epoch_ok 59000) by (unfold epoch_ok; lia).
  split; [exact E | exact (totp_matches_rfc rfc_secret 59000 E)].
Defined.

Lemma Z_of_byte_of_Z (x : Z) : 0 <= x < 256 -> Z_of_byte (byte_of_Z x) = x.
Proof.
  intros H. unfold Z_of_byte, byte_of_Z. rewrite Z.mod_small by lia.
  destruct (Byte.of_N (Z.to_N x)) as [b |] eqn:E.
  - apply Byte.to_of_N in E. rewrite E. lia.
  - apply Byte.of_N_None_iff in E. lia.
Qed.

(** Adjacent counters are written as different bytes. *)
Lemma be8_succ (c : Z) : Spec.be8 c <> Spec.be8 (c + 1).
Proof.
  unfold Spec.be8. cbn [List.map]. intros E.
  injection E as _ _ _ _ _ _ _ E.
  apply (f_equal Z_of_byte) in E.
  rewrite !Z_of_byte_of_Z in E by (apply Z.mod_pos_bound; lia).
  change (256 ^ 0) with 1 in E. rewrite !Z.div_1_r in E.
  rewrite <- Zplus_mod_idemp_l in E.
  pose proof (Z.mod_pos_bound c 256 ltac:(lia)) as B.
  destruct (Z.eq_dec (c mod 256) 255) as [F | F].
  - rewrite F in E. discriminate E.
  - rewrite (Z.mod_small (c mod 256 + 1)) in E by lia. lia.
Qed.

(** C8 as amended -- for every secret [s] and all times [t1], [t2] of one
    30-second window, [totp s t1 = totp s t2]; at a window boundary the
    counter goes up by one and the eight bytes that the loop of [totp]
    writes into [counterBuf] and gives to HMAC change, so the code is
    computed afresh from another message (that the six digits themselves
    change is not guaranteed). *)
Theorem totp_window (s : jsstring) (t1 t2 : Z) :
  epoch_ok t1 -> epoch_ok t2 ->
  (t1 / 30000 = t2 / 30000 -> totp s t1 = totp s t2) /\
  (t1 / 30000 + 1 = t2 / 30000 ->
     counter_of t2 = counter_of t1 + 1 /\
     Spec.be8 (counter_of t1) <> Spec.be8 (counter_of t2) /\
     counterBuf_at t1 <> counterBuf_at t2) /\
  (forall t,
     totp s t
     = code_of_hmac (hmacSha1 (base32Decode (remove_spaces s))
                              (counterBuf_at t))).
Proof.
  intros _ _. split; [| split].
  - intros E. rewrite !totp_spec. unfold Spec.code.
    change (1000 * 30) with 30000. now rewrite E.
  - intros E. unfold counterBuf_at. rewrite !counterBuf_be8.
    rewrite !counter_of_div. split; [lia |].
    rewrite <- E. split; apply be8_succ.
  - intros t. unfold totp, code_of_hmac, counterBuf_at. cbv zeta.
    reflexivity.
Qed.

Lemma totp_window_witness :
  epoch_ok 31000 /\ epoch_ok 59000 /\ epoch_ok 60000 /\
  totp rfc_secret 31000 = totp rfc_secret 59000 /\
  counter_of 60000 = counter_of 59000 + 1 /\
  counterBuf_at 59000 <> counterBuf_at 60000.
Proof.
  assert (E1 : epoch_ok 31000) by (unfold epoch_ok; lia).
  assert (E2 : epoch_ok 59000) by (unfold epoch_ok; lia).
  assert (E3 : epoch_ok 60000) by (unfold epoch_ok; lia).
  split; [exact E1 | split; [exact E2 | split; [exact E3 |]]].
  split; [| split].
  - exact (proj1 (totp_window rfc_secret 31000 59000 E1 E2) eq_refl).
  - exact (proj1 (proj1 (proj2 (totp_window rfc_secret 59000 60000 E2 E3))
                        eq_refl)).
  - exact (proj2 (proj2 (proj1 (proj2 (totp_window rfc_secret 59000 60000
                                         E2 E3)) eq_refl))).
Defined.

(** C8, counterexample -- the two windows that meet at 27322140000 ms are
    adjacent, and the RFC 6238 test secret has the same code, 911617, in
    both. *)
Lemma totp_adjacent_windows_same_code :
  27322139999 / 30000 + 1 = 27322140000 / 30000 /\
  totp rfc_secret 27322139999 = totp rfc_secret 27322140000.
Proof.
  split; vm_compute; reflexivity.
Qed.

Lemma skipped_filter (c : N) :
  skipped c = true -> filter is_alpha (upper_unit c) = [].
Proof.
  unfold skipped. induction (upper_unit c) as [| d l IH]; simpl; [reflexivity |].
  intros H. apply andb_prop in H as [H1 H2].
  apply negb_true_iff in H1. rewrite H1. auto.
Qed.

Lemma skipped_decode (s1 s2 : jsstring) (c : N) :
  skipped c = true ->
  base32Decode (s1 ++ c :: s2) = base32Decode (s1 ++ s2).
Proof.
  intros H. rewrite !base32Decode_alpha. unfold toUpperCase.
  rewrite !flat_map_app. simpl. rewrite !filter_app.
  now rewrite skipped_filter by assumption.
Qed.

Lemma skipped_all_decode (s : jsstring) :
  forallb skipped s = true -> base32Decode s = [].
Proof.
  intros H. rewrite base32Decode_alpha.
  replace (filter is_alpha (toUpperCase s)) with (@nil N); [reflexivity |].
  unfold toUpperCase. induction s as [| c s IH]; simpl; [reflexivity |].
  simpl in H. apply andb_prop in H as [H1 H2].
  rewrite filter_app, skipped_filter, <- IH by assumption. reflexivity.
Qed.

(** Below U+0080 the decoder sees exactly the letters and '2'..'7'. *)
Lemma ascii_outside_skipped (c : N) :
  (c < 128)%N -> outside c = true -> skipped c = true.
Proof.
  intros L O.
  assert (A : forallb (fun n => implb (outside (N.of_nat n)) (skipped (N.of_nat n)))
                (seq 0 128) = true) by (vm_compute; reflexivity).
  rewrite forallb_forall in A. specialize (A (N.to_nat c)).
  rewrite N2Nat.id in A. rewrite O in A. apply A. apply in_seq. lia.
Qed.

(** C4 as amended -- [base32Decode] and [totp] are total on all string
    inputs (the embedding has no failure value because the source has no
    failing operation: [indexOf] answers -1 and the arithmetic is total).
    For every string, [base32Decode] skips each character whose upper-case
    form has no character of the alphabet, which covers every character
    below U+0080 that is neither a letter nor one of '2'..'7'; it returns
    the empty byte sequence for the empty string and for a string made of
    such characters only; and for every secret whose decode yields zero
    bytes [totp] returns six digits, computed with the empty key. *)
Theorem decode_and_totp_total :
  (forall s1 s2 c, skipped c = true ->
     base32Decode (s1 ++ c :: s2) = base32Decode (s1 ++ s2)) /\
  (forall c, (c < 128)%N -> outside c = true -> skipped c = true) /\
  base32Decode [] = [] /\
  (forall s, forallb skipped s = true -> base32Decode s = []) /\
  (forall s t, base32Decode s = [] ->
     totp s t = totp_with_key [] t /\
     List.length (totp s t) = 6%nat /\
     forallb is_digit (totp s t) = true).
Proof.
  split; [exact skipped_decode |].
  split; [exact ascii_outside_skipped |].
  split; [reflexivity |].
  split; [exact skipped_all_decode |].
  intros s t E. rewrite totp_unfold, base32Decode_remove_spaces, E.
  split; [reflexivity | apply totp_with_key_six].
Qed.

Lemma decode_and_totp_total_witness :
  skipped 33%N = true /\ base32Decode (lit "!") = [] /\
  totp (lit "!") 59000 = totp_with_key [] 59000.
Proof.
  destruct decode_and_totp_total as (_ & _ & _ & D & T).
  assert (S : forallb skipped (lit "!") = true) by reflexivity.
  pose proof (D (lit "!") S) as E.
  split; [reflexivity | split; [exact E |]].
  exact (proj1 (T (lit "!") 59000 E)).
Defined.

(** C4, counterexample -- U+00DF is outside the alphabet in either case,
    yet [toUpperCase] turns it into "SS" and the decoder puts out a byte:
    this fully invalid input does not decode to the empty sequence. *)
Lemma eszett_is_decoded :
  outside 223%N = true /\ base32Decode [223%N] = [x94] /\
  base32Decode [223%N] <> base32Decode [].
Proof.
  split; [reflexivity | split; [reflexivity | discriminate]].
Qed.

End Engine.

(** ** Topic derivation *)

Section Topic.

Lemma compress_length (h block : list Z) (t : Z) (final : bool) :
  List.length (Blake2b.compress h block t final) = 8%nat.
Proof.
  unfold Blake2b.compress. now rewrite length_map, length_seq.
Qed.

Lemma absorb_length (fuel : nat) (h : list Z) (t : Z) (msg : list Z) :
  List.length (Blake2b.absorb fuel h t msg) = 8%nat.
Proof.
  revert h t msg.
  induction fuel as [| fuel IH]; intros h t msg; cbn [Blake2b.absorb].
  - apply compress_length.
  - destruct (List.length msg <=? 128)%nat; [apply compress_length | apply IH].
Qed.

Lemma flat_map_bytes_length (l : list Z) :
  List.length (flat_map Blake2b.bytes_of_word l) = (8 * List.length l)%nat.
Proof.
  induction l as [| w l IH]; [reflexivity |].
  cbn [flat_map]. rewrite length_app, IH.
  unfold Blake2b.bytes_of_word. rewrite length_map, length_seq.
  cbn [List.length]. lia.
Qed.

(** [crypto.hash] returns 32 bytes. *)
Lemma crypto_hash_length (data : list byte) :
  List.length (crypto_hash data) = 32%nat.
Proof.
  unfold crypto_hash, Blake2b.hash32, Blake2b.hash32Z.
  rewrite length_map, length_firstn, flat_map_bytes_length, absorb_length.
  reflexivity.
Qed.

Lemma hex_byte (b : byte) (rest : jsstring) :
  B4a.from_hex (B4a.toString_hex [b] ++ rest) = b :: B4a.from_hex rest.
Proof. destruct b; reflexivity. Qed.

(** Writing a buffer in hexadecimal and reading it back changes nothing. *)
Lemma from_hex_toString_hex (buf : list byte) :
  B4a.from_hex (B4a.toString_hex buf) = buf.
Proof.
  induction buf as [| b buf IH]; [reflexivity |].
  change (B4a.toString_hex (b :: buf))
    with (B4a.toString_hex [b] ++ B4a.toString_hex buf).
  now rewrite hex_byte, IH.
Qed.

Lemma toString_hex_length (buf : list byte) :
  List.length (B4a.toString_hex buf) = (2 * List.length buf)%nat.
Proof.
  unfold B4a.toString_hex. induction buf as [| b buf IH]; [reflexivity |].
  cbn [flat_map app List.length]. rewrite IH. lia.
Qed.

Lemma shareHint_length (name : jsstring) :
  List.length (shareHint name) = 16%nat.
Proof.
  unfold shareHint, shareTopicHex, shareTopic.
  rewrite length_firstn, toString_hex_length, crypto_hash_length. reflexivity.
Qed.

Lemma receiveTopic_name (t VAULT_NAME : jsstring) :
  t <> [] -> List.length t <> 64%nat ->
  receiveTopic (Some t) VAULT_NAME = shareTopic t.
Proof.
  intros N L. unfold receiveTopic, shareTopic.
  destruct t as [| c t]; [congruence |]. cbn [truthy].
  destruct (Nat.eqb_spec (List.length (c :: t)) 64); [contradiction |].
  apply from_hex_toString_hex.
Qed.

(** C5 -- topic derivation is a function of the vault name alone and gives
    exactly 32 bytes; the share session and the name-based derivation of
    the receive session (the configured vault name when no topic is given,
    the [--topic] argument when it is given and is not 64 characters long)
    hash the same salted string and yield the same bytes. *)
Theorem topic_derivation_agrees :
  (forall name,
     shareTopic name =
       crypto_hash
         (B4a.from (lit "peerotp:vault:" ++ name ++ lit ":intercom-vibe-2025"))
     /\ List.length (shareTopic name) = 32%nat) /\
  (forall name, receiveTopic None name = shareTopic name) /\
  (forall name VAULT_NAME,
     name <> [] -> List.length name <> 64%nat ->
     receiveTopic (Some name) VAULT_NAME = shareTopic name).
Proof.
  split; [| split].
  - intros name. split; [reflexivity | apply crypto_hash_length].
  - reflexivity.
  - exact receiveTopic_name.
Qed.

Lemma topic_derivation_agrees_witness :
  lit "myteam" <> [] /\ List.length (lit "myteam") <> 64%nat /\
  receiveTopic (Some (lit "myteam")) (lit "default") = shareTopic (lit "myteam").
Proof.
  assert (N : lit "myteam" <> []) by discriminate.
  assert (L : List.length (lit "myteam") <> 64%nat) by discriminate.
  split; [exact N | split; [exact L |]].
  exact (proj2 (proj2 topic_derivation_agrees) (lit "myteam") (lit "default") N L).
Defined.

(** C10 as amended -- in receive mode a [--topic] argument is used directly
    as the topic only when it is exactly 64 characters long; every
    non-empty argument of another length is hashed as if it were a vault
    name, so the session joins the topic of a vault of that name: for the
    16-character excerpt shown by share mode that is the topic of a vault
    named after the excerpt, which is the topic of the vault it was cut
    from only if the two salted strings have the same hash (for the vault
    "default" they do not).  An empty argument counts as absent, and the
    configured vault name is hashed. *)
Theorem receive_topic_argument :
  (forall t VAULT_NAME, List.length t = 64%nat ->
     receiveTopic (Some t) VAULT_NAME = B4a.from_hex t) /\
  (forall t VAULT_NAME, t <> [] -> List.length t <> 64%nat ->
     receiveTopic (Some t) VAULT_NAME = crypto_hash (topicSeed t)) /\
  (forall name VAULT_NAME,
     receiveTopic (Some (shareHint name)) VAULT_NAME
       = shareTopic (shareHint name) /\
     (receiveTopic (Some (shareHint name)) VAULT_NAME = shareTopic name <->
      crypto_hash (topicSeed (shareHint name)) = crypto_hash (topicSeed name)))
  /\
  receiveTopic (Some (shareHint (lit "default"))) (lit "default")
    <> shareTopic (lit "default") /\
  (forall VAULT_NAME, receiveTopic (Some []) VAULT_NAME = shareTopic VAULT_NAME).
Proof.
  split; [| split; [| split; [| split]]].
  - intros t V L. unfold receiveTopic.
    destruct t as [| c t]; [discriminate L |]. cbn [truthy].
    now rewrite L.
  - intros t V N L. now rewrite receiveTopic_name.
  - intros name V.
    assert (N : shareHint name <> []).
    { intros E. pose proof (shareHint_length name) as L. now rewrite E in L. }
    assert (L : List.length (shareHint name) <> 64%nat)
      by (rewrite shareHint_length; discriminate).
    rewrite receiveTopic_name by assumption. split; [reflexivity |].
    unfold shareTopic. reflexivity.
  - vm_compute. discriminate.
  - reflexivity.
Qed.

Lemma receive_topic_argument_witness :
  lit "616c41da79dfb1de" <> [] /\
  List.length (lit "616c41da79dfb1de") <> 64%nat /\
  receiveTopic (Some (lit "616c41da79dfb1de")) (lit "default")
    = crypto_hash (topicSeed (lit "616c41da79dfb1de")).
Proof.
  assert (N : lit "616c41da79dfb1de" <> []) by discriminate.
  assert (L : List.length (lit "616c41da79dfb1de") <> 64%nat) by discriminate.
  split; [exact N | split; [exact L |]].
  exact (proj1 (proj2 receive_topic_argument) _ (lit "default") N L).
Defined.

(** C10, counterexample -- the empty argument has a length other than 64,
    yet it is not hashed as a vault name: the session derives the topic of
    the configured vault, here "default".  And an argument of another
    length need not lead away from the share session: the name of the
    vault itself, here "myteam", gives exactly the topic on which that
    vault is shared. *)
Lemma empty_topic_argument :
  List.length (@nil N) <> 64%nat /\
  receiveTopic (Some []) (lit "default") <> crypto_hash (topicSeed []) /\
  receiveTopic (Some []) (lit "default") = shareTopic (lit "default") /\
  List.length (lit "myteam") <> 64%nat /\
  receiveTopic (Some (lit "myteam")) (lit "default") = shareTopic (lit "myteam").
Proof.
  split; [discriminate | split; [| split; [reflexivity |]]].
  - vm_compute. discriminate.
  - split; [discriminate | vm_compute; reflexivity].
Qed.

End Topic.

(** ** Fuel of the hash functions *)

Section Fuel.

(** The fuel of [Sha1.blocks] is enough: the blocks are the whole input. *)
Lemma sha1_blocks_concat (fuel : nat) (l : list Z) :
  (List.length l <= fuel)%nat -> List.concat (Sha1.blocks fuel l) = l.
Proof.
  revert l. induction fuel as [| fuel IH]; intros l H.
  - destruct l; [reflexivity | simpl in H; lia].
  - destruct l as [| x l]; [reflexivity |].
    cbn [Sha1.blocks List.concat]. rewrite IH.
    + apply firstn_skipn.
    + rewrite length_skipn. simpl in *. lia.
Qed.

(** The fuel of [Blake2b.absorb] is enough: more of it changes nothing. *)
Lemma blake2b_absorb_fuel (fuel : nat) (h : list Z) (t : Z) (msg : list Z) :
  (List.length msg <= fuel)%nat ->
  Blake2b.absorb (S fuel) h t msg = Blake2b.absorb fuel h t msg.
Proof.
  revert h t msg. induction fuel as [| fuel IH]; intros h t msg H.
  - destruct msg; [reflexivity | simpl in H; lia].
  - change (Blake2b.absorb (S (S fuel)) h t msg)
      with (if (List.length msg <=? 128)%nat
            then Blake2b.compress h msg (t + Z.of_nat (List.length msg)) true
            else Blake2b.absorb (S fuel)
                   (Blake2b.compress h (firstn 128 msg) (t + 128) false)
                   (t + 128) (skipn 128 msg)).
    change (Blake2b.absorb (S fuel) h t msg)
      with (if (List.length msg <=? 128)%nat
            then Blake2b.compress h msg (t + Z.of_nat (List.length msg)) true
            else Blake2b.absorb fuel
                   (Blake2b.compress h (firstn 128 msg) (t + 128) false)
                   (t + 128) (skipn 128 msg)).
    destruct (Nat.leb_spec (List.length msg) 128); [reflexivity |].
    apply IH. rewrite length_skipn. lia.
Qed.

End Fuel.

(** ** The receive session, event by event *)

Section Receive.

Lemma run_snoc (s : session) (evs : list event) (e : event) :
  run s (evs ++ [e]) = step (run s evs) e.
Proof. unfold run. now rewrite fold_left_app. Qed.

Lemma step_stopped (s : session) (e : event) :
  status_of s <> Running -> step s e = s.
Proof.
  unfold step. destruct (status_of s); [congruence | reflexivity | reflexivity].
Qed.

Lemma run_stopped (s : session) (evs : list event) :
  status_of s <> Running -> run s evs = s.
Proof.
  intros H. induction evs as [| e evs IH] using rev_ind; [reflexivity |].
  rewrite run_snoc, IH. now apply step_stopped.
Qed.

(** A process that is running after an event was running before it. *)
Lemma step_running (s : session) (e : event) :
  status_of (step s e) = Running -> status_of s = Running.
Proof.
  intros H. destruct (status_of s) eqn:E; [reflexivity | |];
    rewrite step_stopped in H by congruence; congruence.
Qed.

Lemma run_running (s : session) (evs : list event) :
  status_of (run s evs) = Running -> status_of s = Running.
Proof.
  induction evs as [| e evs IH] using rev_ind; [trivial |].
  rewrite run_snoc. intros H. apply IH. now apply step_running in H.
Qed.

(** The ways a run of the ['data'] callback can go. *)
Lemma onData_cases (r : bool) (conn : nat) (payload : option json)
    (clock : nat -> Z) (fs_ok : bool) :
  ((r = true \/ valid_header payload = false) /\
   (onData r conn payload clock fs_ok = (r, [], Returned) \/
    onData r conn payload clock fs_ok = (r, [], Rejected))) \/
  (r = false /\ valid_header payload = true /\
   (onData r conn payload clock fs_ok = (true, [Latch], Rejected) \/
    exists name vault,
      onData r conn payload clock fs_ok =
        (true, [Latch; WriteFile name vault; ConnWrite conn; SetTimeout 500],
         Suspended))).
Proof.
  unfold onData, valid_header. destruct r; [left; auto |].
  destruct payload as [j |]; [| left; auto].
  destruct (header_ok (Val j)) as [[|] |]; [| left; auto | left; auto].
  right. split; [reflexivity | split; [reflexivity |]].
  destruct (read_vault clock (Val j)) as [[name vault] |]; [| now left].
  destruct fs_ok; [right; eauto | now left].
Qed.

Lemma count_app (f : action -> bool) (l1 l2 : list action) :
  count f (l1 ++ l2) = (count f l1 + count f l2)%nat.
Proof. unfold count. now rewrite filter_app, length_app. Qed.

Lemma quiet_count (acts : list action) :
  quiet acts = true ->
  count is_latch acts = 0%nat /\ count is_write acts = 0%nat /\
  forall a, In a acts -> is_io a = false.
Proof.
  unfold quiet, count. induction acts as [| a acts IH]; simpl.
  - intros _. repeat split. intros a [].
  - intros H. apply andb_prop in H as [H1 H2].
    apply andb_prop in H1 as [L I].
    apply negb_true_iff in L, I. destruct (IH H2) as (C1 & C2 & C3).
    rewrite L. assert (W : is_write a = false) by (destruct a; simpl in *; congruence).
    rewrite W. repeat split; try assumption.
    intros b [<- | Hb]; auto.
Qed.

(** What one event does to the latch and to the trace: it leaves the
    latch alone and is quiet, or it sets the latch, once, and writes at
    most one file after it. *)
Lemma step_effect (s : session) (e : event) :
  (received (step s e) = received s /\
   exists acts, trace (step s e) = trace s ++ acts /\ quiet acts = true) \/
  (received s = false /\ received (step s e) = true /\
   is_data_valid e = true /\
   exists rest, trace (step s e) = trace s ++ Latch :: rest /\
                count is_latch rest = 0%nat /\ (count is_write rest <= 1)%nat).
Proof.
  destruct s as [r st j t g e0 e1 tr]. unfold step. cbn [status_of].
  destruct st; [| left; split; [reflexivity | exists []; now rewrite app_nil_r]
                | left; split; [reflexivity | exists []; now rewrite app_nil_r]].
  destruct e as [conn payload clock fs_ok | | | | |]; cbn [received joined timer60 grace exit0 exit1 trace].
  - destruct (onData_cases r conn payload clock fs_ok)
      as [[_ [E | E]] | (R & V & [E | (name & vault & E)])]; rewrite E;
      cbn [received trace].
    + left. split; [reflexivity | now exists []].
    + left. split; [reflexivity | now exists [Unhandled]].
    + right. subst r. repeat split; try assumption.
      exists [Unhandled]. repeat split. cbn. lia.
    + right. subst r. repeat split; try assumption.
      exists [WriteFile name vault; ConnWrite conn; SetTimeout 500].
      repeat split. cbn. lia.
  - destruct j; cbn [received trace]; left; split; try reflexivity.
    + exists []. now rewrite app_nil_r.
    + now exists [SetTimeout 60000].
  - destruct t; [destruct r |]; cbn [negb received trace]; left;
      split; try reflexivity.
    + exists []. now rewrite app_nil_r.
    + now exists [Warn; SwarmDestroy].
    + exists []. now rewrite app_nil_r.
  - destruct g; cbn [received trace]; left; split; try reflexivity.
    + exists []. now rewrite app_nil_r.
    + now exists [SwarmDestroy].
  - destruct e0; cbn [received trace]; left; split; try reflexivity.
    + exists []. now rewrite app_nil_r.
    + now exists [Exit 0].
  - destruct e1; cbn [received trace]; left; split; try reflexivity.
    + exists []. now rewrite app_nil_r.
    + now exists [Exit 1].
Qed.

Lemma latch_before_io_quiet (tr acts : list action) :
  latch_before_io tr -> quiet acts = true -> latch_before_io (tr ++ acts).
Proof.
  intros IH Q pre a post E Ha.
  destruct (quiet_count acts Q) as (_ & _ & NoIo).
  apply app_eq_app in E as [l [[E1 E2] | [E1 E2]]].
  - destruct l as [| a' l].
    + simpl in E2. subst acts. rewrite NoIo in Ha by now left. discriminate.
    + simpl in E2. injection E2 as <- _. exact (IH pre a l E1 Ha).
  - subst acts. rewrite NoIo in Ha by (apply in_or_app; right; now left).
    discriminate.
Qed.

Lemma latch_before_io_latch (tr rest : list action) :
  latch_before_io tr -> latch_before_io (tr ++ Latch :: rest).
Proof.
  intros IH pre a post E Ha.
  apply app_eq_app in E as [l [[E1 E2] | [E1 E2]]].
  - destruct l as [| a' l].
    + simpl in E2. injection E2 as -> _. discriminate.
    + simpl in E2. injection E2 as <- _. exact (IH pre a l E1 Ha).
  - destruct l as [| a' l].
    + simpl in E2. injection E2 as <- _. discriminate.
    + simpl in E2. injection E2 as <- _. subst pre. apply in_or_app.
      right. now left.
Qed.

(** The invariant of a receive session: the latch has been set once if
    [received] holds and never otherwise, at most one file has been
    written, and only after the latch was set. *)
Lemma session_invariant (evs : list event) :
  let s := run init evs in
  count is_latch (trace s) = (if received s then 1 else 0)%nat /\
  (count is_write (trace s) <= (if received s then 1 else 0))%nat /\
  latch_before_io (trace s).
Proof.
  induction evs as [| e evs IH] using rev_ind.
  - cbn. repeat split; try lia. intros pre a post E. destruct pre; discriminate.
  - cbv zeta in *. rewrite run_snoc. destruct IH as (L & W & B).
    destruct (step_effect (run init evs) e)
      as [(R & acts & T & Q) | (R0 & R1 & _ & rest & T & CL & CW)].
    + rewrite R, T, !count_app.
      destruct (quiet_count acts Q) as (C1 & C2 & _). rewrite C1, C2.
      repeat split; [lia | lia | now apply latch_before_io_quiet].
    + rewrite R1, T, !count_app. rewrite R0 in L, W.
      change (Latch :: rest) with ([Latch] ++ rest). rewrite !count_app, CL.
      cbn [count filter is_latch is_write List.length].
      repeat split; [lia | lia | now apply latch_before_io_latch].
Qed.

Lemma received_ignores (s : session) (conn : nat) (payload : option json)
    (clock : nat -> Z) (fs_ok : bool) :
  received s = true -> step s (Data conn payload clock fs_ok) = s.
Proof.
  open_session s. intros ->. run_step.
  destruct st; cbn; try reflexivity. now rewrite app_nil_r.
Qed.

Lemma valid_sets_latch (s : session) (conn : nat) (payload : option json)
    (clock : nat -> Z) (fs_ok : bool) :
  status_of s = Running -> received s = false ->
  valid_header payload = true ->
  received (step s (Data conn payload clock fs_ok)) = true /\
  exists rest, trace (step s (Data conn payload clock fs_ok)) = trace s ++ Latch :: rest.
Proof.
  open_session s. intros -> -> V. run_step.
  destruct (onData_cases false conn payload clock fs_ok)
    as [[[? | V'] _] | (_ & _ & [E | (name & vault & E)])];
    try congruence; rewrite E; cbn [received trace]; split; try reflexivity.
  - now exists [Unhandled].
  - now exists [WriteFile name vault; ConnWrite conn; SetTimeout 500].
Qed.

(** The latch is set on the header alone: a message without a vault sets
    it, and the callback then throws before anything is written. *)
Example header_only_latches :
  let s := run init [Flushed; Data 0 (Some header_only) sample_clock true] in
  received s = true /\ status_of s = Crashed /\
  count is_write (trace s) = 0%nat.
Proof. cbv zeta. repeat split. Qed.

(** So does a message whose vault cannot be shown: a label that cannot be
    converted to text, or a clock before the epoch when the bar is drawn,
    makes the callback throw after the latch is set and before anything is
    written. *)
Example unshown_vault_not_saved :
  let s := run init [Flushed;
                     Data 0 (Some unprintable_share) sample_clock true] in
  let s' := run init [Flushed;
                      Data 0 (Some sample_share) (fun _ => -1) true] in
  (received s = true /\ status_of s = Crashed /\
   count is_write (trace s) = 0%nat) /\
  (received s' = true /\ status_of s' = Crashed /\
   count is_write (trace s') = 0%nat).
Proof. cbv zeta. repeat split. Qed.

(** C2 -- in every receive session, whatever the connections deliver and
    in whatever order: the first payload that is a share message (it
    parses, with the right type and version) sets the latch, the latch is
    set exactly once, it is set before any persistence or acknowledgement
    I/O, every payload that arrives once the latch is set is ignored, and
    at most one vault is persisted. *)
Theorem latch_at_most_once (evs : list event) :
  let s := run init evs in
  (forall conn payload clock fs_ok,
     status_of s = Running -> received s = false ->
     valid_header payload = true ->
     received (step s (Data conn payload clock fs_ok)) = true /\
     exists rest,
       trace (step s (Data conn payload clock fs_ok)) = trace s ++ Latch :: rest) /\
  count is_latch (trace s) = (if received s then 1 else 0)%nat /\
  latch_before_io (trace s) /\
  (forall conn payload clock fs_ok,
     received s = true -> step s (Data conn payload clock fs_ok) = s) /\
  (count is_write (trace s) <= 1)%nat.
Proof.
  cbv zeta. destruct (session_invariant evs) as (L & W & B).
  split; [intros; now apply valid_sets_latch |].
  split; [exact L |]. split; [exact B |].
  split; [intros; now apply received_ignores |].
  destruct (received (run init evs)); lia.
Qed.

Lemma latch_at_most_once_witness :
  let evs := [Flushed; Data 1 (Some sample_share) sample_clock true;
              Data 2 (Some sample_share) sample_clock true] in
  received (run init evs) = true /\
  count is_latch (trace (run init evs)) = 1%nat /\
  step (run init evs) (Data 3 (Some sample_share) sample_clock true) = run init evs.
Proof.
  cbv zeta.
  assert (R : received (run init [Flushed; Data 1 (Some sample_share) sample_clock true;
                                  Data 2 (Some sample_share) sample_clock true]) = true)
    by reflexivity.
  destruct (latch_at_most_once [Flushed; Data 1 (Some sample_share) sample_clock true;
                                Data 2 (Some sample_share) sample_clock true])
    as (_ & L & _ & I & _).
  split; [exact R | split; [rewrite R in L; exact L | exact (I _ _ _ _ R)]].
Defined.

Lemma get_not_null (j : json) (key : jsstring) :
  j <> JNull -> exists v, get (Val j) key = Normal v.
Proof.
  intros N. destruct j; try congruence; cbn [get]; eauto;
    repeat match goal with
           | |- context [if ?b then _ else _] => destruct b
           end; eauto.
Qed.

Lemma header_ok_not_null (j : json) :
  j <> JNull -> exists b, header_ok (Val j) = Normal b.
Proof.
  intros N. unfold header_ok.
  destruct (get_not_null j (lit "type") N) as [ty ->].
  destruct (get_not_null j (lit "v") N) as [v ->].
  cbn [bind]. destruct (negb (is_str ty (lit "vault_share"))); eauto.
Qed.

(** What C6 asks for does hold of every payload but [null]: when it does
    not parse, or parses to anything else without the right type and
    version, the session is exactly as before. *)
Lemma malformed_ignored (s : session) (conn : nat) (payload : option json)
    (clock : nat -> Z) (fs_ok : bool) :
  valid_header payload = false -> payload <> Some JNull ->
  step s (Data conn payload clock fs_ok) = s.
Proof.
  intros V N. open_session s. run_step.
  destruct st; try reflexivity.
  assert (E : onData r conn payload clock fs_ok = (r, [], Returned)).
  { unfold onData. destruct r; [reflexivity |].
    destruct payload as [p |]; [| reflexivity].
    assert (NP : p <> JNull) by congruence.
    destruct (header_ok_not_null p NP) as [b Hb].
    unfold valid_header in V. rewrite Hb in V |- *.
    destruct b; [discriminate | reflexivity]. }
  rewrite E. now rewrite app_nil_r.
Qed.

(** C6 -- the payload [null] parses, has no [type] and no [v], and is
    not ignored: reading [msg.type] throws, the promise of the callback
    is rejected with nobody to handle it, and the process goes down
    instead of waiting on. *)
Theorem null_payload_not_ignored (s : session) (conn : nat)
    (clock : nat -> Z) (fs_ok : bool) :
  status_of s = Running -> received s = false ->
  valid_header (Some JNull) = false /\
  onData (received s) conn (Some JNull) clock fs_ok = (false, [], Rejected) /\
  status_of (step s (Data conn (Some JNull) clock fs_ok)) = Crashed /\
  trace (step s (Data conn (Some JNull) clock fs_ok)) = trace s ++ [Unhandled] /\
  step s (Data conn (Some JNull) clock fs_ok) <> s.
Proof.
  open_session s. intros -> ->. run_step. cbn.
  repeat split. discriminate.
Qed.

Lemma null_payload_not_ignored_witness :
  status_of init = Running /\ received init = false /\
  status_of (step init (Data 0 (Some JNull) sample_clock true)) = Crashed.
Proof.
  split; [reflexivity | split; [reflexivity |]].
  exact (proj1 (proj2 (proj2
           (null_payload_not_ignored init 0 sample_clock true eq_refl eq_refl)))).
Defined.

Lemma no_valid_not_received (pre : list event) :
  (forall e, In e pre -> is_data_valid e = false) ->
  received (run init pre) = false.
Proof.
  induction pre as [| e pre IH] using rev_ind; [reflexivity |].
  intros H. rewrite run_snoc.
  assert (IH' : received (run init pre) = false)
    by (apply IH; intros; apply H, in_or_app; now left).
  destruct (step_effect (run init pre) e) as [(R & _) | (_ & _ & V & _)].
  - now rewrite R.
  - rewrite H in V by (apply in_or_app; right; now left). discriminate.
Qed.

(** While the process runs and the timer has not fired, the timer is
    pending once the join has been flushed, and no exit(1) is on its way. *)
Lemma timer_state (pre : list event) :
  status_of (run init pre) = Running -> ~ In Timer60 pre ->
  (In Flushed pre -> joined (run init pre) = true) /\
  (joined (run init pre) = true -> timer60 (run init pre) = true) /\
  exit1 (run init pre) = 0%nat.
Proof.
  induction pre as [| e pre IH] using rev_ind.
  - intros _ _. cbn. repeat split; [intros [] | discriminate].
  - rewrite run_snoc. intros R NT.
    assert (R' : status_of (run init pre) = Running)
      by now apply step_running in R.
    assert (NT' : ~ In Timer60 pre)
      by (intros I; apply NT, in_or_app; now left).
    assert (NE : e <> Timer60)
      by (intros ->; apply NT, in_or_app; right; now left).
    destruct (IH R' NT') as (F & J & X). clear IH.
    open_session (run init pre). subst st e1.
    unfold step in *.
    cbn [status_of received joined timer60 grace exit0 exit1 trace] in *.
    destruct e as [conn payload clock fs_ok | | | | |]; try congruence.
    + destruct (onData r conn payload clock fs_ok) as [[r' acts] [| |]];
        cbn [status_of joined timer60 exit1] in *; try discriminate;
        (repeat split; [intros I; apply in_app_or in I as [I | [I | []]];
                                   [auto | discriminate] | assumption]).
    + destruct j; cbn [joined timer60 exit1]; repeat split; auto.
    + destruct g; cbn [joined timer60 exit1]; repeat split; auto;
        intros I; apply in_app_or in I as [I | [I | []]]; auto; discriminate.
    + destruct e0; cbn [status_of joined timer60 exit1] in *; try discriminate.
      repeat split; auto.
      intros I; apply in_app_or in I as [I | [I | []]]; auto; discriminate.
    + cbn [joined timer60 exit1]. repeat split; auto.
      intros I; apply in_app_or in I as [I | [I | []]]; auto; discriminate.
Qed.

(** Once the latch is set and no exit(1) is on its way, the process can
    only keep running or end with exit(0). *)
Lemma latched_exits_zero (s : session) (evs : list event) :
  received s = true -> exit1 s = 0%nat ->
  status_of s = Running \/ status_of s = Exited 0 ->
  received (run s evs) = true /\ exit1 (run s evs) = 0%nat /\
  (status_of (run s evs) = Running \/ status_of (run s evs) = Exited 0).
Proof.
  intros R X S. induction evs as [| e evs IH] using rev_ind; [auto |].
  rewrite run_snoc. destruct IH as (R' & X' & S').
  destruct S' as [S' | S'];
    [| rewrite step_stopped by (rewrite S'; discriminate); auto].
  destruct e as [conn payload clock fs_ok | | | | |];
    [rewrite received_ignores by assumption; auto | ..];
    open_session (run s evs); subst; run_step.
  - destruct j; cbn; auto.
  - destruct t; cbn; auto.
  - destruct g; cbn; auto.
  - destruct e0; cbn; auto.
  - cbn. auto.
Qed.

Lemma timeout_fires (s : session) :
  status_of s = Running -> received s = false -> timer60 s = true ->
  trace (step s Timer60) = trace s ++ [Warn; SwarmDestroy] /\
  status_of (run s [Timer60; Destroyed1]) = Exited 1.
Proof.
  open_session s. intros -> -> ->. split; reflexivity.
Qed.

Lemma latched_timeout_silent (s : session) :
  received s = true ->
  trace (step s Timer60) = trace s /\
  exit1 (step s Timer60) = exit1 s /\
  status_of (step s Timer60) = status_of s.
Proof.
  open_session s. intros ->. run_step.
  destruct st; cbn; auto. destruct t; cbn; auto.
Qed.

Lemma accepted_is_suspended (s : session) (conn : nat)
    (payload : option json) (clock : nat -> Z) (fs_ok : bool) :
  status_of s = Running -> received s = false ->
  received (step s (Data conn payload clock fs_ok)) = true ->
  status_of (step s (Data conn payload clock fs_ok)) = Running ->
  (exists name vault,
     trace (step s (Data conn payload clock fs_ok)) =
       trace s ++ [Latch; WriteFile name vault; ConnWrite conn; SetTimeout 500])
  /\ grace (step s (Data conn payload clock fs_ok)) = S (grace s)
  /\ exit1 (step s (Data conn payload clock fs_ok)) = exit1 s.
Proof.
  open_session s. intros -> ->. run_step.
  destruct (onData_cases false conn payload clock fs_ok)
    as [[_ [E | E]] | (_ & _ & [E | (name & vault & E)])]; rewrite E;
    cbn [status_of received grace exit1 trace]; try discriminate.
  intros _ _. split; [now exists name, vault | split; reflexivity].
Qed.

(** The 60 s timer is registered when the join is flushed. *)
Lemma joined_timer (pre : list event) :
  joined (run init pre) = true ->
  In (SetTimeout 60000) (trace (run init pre)).
Proof.
  induction pre as [| e pre IH] using rev_ind; [discriminate |].
  rewrite run_snoc. open_session (run init pre). run_step.
  destruct st; [| exact IH | exact IH].
  destruct e as [conn payload clock fs_ok | | | | |].
  - destruct (onData r conn payload clock fs_ok) as [[r' acts] [| |]];
      cbn [joined trace]; intros J; apply in_or_app; left; auto.
  - destruct j; cbn [joined trace]; [exact IH |].
    intros _. apply in_or_app. right. now left.
  - destruct t; [destruct (negb r) |]; cbn [joined trace]; intros J;
      try (apply in_or_app; left); auto.
  - destruct g; cbn [joined trace]; intros J;
      try (apply in_or_app; left); auto.
  - destruct e0; cbn [joined trace]; intros J;
      try (apply in_or_app; left); auto.
  - destruct e1; cbn [joined trace]; intros J;
      try (apply in_or_app; left); auto.
Qed.

(** A session that has been given no share message has nothing pending
    that ends in exit(0). *)
Lemma idle_state (evs : list event) :
  (forall e, In e evs -> is_data_valid e = false) ->
  received (run init evs) = false /\ grace (run init evs) = 0%nat /\
  exit0 (run init evs) = 0%nat /\ status_of (run init evs) <> Exited 0.
Proof.
  induction evs as [| e evs IH] using rev_ind.
  - intros _. cbn. repeat split. discriminate.
  - intros H. rewrite run_snoc.
    assert (H' : forall e, In e evs -> is_data_valid e = false)
      by (intros; apply H, in_or_app; now left).
    assert (He : is_data_valid e = false)
      by (apply H, in_or_app; right; now left).
    destruct (IH H') as (R & G & X & S). clear IH.
    open_session (run init evs). subst r g e0. run_step.
    destruct st; [| auto | auto].
    destruct e as [conn payload clock fs_ok | | | | |].
    + cbn [is_data_valid] in He.
      destruct (onData_cases false conn payload clock fs_ok)
        as [[_ [E | E]] | (_ & V & _)]; [| | congruence]; rewrite E; cbn;
        repeat split; discriminate.
    + destruct j; cbn; repeat split; discriminate.
    + destruct t; cbn; repeat split; discriminate.
    + cbn; repeat split; discriminate.
    + cbn; repeat split; discriminate.
    + destruct e1; cbn; repeat split; discriminate.
Qed.

(** What C7 asks for does hold of a session that is given no share
    message after its timer has fired.  The timer is the [Timer60] event,
    registered with a delay of 60000 ms once the join is flushed.  In a
    session in which no share message has arrived when the timer fires, the
    time-out path runs (it warns, destroys the swarm and ends the process
    with exit(1), an outcome other than success); a session that accepts a
    vault (it sets the latch and persists the vault) before the timer fires
    ends with exit(0) and can end in no other way; whenever the latch is
    set, the timer does nothing; and a session that is given no share
    message at all never ends with exit(0).  (The user interrupt, which
    also ends in exit(0), is not among the events.) *)
Theorem receive_outcomes (pre : list event) :
  let s := run init pre in
  status_of s = Running -> ~ In Timer60 pre ->
  (forall e, In e pre -> is_data_valid e = false) ->
  (In Flushed pre ->
     In (SetTimeout 60000) (trace s) /\
     trace (step s Timer60) = trace s ++ [Warn; SwarmDestroy] /\
     status_of (run s [Timer60; Destroyed1]) = Exited 1 /\
     Exited 1 <> Exited 0) /\
  (forall conn payload clock fs_ok,
     let s' := step s (Data conn payload clock fs_ok) in
     received s' = true -> status_of s' = Running ->
     (exists name vault, In (WriteFile name vault) (trace s')) /\
     status_of (run s' [Grace; Destroyed0]) = Exited 0 /\
     (forall evs, status_of (run s' evs) = Running \/
                  status_of (run s' evs) = Exited 0)) /\
  (forall s0, received s0 = true ->
     trace (step s0 Timer60) = trace s0 /\
     exit1 (step s0 Timer60) = exit1 s0 /\
     status_of (step s0 Timer60) = status_of s0) /\
  (forall evs, (forall e, In e evs -> is_data_valid e = false) ->
     status_of (run init evs) <> Exited 0).
Proof.
  cbv zeta. intros R NT NV.
  pose proof (no_valid_not_received pre NV) as NR.
  destruct (timer_state pre R NT) as (F & J & X).
  split; [| split; [| split]].
  - intros IF. specialize (J (F IF)).
    destruct (timeout_fires (run init pre) R NR J) as [T E].
    repeat split; try assumption; try discriminate.
    apply joined_timer. auto.
  - intros conn payload clock fs_ok RS SS.
    destruct (accepted_is_suspended _ conn payload clock fs_ok R NR RS SS)
      as ((name & vault & T) & G & X').
    split; [| split].
    + exists name, vault. rewrite T. apply in_or_app. right. simpl. auto.
    + destruct (step (run init pre) (Data conn payload clock fs_ok))
        as [r st j t g e0 e1 tr].
      cbn [status_of received grace] in *. subst. reflexivity.
    + intros evs. apply latched_exits_zero; auto. congruence.
  - exact latched_timeout_silent.
  - intros evs H. apply (idle_state evs H).
Qed.

(** C7 -- the time-out is not final.  The callback of the timer tests
    [received] and starts the teardown, but sets nothing that the ['data']
    callback tests, and the ['data'] callback has no test for the time-out.
    So when nothing has arrived as the timer fires and a share message is
    delivered afterwards, before [swarm.destroy()] has resolved, the message
    is accepted: the latch is set, the vault is written and acknowledged.
    The process then ends with exit(1), after the warning that no sharer
    was found, although it has saved and acknowledged a vault; or, when the
    500 ms wait and the second teardown finish first, with exit(0) although
    it had timed out.  (That a connection can still deliver data while the
    swarm is being destroyed is how the session is modelled.) *)
Theorem late_share_after_timeout (s : session) (conn : nat) (m : json)
    (clock : nat -> Z) (name vault : value) :
  status_of s = Running -> received s = false -> timer60 s = true ->
  header_ok (Val m) = Normal true ->
  read_vault clock (Val m) = Normal (name, vault) ->
  let s1 := step s Timer60 in
  let s2 := step s1 (Data conn (Some m) clock true) in
  trace s1 = trace s ++ [Warn; SwarmDestroy] /\
  status_of s1 = Running /\ received s1 = false /\
  received s2 = true /\
  trace s2 = trace s1 ++ [Latch; WriteFile name vault; ConnWrite conn;
                          SetTimeout 500] /\
  status_of (step s2 Destroyed1) = Exited 1 /\
  status_of (run s2 [Grace; Destroyed0]) = Exited 0.
Proof.
  open_session s. intros -> -> -> H V. cbv zeta. run_step.
  cbn [negb]. run_step. unfold onData. rewrite H, V.
  cbn [received status_of trace]. repeat split.
Qed.

Lemma late_share_after_timeout_witness :
  let s := run init [Flushed] in
  let s2 := run init [Flushed; Timer60;
                      Data 1 (Some sample_share) sample_clock true] in
  status_of s = Running /\ received s = false /\ timer60 s = true /\
  header_ok (Val sample_share) = Normal true /\
  read_vault sample_clock (Val sample_share)
  = Normal (Val (JStr (lit "myteam")), Val sample_vault) /\
  In Warn (trace s2) /\
  In (WriteFile (Val (JStr (lit "myteam"))) (Val sample_vault)) (trace s2) /\
  status_of (step s2 Destroyed1) = Exited 1.
Proof.
  cbv zeta.
  assert (H : header_ok (Val sample_share) = Normal true) by reflexivity.
  assert (V : read_vault sample_clock (Val sample_share)
              = Normal (Val (JStr (lit "myteam")), Val sample_vault))
    by (vm_compute; reflexivity).
  split; [reflexivity |]. split; [reflexivity |]. split; [reflexivity |].
  split; [exact H |]. split; [exact V |].
  destruct (late_share_after_timeout (run init [Flushed]) 1 sample_share
              sample_clock _ _ eq_refl eq_refl eq_refl H V)
    as (_ & _ & _ & _ & T & X & _).
  split; [| split; [| exact X]].
  - change (run init [Flushed; Timer60;
                      Data 1 (Some sample_share) sample_clock true])
      with (step (step (run init [Flushed]) Timer60)
                 (Data 1 (Some sample_share) sample_clock true)).
    rewrite T. apply in_or_app. left. apply in_or_app. right. now left.
  - change (run init [Flushed; Timer60;
                      Data 1 (Some sample_share) sample_clock true])
      with (step (step (run init [Flushed]) Timer60)
                 (Data 1 (Some sample_share) sample_clock true)).
    rewrite T. apply in_or_app. right. right. now left.
Defined.

Lemma receive_outcomes_witness :
  let pre := [Data 0 None sample_clock true; Flushed;
              Data 1 (Some (JStr (lit "hello"))) sample_clock true] in
  status_of (run init pre) = Running /\ ~ In Timer60 pre /\
  (forall e, In e pre -> is_data_valid e = false) /\
  In Flushed pre /\
  status_of (run (run init pre) [Timer60; Destroyed1]) = Exited 1 /\
  status_of (run (step (run init pre) (Data 2 (Some sample_share) sample_clock true))
                 [Grace; Destroyed0]) = Exited 0.
Proof.
  cbv zeta.
  set (pre := [Data 0 None sample_clock true; Flushed;
               Data 1 (Some (JStr (lit "hello"))) sample_clock true]).
  assert (R : status_of (run init pre) = Running) by reflexivity.
  assert (NT : ~ In Timer60 pre).
  { intros [H | [H | [H | []]]]; discriminate H. }
  assert (NV : forall e, In e pre -> is_data_valid e = false).
  { intros e [<- | [<- | [<- | []]]]; reflexivity. }
  assert (IF : In Flushed pre) by (right; now left).
  destruct (receive_outcomes pre R NT NV) as (T & A & _).
  split; [exact R | split; [exact NT | split; [exact NV | split; [exact IF |]]]].
  split.
  - exact (proj1 (proj2 (proj2 (T IF)))).
  - exact (proj1 (proj2 (A 2%nat (Some sample_share) sample_clock true eq_refl eq_refl))).
Defined.

End Receive.

(** ** Published vectors for the primitives written out above *)

Section Vectors.

(** FIPS 180-4, SHA-1 of "abc". *)
Example sha1_abc :
  B4a.toString_hex (Sha1.sha1 (ascii_bytes "abc"))
  = lit "a9993e364706816aba3e25717850c26c9cd0d89d".
Proof. vm_compute. reflexivity. Qed.

(** RFC 2202, HMAC-SHA1 test case 2. *)
Example hmac_sha1_rfc2202 :
  B4a.toString_hex
    (hmacSha1 (ascii_bytes "Jefe") (ascii_bytes "what do ya want for nothing?"))
  = lit "effcdf6ae5eb2fa2d27416d5f184df9c259a7c79".
Proof. vm_compute. reflexivity. Qed.

(** RFC 6238, appendix B: the last six digits of 94287082, 07081804 and
    65353130 at 59 s, 1111111109 s and 20000000000 s. *)
Example totp_rfc6238 :
  totp rfc_secret 59000 = lit "287082" /\
  totp rfc_secret 1111111109000 = lit "081804" /\
  totp rfc_secret 20000000000000 = lit "353130".
Proof. vm_compute. repeat split. Qed.

(** BLAKE2b-256 of the empty message. *)
Example blake2b_256_empty :
  B4a.toString_hex (crypto_hash [])
  = lit "0e5751c026e543b2e8ab2eb06099daa1d1e5df47778f7787faab45cdf12fe3a8".
Proof. vm_compute. reflexivity. Qed.

End Vectors.

(** ** More on the Base32 codec *)

Section CodecMore.

Lemma decode_step_count (st : dstate) (ch : N) :
  is_alpha ch = true -> 0 <= d_bits st < 8 ->
  let st' := decode_step st ch in
  0 <= d_bits st' < 8 /\
  d_bits st' + 8 * Z.of_nat (List.length (d_output st'))
  = d_bits st + 8 * Z.of_nat (List.length (d_output st)) + 5.
Proof.
  intros Ha Hb. unfold is_alpha in Ha. unfold decode_step.
  destruct (indexOf ALPHABET ch =? -1); [discriminate |].
  destruct (d_bits st + 5 >=? 8) eqn:E; cbn [d_bits d_output].
  - rewrite length_app. cbn [List.length]. lia.
  - lia.
Qed.

Lemma decode_loop_count (s : jsstring) :
  forall st, forallb is_alpha s = true -> 0 <= d_bits st < 8 ->
  let st' := decode_loop s st in
  0 <= d_bits st' < 8 /\
  d_bits st' + 8 * Z.of_nat (List.length (d_output st'))
  = d_bits st + 8 * Z.of_nat (List.length (d_output st))
    + 5 * Z.of_nat (List.length s).
Proof.
  induction s as [| c s IH]; intros st Hs Hb.
  - cbn. lia.
  - cbn [forallb] in Hs. apply andb_prop in Hs. destruct Hs as [Hc Hs].
    destruct (decode_step_count st c Hc Hb) as [Hb' Hn].
    destruct (IH (decode_step st c) Hs Hb') as [Hb'' Hn'].
    unfold decode_loop in *. cbn [fold_left List.length]. split; [exact Hb'' |].
    rewrite Hn'. rewrite Nat2Z.inj_succ. lia.
Qed.

Lemma forallb_filter {A} (f : A -> bool) (l : list A) :
  forallb f (filter f l) = true.
Proof.
  induction l as [| a l IH]; [reflexivity |]. cbn [filter].
  destruct (f a) eqn:E; [cbn [forallb]; now rewrite E | exact IH].
Qed.

(** X1 --  [base32Decode] returns one byte for every eight bits it has read:
    a string whose upper-case form holds [n] characters of the alphabet
    decodes to [floor (5 n / 8)] bytes, whatever else it holds; the bits
    left over at the end are dropped. *)
Theorem base32Decode_length (str : jsstring) :
  Z.of_nat (List.length (base32Decode str))
  = 5 * Z.of_nat (List.length (filter is_alpha (toUpperCase str))) / 8.
Proof.
  rewrite base32Decode_alpha. unfold Buffer_from. rewrite length_map.
  destruct (decode_loop_count (filter is_alpha (toUpperCase str)) (mkD 0 0 [])
              (forallb_filter _ _)) as [Hb Hn]; [cbn; lia |].
  cbn [d_bits d_output List.length] in Hn.
  set (n := Z.of_nat (List.length (filter is_alpha (toUpperCase str)))) in *.
  set (st := decode_loop _ _) in *.
  apply Z.div_unique with (r := d_bits st); lia.
Qed.

Lemma In_below (n x : Z) : 0 <= x < n -> In x (below n).
Proof.
  intros H. unfold below. apply in_map_iff.
  exists (Z.to_nat x). split; [lia | apply in_seq; lia].
Qed.

(** Every state the two loops can be in together, and every next
    character. *)
Lemma rstep_ok_checked :
  forallb (fun be =>
    forallb (fun bd =>
      if (be + bd) mod 5 =? 0
      then forallb (fun pe =>
             forallb (fun pd => forallb (rstep_ok be pe bd pd) (below 32))
                     (below (2 ^ bd)))
             (below (2 ^ be))
      else true)
      (below 8))
    (below 5) = true.
Proof. vm_compute. reflexivity. Qed.

Lemma rstep_ok_all (be pe bd pd idx : Z) :
  0 <= be < 5 -> 0 <= bd < 8 -> (be + bd) mod 5 = 0 ->
  0 <= pe < 2 ^ be -> 0 <= pd < 2 ^ bd -> 0 <= idx < 32 ->
  rstep_ok be pe bd pd idx = true.
Proof.
  intros Hbe Hbd Hm Hpe Hpd Hi.
  pose proof rstep_ok_checked as A.
  rewrite forallb_forall in A. specialize (A be (In_below 5 be Hbe)).
  rewrite forallb_forall in A. specialize (A bd (In_below 8 bd Hbd)).
  rewrite Hm in A. change (0 =? 0) with true in A. cbv iota in A.
  rewrite forallb_forall in A. specialize (A pe (In_below _ pe Hpe)).
  rewrite forallb_forall in A. specialize (A pd (In_below _ pd Hpd)).
  rewrite forallb_forall in A. exact (A idx (In_below 32 idx Hi)).
Qed.

Lemma same_eq (a b : list Z) : same a b = true -> a = b.
Proof.
  revert b. induction a as [| x a IH]; intros [| y b]; cbn [same];
    try discriminate; [reflexivity |].
  intros H. apply andb_prop in H as [H1 H2]. apply Z.eqb_eq in H1.
  f_equal; [exact H1 | now apply IH].
Qed.

Lemma dec_on_snoc (idxs : list Z) (idx : Z) :
  dec_on (idxs ++ [idx]) = decode_loop (alphabet_at idx) (dec_on idxs).
Proof.
  unfold dec_on, decode_loop. rewrite flat_map_app, fold_left_app.
  cbn [flat_map]. now rewrite app_nil_r.
Qed.

Lemma in_range_bounds (i : Z) : in_range i = true -> 0 <= i < 32.
Proof.
  unfold in_range. intros H. apply andb_prop in H as [H1 H2].
  apply Z.leb_le in H1. apply Z.ltb_lt in H2. lia.
Qed.

Lemma is_byte_bounds (y : Z) : is_byte y = true -> 0 <= y < 256.
Proof.
  unfold is_byte. intros H. apply andb_prop in H as [H1 H2].
  apply Z.leb_le in H1. apply Z.ltb_lt in H2. lia.
Qed.

(** The encoder follows the decoder: it has written again every character
    but those in flight. *)
Lemma codec_coupled_back (idxs : list Z) :
  forallb in_range idxs = true ->
  exists be pe bd pd chars,
    0 <= be < 5 /\ 0 <= bd < 8 /\ (be + bd) mod 5 = 0 /\
    0 <= pe < 2 ^ be /\ 0 <= pd < 2 ^ bd /\
    dview (dec_on idxs) = (bd, pd) /\
    eview (enc_on idxs) = (be, pe) /\
    e_result (enc_on idxs) = flat_map alphabet_at chars /\
    chars ++ flight be pe bd pd = idxs /\
    5 * Z.of_nat (List.length idxs)
    = 8 * Z.of_nat (List.length (d_output (dec_on idxs))) + bd.
Proof.
  induction idxs as [| idx idxs IH] using rev_ind; intros Hr.
  - exists 0, 0, 0, 0, []. cbn. repeat split; lia.
  - rewrite forallb_app in Hr. apply andb_prop in Hr as [Hr Hi].
    cbn [forallb] in Hi. rewrite andb_true_r in Hi.
    destruct (IH Hr)
      as (be & pe & bd & pd & chars & Hbe & Hbd & Hm & Hpe & Hpd & DV & EV
          & RES & FL & CNT).
    pose proof (rstep_ok_all be pe bd pd idx Hbe Hbd Hm Hpe Hpd
                  (in_range_bounds idx Hi)) as OK.
    unfold rstep_ok in OK.
    assert (DB : 0 <= d_bits (dec_on idxs) < 8).
    { unfold dview in DV. injection DV as -> _. exact Hbd. }
    assert (EB : 0 <= e_bits (enc_on idxs) < 5).
    { unfold eview in EV. injection EV as -> _. exact Hbe. }
    destruct (decode_loop_view [idx] (dec_on idxs)) as [DV' OUT'];
      [cbn [forallb]; now rewrite Hi | exact DB |].
    cbn [flat_map] in DV', OUT'. rewrite app_nil_r in DV', OUT'.
    rewrite <- dec_on_snoc in DV', OUT'.
    rewrite DV, ndec_run_single in DV', OUT'. cbn [fst snd] in DV', OUT'.
    destruct (ndec (bd, pd) idx) as [[bd' pd'] o] eqn:ND.
    cbn [fst snd] in DV', OUT'.
    destruct (nenc_run (be, pe) o) as [[be' pe'] cs] eqn:NE.
    repeat (apply andb_prop in OK as [OK ?]).
    repeat match goal with
           | H : (_ =? _) = true |- _ => apply Z.eqb_eq in H
           | H : (_ <=? _) = true |- _ => apply Z.leb_le in H
           | H : (_ <? _) = true |- _ => apply Z.ltb_lt in H
           | H : same _ _ = true |- _ => apply same_eq in H
           end.
    assert (EN : eview (enc_on (idxs ++ [idx])) = (be', pe') /\
                 e_result (enc_on (idxs ++ [idx]))
                 = e_result (enc_on idxs) ++ flat_map alphabet_at cs).
    { unfold enc_on at 1 2. rewrite OUT'. unfold Buffer_from.
      rewrite map_app, fold_left_app. fold (Buffer_from (d_output (dec_on idxs))).
      fold (enc_on idxs).
      unfold ndec in ND.
      destruct (bd + 5 >=? 8); injection ND as <- <- <-.
      - cbn [List.map fold_left].
        match goal with H : forallb is_byte _ = true |- _ =>
          cbn [forallb] in H; rewrite andb_true_r in H;
          apply is_byte_bounds in H; rename H into Hy end.
        destruct (encode_step_view (enc_on idxs) (byte_of_Z ((pd * 32 + idx) / 2 ^ (bd - 3))) EB)
          as [EV' RES'].
        rewrite Z_of_byte_of_Z in EV', RES' by exact Hy.
        rewrite EV in EV', RES'.
        unfold nenc_run in NE. cbn [fold_left fst snd app] in NE.
        destruct (nenc (be, pe) ((pd * 32 + idx) / 2 ^ (bd - 3))) as [s' o'].
        injection NE as -> ->. cbn [fst snd] in EV', RES'.
        split; assumption.
      - cbn [List.map fold_left]. unfold nenc_run in NE. cbn [fold_left] in NE.
        injection NE as <- <- <-. rewrite app_nil_r. split; [exact EV | reflexivity]. }
    destruct EN as [EV2 RES2].
    exists be', pe', bd', pd', (chars ++ cs).
    repeat split; try lia; try assumption.
    + rewrite RES2, RES, flat_map_app. reflexivity.
    + rewrite <- app_assoc.
      match goal with H : cs ++ _ = _ |- _ => rewrite H end.
      rewrite app_assoc, FL. reflexivity.
    + rewrite OUT', !length_app. cbn [List.length].
      unfold ndec in ND. destruct (Z.geb_spec (bd + 5) 8);
        injection ND as <- <- <-; cbn [List.length]; lia.
Qed.

Lemma alphabet_index (c : N) :
  In c ALPHABET ->
  in_range (indexOf ALPHABET c) = true /\
  alphabet_at (indexOf ALPHABET c) = [c] /\ is_alpha c = true.
Proof.
  intros H.
  assert (A : forallb (fun c =>
                in_range (indexOf ALPHABET c)
                && nlist_eqb (alphabet_at (indexOf ALPHABET c)) [c]
                && is_alpha c) ALPHABET = true) by (vm_compute; reflexivity).
  rewrite forallb_forall in A. specialize (A c H).
  apply andb_prop in A as [A A3]. apply andb_prop in A as [A1 A2].
  unfold nlist_eqb in A2.
  destruct (list_eq_dec N.eq_dec _ _) as [E |]; [| discriminate].
  now repeat split.
Qed.

Lemma alphabet_string (s : jsstring) :
  Forall (fun c => In c ALPHABET) s ->
  forallb in_range (List.map (indexOf ALPHABET) s) = true /\
  flat_map alphabet_at (List.map (indexOf ALPHABET) s) = s /\
  forallb is_alpha s = true.
Proof.
  induction 1 as [| c s Hc _ (I1 & I2 & I3)]; [now repeat split |].
  destruct (alphabet_index c Hc) as (A1 & A2 & A3).
  cbn [List.map forallb flat_map]. rewrite A1, A2, A3, I1, I2, I3.
  now repeat split.
Qed.

Lemma alpha_in (s : jsstring) :
  forallb is_alpha s = true -> Forall (fun c => In c ALPHABET) s.
Proof.
  intros H. apply Forall_forall. intros c Hc.
  rewrite forallb_forall in H. now apply is_alpha_In, H.
Qed.

Lemma encode_decoded (s : jsstring) :
  canonical s -> base32Encode (base32Decode s) = s.
Proof.
  intros [Hal Hl].
  destruct (alphabet_string s (alpha_in s Hal)) as (Hr & Hs & _).
  set (idxs := List.map (indexOf ALPHABET) s) in *.
  assert (Ed : base32Decode s = Buffer_from (d_output (dec_on idxs))).
  { rewrite base32Decode_alpha, (toUpperCase_alpha_run s Hal),
      (filter_alpha_run s Hal). unfold dec_on. now rewrite Hs. }
  destruct (codec_coupled_back idxs Hr)
    as (be & pe & bd & pd & chars & Hbe & Hbd & Hm & Hpe & Hpd & DV & EV
        & RES & FL & CNT).
  assert (Ln : List.length idxs = List.length s)
    by (unfold idxs; apply length_map).
  rewrite Ln in CNT.
  assert (Bd : bd = 0).
  { apply Z.mod_divide in Hl; [| lia]. destruct Hl as [k Hk]. lia. }
  subst bd.
  assert (Be : be = 0).
  { rewrite Z.add_0_r in Hm. rewrite Z.mod_small in Hm by lia. exact Hm. }
  subst be. cbn [flight Z.add Z.eqb] in FL. rewrite app_nil_r in FL. subst chars.
  rewrite Ed. unfold base32Encode. fold (enc_on idxs).
  unfold eview in EV. injection EV as EB _. rewrite EB. cbn [Z.gtb Z.compare].
  rewrite RES, Hs.
  destruct s as [| c s']; [reflexivity |].
  cbn [pad_while]. rewrite Hl. reflexivity.
Qed.

(** X2 --  The round trip the other way: a string made of characters of the
    alphabet only, whose length is a multiple of 8, is what the encoder of
    [generateSecret] makes of the bytes that [base32Decode] reads from it.
    Two such strings that decode to the same bytes are therefore the same
    string. *)
Theorem canonical_secret_round_trip (s : jsstring) :
  canonical s ->
  base32Encode (base32Decode s) = s /\
  forall s', canonical s' -> base32Decode s = base32Decode s' -> s = s'.
Proof.
  intros C. split; [now apply encode_decoded |].
  intros s' C' E.
  rewrite <- (encode_decoded s C), <- (encode_decoded s' C'). now rewrite E.
Qed.

Lemma canonical_secret_round_trip_witness :
  canonical (lit "JBSWY3DPEHPK3PXP") /\
  base32Encode (base32Decode (lit "JBSWY3DPEHPK3PXP")) = lit "JBSWY3DPEHPK3PXP".
Proof.
  assert (C : canonical (lit "JBSWY3DPEHPK3PXP")) by (split; reflexivity).
  split; [exact C |].
  exact (proj1 (canonical_secret_round_trip (lit "JBSWY3DPEHPK3PXP") C)).
Defined.

End CodecMore.

(** ** Codes, their window and the countdown *)

Section Countdown.

Lemma pretty_six (code : jsstring) :
  List.length code = 6%nat ->
  exists a b, pretty code = a ++ [32%N] ++ b /\ code = a ++ b /\
              List.length a = 3%nat /\ List.length b = 3%nat.
Proof.
  intros H.
  destruct code as [| c0 [| c1 [| c2 [| c3 [| c4 [| c5 [| c6 r]]]]]]];
    try discriminate.
  exists [c0; c1; c2], [c3; c4; c5]. repeat split.
Qed.

Lemma totp_shape (secret : jsstring) (epochMs : Z) :
  List.length (totp secret epochMs) = 6%nat /\
  forallb is_digit (totp secret epochMs) = true /\
  exists a b,
    pretty (totp secret epochMs) = a ++ [32%N] ++ b /\
    totp secret epochMs = a ++ b /\
    List.length a = 3%nat /\ List.length b = 3%nat.
Proof.
  rewrite totp_unfold.
  destruct (totp_with_key_six (base32Decode (remove_spaces secret)) epochMs)
    as [Hl Hd].
  split; [exact Hl | split; [exact Hd |]]. now apply pretty_six.
Qed.

(** X3 --  For every secret and every time, [totp] returns exactly six
    decimal digits, and the form in which [printOTPTable] and [runReceive]
    show it is its first three digits, a space and its last three. *)
Theorem totp_six_digits (secret : jsstring) (epochMs : Z) :
  List.length (totp secret epochMs) = 6%nat /\
  forallb is_digit (totp secret epochMs) = true /\
  exists a b,
    pretty (totp secret epochMs) = a ++ [32%N] ++ b /\
    totp secret epochMs = a ++ b /\
    List.length a = 3%nat /\ List.length b = 3%nat.
Proof. exact (totp_shape secret epochMs). Qed.

Lemma all_from_spec (n : nat) (p : N -> bool) :
  forall c x, all_from n c p = true ->
    (c <= x < c + N.of_nat n)%N -> p x = true.
Proof.
  induction n as [| n IH]; intros c x H Hx; [lia |].
  cbn [all_from] in H. apply andb_prop in H as [H1 H2].
  destruct (N.eq_dec x c) as [-> | Hne]; [exact H1 |].
  apply (IH (N.succ c)); [exact H2 | lia].
Qed.

Lemma all_units_spec (p : N -> bool) (x : N) :
  all_units p = true -> (x < 65536)%N -> p x = true.
Proof.
  intros H Hx. apply (all_from_spec _ p 0%N x H).
  change (N.of_nat (Nat.pow 2 16)) with 65536%N. lia.
Qed.

Lemma upper_unit_big (c : N) : (65536 <= c)%N -> upper_unit c = [c].
Proof. intros H. unfold upper_unit. decide_tests. reflexivity. Qed.

Lemma upper_unit_idem (c : N) :
  flat_map upper_unit (upper_unit c) = upper_unit c.
Proof.
  destruct (N.lt_ge_cases c 65536) as [H | H].
  - assert (A : all_units (fun c =>
        nlist_eqb (flat_map upper_unit (upper_unit c)) (upper_unit c)) = true)
      by (vm_compute; reflexivity).
    pose proof (all_units_spec _ c A H) as B. cbv beta in B.
    unfold nlist_eqb in B.
    destruct (list_eq_dec N.eq_dec _ _); [assumption | discriminate].
  - rewrite (upper_unit_big c H). cbn [flat_map]. rewrite (upper_unit_big c H).
    reflexivity.
Qed.

Lemma toUpperCase_idem (s : jsstring) :
  toUpperCase (toUpperCase s) = toUpperCase s.
Proof.
  unfold toUpperCase. induction s as [| c s IH]; [reflexivity |].
  cbn [flat_map]. rewrite flat_map_app, IH, upper_unit_idem. reflexivity.
Qed.

Lemma trimStart_split (s : jsstring) :
  exists l, s = l ++ trimStart s /\ forallb is_space l = true.
Proof.
  induction s as [| c s IH]; [now exists [] |].
  cbn [trimStart]. destruct (is_space c) eqn:E; [| now exists []].
  destruct IH as (l & El & Hl). exists (c :: l). split.
  - cbn [app]. now f_equal.
  - cbn [forallb]. now rewrite E.
Qed.

Lemma forallb_rev {A} (f : A -> bool) (l : list A) :
  forallb f (rev l) = forallb f l.
Proof.
  induction l as [| a l IH]; [reflexivity |].
  cbn [rev forallb]. rewrite forallb_app, IH. cbn [forallb].
  rewrite andb_true_r. apply andb_comm.
Qed.

Lemma trim_split (s : jsstring) :
  exists l r, s = l ++ trim s ++ r /\
    forallb is_space l = true /\ forallb is_space r = true.
Proof.
  unfold trim, trimEnd.
  destruct (trimStart_split s) as (l & El & Hl).
  destruct (trimStart_split (rev (trimStart s))) as (r & Er & Hr).
  exists l, (rev r). repeat split; [| exact Hl | now rewrite forallb_rev].
  rewrite El at 1. f_equal.
  rewrite <- (rev_involutive (trimStart s)) at 1. rewrite Er at 1.
  now rewrite rev_app_distr.
Qed.

Lemma spaces_invisible (l : jsstring) :
  forallb is_space l = true -> filter is_alpha (toUpperCase l) = [].
Proof.
  unfold toUpperCase. induction l as [| c l IH]; [reflexivity |].
  cbn [forallb flat_map]. intros H. apply andb_prop in H as [H1 H2].
  destruct (space_skipped c H1) as [U A]. rewrite U. cbn [app filter].
  rewrite A. now apply IH.
Qed.

Lemma nlist_eqb_eq (a b : list N) : nlist_eqb a b = true -> a = b.
Proof.
  unfold nlist_eqb. now destruct (list_eq_dec N.eq_dec a b).
Qed.

Lemma run_all_spec (p : N -> N -> bool) (r : Unicode.run) (c : N) :
  run_all p r = true -> Unicode.in_run c r = true ->
  let '(first, _, _, target) := r in p c (target + (c - first))%N = true.
Proof.
  destruct r as [[[first last] step] target]. unfold run_all, Unicode.in_run.
  intros A H. apply andb_prop in H as [H M]. apply andb_prop in H as [F L].
  apply N.leb_le in F, L. apply N.eqb_eq in M.
  rewrite forallb_forall in A.
  assert (E : (c - first = step * ((c - first) / step))%N).
  { pose proof (N.Div0.div_mod (c - first) step) as D.
    rewrite M, N.add_0_r in D. exact D. }
  specialize (A (N.to_nat ((c - first) / step))).
  rewrite N2Nat.id, <- E in A.
  replace (first + (c - first))%N with c in A by lia.
  apply A. apply in_seq.
  assert (B : ((c - first) / step <= (last - first) / step)%N)
    by (apply N.Div0.div_le_mono; lia).
  clear - B. set (k := ((c - first) / step)%N) in *.
  set (K := ((last - first) / step)%N) in *. clearbody k K. lia.
Qed.

(** The two tables of upper-case forms agree on what the decoder sees:
    a code point and its upper-case form in full hold the same characters
    of the alphabet once they are upper-cased by [JS.upper_unit]. *)
Lemma simple_checked :
  forallb (run_all (fun c c' =>
             nlist_eqb (filter is_alpha (upper_unit c'))
                       (filter is_alpha (upper_unit c))))
          Unicode.simple = true.
Proof. vm_compute. reflexivity. Qed.

Lemma special_checked :
  forallb (fun p =>
             nlist_eqb (filter is_alpha (toUpperCase (snd p)))
                       (filter is_alpha (upper_unit (fst p))))
          Unicode.special = true.
Proof. vm_compute. reflexivity. Qed.

Lemma supplementary_checked :
  forallb (fun r : Unicode.run =>
             let '(first, last, _, target) := r in
             (target + (last - first) <=? 1114111)%N)
          Unicode.supplementary = true.
Proof. vm_compute. reflexivity. Qed.

Lemma upper_unit_full (c : N) :
  filter is_alpha (toUpperCase (Unicode.upper_unit c))
  = filter is_alpha (upper_unit c).
Proof.
  unfold Unicode.upper_unit.
  destruct (find _ Unicode.special) as [[k l] |] eqn:F.
  - apply find_some in F as [I K]. cbn [fst] in K. apply N.eqb_eq in K.
    subst k. pose proof special_checked as A. rewrite forallb_forall in A.
    exact (nlist_eqb_eq _ _ (A _ I)).
  - unfold Unicode.simple_upper, toUpperCase. cbn [flat_map].
    rewrite app_nil_r.
    destruct (find (Unicode.in_run c) Unicode.simple)
      as [[[[first last] step] target] |] eqn:R; [| reflexivity].
    apply find_some in R as [I H].
    pose proof simple_checked as A. rewrite forallb_forall in A.
    pose proof (run_all_spec _ _ c (A _ I) H) as B. cbv beta iota in B.
    exact (nlist_eqb_eq _ _ B).
Qed.

Lemma surrogate_invisible (u : N) :
  (55296 <= u <= 57343)%N -> filter is_alpha (upper_unit u) = [].
Proof.
  intros H.
  assert (A : all_units (fun u =>
                implb ((55296 <=? u) && (u <=? 57343))%N
                      (nlist_eqb (filter is_alpha (upper_unit u)) [])) = true)
    by (vm_compute; reflexivity).
  pose proof (all_units_spec _ u A ltac:(lia)) as B. cbv beta in B.
  rewrite (proj2 (N.leb_le 55296 u)), (proj2 (N.leb_le u 57343)) in B by lia.
  exact (nlist_eqb_eq _ _ B).
Qed.

Lemma simple_upper_supplementary (cp : N) :
  (cp <= 1114111)%N ->
  (Unicode.simple_upper Unicode.supplementary cp <= 1114111)%N.
Proof.
  intros H. unfold Unicode.simple_upper.
  destruct (find (Unicode.in_run cp) Unicode.supplementary)
    as [[[[first last] step] target] |] eqn:R; [| exact H].
  apply find_some in R as [I R]. pose proof supplementary_checked as A.
  rewrite forallb_forall in A. specialize (A _ I). cbv beta iota in A.
  apply N.leb_le in A. unfold Unicode.in_run in R.
  apply andb_prop in R as [R _]. apply andb_prop in R as [F L].
  apply N.leb_le in F, L. lia.
Qed.

Lemma upper_pair_invisible (hi lo : N) :
  Unicode.is_high hi = true -> Unicode.is_low lo = true ->
  filter is_alpha (toUpperCase (Unicode.upper_pair hi lo)) = [] /\
  filter is_alpha (toUpperCase [hi; lo]) = [].
Proof.
  unfold Unicode.is_high, Unicode.is_low. intros Hh Hl.
  apply andb_prop in Hh as [H1 H2]. apply andb_prop in Hl as [L1 L2].
  apply N.leb_le in H1, H2, L1, L2.
  unfold toUpperCase, Unicode.upper_pair, Unicode.units_of.
  cbn [flat_map]. rewrite !app_nil_r, !filter_app.
  assert (B : (Unicode.simple_upper Unicode.supplementary
                 (Unicode.code_point hi lo) <= 1114111)%N)
    by (apply simple_upper_supplementary; unfold Unicode.code_point; lia).
  set (cp := Unicode.simple_upper Unicode.supplementary
               (Unicode.code_point hi lo)) in *. clearbody cp.
  assert (D : ((cp - 65536) / 1024 <= 1023)%N).
  { apply N.lt_succ_r. apply N.Div0.div_lt_upper_bound. lia. }
  pose proof (N.mod_lt (cp - 65536) 1024 ltac:(lia)) as M.
  set (q := ((cp - 65536) / 1024)%N) in *.
  set (r := ((cp - 65536) mod 1024)%N) in *. clearbody q r.
  rewrite !surrogate_invisible by lia. split; reflexivity.
Qed.

Lemma toUpperCase_full_pair (c d : N) (rest : jsstring) :
  Unicode.toUpperCase (c :: d :: rest)
  = if Unicode.is_high c && Unicode.is_low d
    then Unicode.upper_pair c d ++ Unicode.toUpperCase rest
    else Unicode.upper_unit c ++ Unicode.toUpperCase (d :: rest).
Proof. reflexivity. Qed.

(** Upper-casing in full first changes nothing for the decoder. *)
Lemma upper_full_invisible (s : jsstring) :
  filter is_alpha (toUpperCase (Unicode.toUpperCase s))
  = filter is_alpha (toUpperCase s).
Proof.
  assert (G : forall n s, (List.length s <= n)%nat ->
                filter is_alpha (toUpperCase (Unicode.toUpperCase s))
                = filter is_alpha (toUpperCase s)).
  { clear s. induction n as [| n IH]; intros s L.
    - destruct s; [reflexivity | cbn in L; lia].
    - destruct s as [| c [| d rest]]; [reflexivity | |].
      + cbn [Unicode.toUpperCase]. rewrite upper_unit_full.
        unfold toUpperCase. cbn [flat_map]. now rewrite app_nil_r.
      + rewrite toUpperCase_full_pair.
        destruct (Unicode.is_high c && Unicode.is_low d) eqn:P.
        * apply andb_prop in P as [Pc Pd].
          destruct (upper_pair_invisible c d Pc Pd) as [U V].
          change (c :: d :: rest) with ([c; d] ++ rest).
          rewrite !toUpperCase_app, !filter_app, U, V.
          cbn [app]. apply IH. cbn [List.length] in L. lia.
        * change (c :: d :: rest) with ([c] ++ (d :: rest)).
          rewrite !toUpperCase_app, !filter_app, upper_unit_full.
          f_equal.
          -- unfold toUpperCase. cbn [flat_map]. now rewrite app_nil_r.
          -- apply IH. cbn [List.length] in *. lia. }
  exact (G (List.length s) s (Nat.le_refl _)).
Qed.

(** X4 --  What [runSetup] stores for a secret typed by the user (trimmed,
    upper-cased, white space removed) decodes to the same key as the line
    typed, and so gives the same code at every time. *)
Theorem typed_secret_same_key (a : jsstring) :
  base32Decode (typed_secret a) = base32Decode a /\
  forall epochMs, totp (typed_secret a) epochMs = totp a epochMs.
Proof.
  assert (E : base32Decode (typed_secret a) = base32Decode a).
  { unfold typed_secret. rewrite !base32Decode_alpha.
    rewrite filter_alpha_upper_spaces, upper_full_invisible.
    destruct (trim_split a) as (l & r & Ea & Hl & Hr).
    rewrite Ea at 2. rewrite !toUpperCase_app, !filter_app.
    now rewrite (spaces_invisible l Hl), (spaces_invisible r Hr), app_nil_r. }
  split; [exact E |]. intros t.
  now rewrite !totp_unfold, !base32Decode_remove_spaces, E.
Qed.

Lemma secondsRemaining_bounds (now : Z) : 1 <= secondsRemaining now <= 59.
Proof.
  unfold secondsRemaining.
  pose proof (Z.rem_bound_abs (now / 1000) 30 ltac:(lia)). lia.
Qed.

Lemma secondsRemaining_range (now : Z) :
  0 <= now -> 1 <= secondsRemaining now <= 30.
Proof.
  intros H. unfold secondsRemaining.
  assert (0 <= now / 1000) by (apply Z.div_pos; lia).
  rewrite Z.rem_mod_nonneg by lia.
  pose proof (Z.mod_pos_bound (now / 1000) 30 ltac:(lia)). lia.
Qed.

Lemma bar_ok_all (rem : Z) : 1 <= rem <= 59 -> bar_ok rem = true.
Proof.
  intros H.
  assert (A : forallb bar_ok (List.map Z.of_nat (seq 1 59)) = true)
    by (vm_compute; reflexivity).
  rewrite forallb_forall in A. apply A. apply in_map_iff.
  exists (Z.to_nat rem). split; [lia | apply in_seq; lia].
Qed.

Lemma bar_cells (now : Z) :
  (0 <= now ->
   exists bar, countdownBar now = Normal bar /\
     (count_unit 9608 bar + count_unit 9617 bar = 20)%nat /\
     (1 <= count_unit 9608 bar)%nat /\
     Z.of_nat (count_unit 9608 bar) = (2 * secondsRemaining now + 1) / 3) /\
  (countdownBar now = Throw <-> 30 < secondsRemaining now).
Proof.
  pose proof (bar_ok_all _ (secondsRemaining_bounds now)) as B.
  unfold bar_ok in B. fold (countdownBar now) in B.
  split.
  - intros H. pose proof (secondsRemaining_range now H) as R.
    destruct (countdownBar now) as [bar |].
    + exists bar. apply andb_prop in B as [B B4]. apply andb_prop in B as [B B3].
      apply andb_prop in B as [B1 B2].
      apply Nat.eqb_eq in B3. apply Nat.leb_le in B4. apply Z.eqb_eq in B2.
      repeat split; assumption.
    + apply Z.ltb_lt in B. lia.
  - destruct (countdownBar now) as [bar |].
    + apply andb_prop in B as [B _]. apply andb_prop in B as [B _].
      apply andb_prop in B as [B _]. apply Z.leb_le in B.
      split; [discriminate | lia].
    + apply Z.ltb_lt in B. split; [intros _; exact B | reflexivity].
Qed.

(** X5 --  With the clock at or after the epoch, [countdownBar] returns a
    bar of exactly 20 cells, of which [round (2 rem / 3)], and at least
    one, are full, [rem] being the seconds remaining; it raises an
    exception ([repeat] of a negative count) exactly when more than 30
    seconds remain, which a clock before the epoch can give. *)
Theorem countdownBar_cells (now : Z) :
  (0 <= now ->
   exists bar, countdownBar now = Normal bar /\
     (count_unit 9608 bar + count_unit 9617 bar = 20)%nat /\
     (1 <= count_unit 9608 bar)%nat /\
     Z.of_nat (count_unit 9608 bar) = (2 * secondsRemaining now + 1) / 3) /\
  (countdownBar now = Throw <-> 30 < secondsRemaining now).
Proof. exact (bar_cells now). Qed.

Lemma countdownBar_cells_witness :
  0 <= 59000 /\
  exists bar, countdownBar 59000 = Normal bar /\
    (count_unit 9608 bar + count_unit 9617 bar = 20)%nat.
Proof.
  assert (H : 0 <= 59000) by lia. split; [exact H |].
  destruct (proj1 (countdownBar_cells 59000) H) as (bar & E & C & _).
  exists bar. split; [exact E | exact C].
Defined.

(** X6 --  The countdown agrees with the code engine: for a time [now] in
    the range of the engine, [secondsRemaining] is between 1 and 30, the
    instant it counts down to is the next multiple of 30 s, the counter of
    [totp] goes up by one at that instant, and until then [totp] returns
    the code it returns at [now]. *)
Theorem secondsRemaining_window (now : Z) :
  epoch_ok now ->
  let rem := secondsRemaining now in
  let next := 1000 * (now / 1000 + rem) in
  1 <= rem <= 30 /\
  now < next <= now + 30000 /\
  next mod 30000 = 0 /\
  counter_of next = counter_of now + 1 /\
  forall secret t, epoch_ok t -> now <= t < next ->
    totp secret t = totp secret now.
Proof.
  intros [H0 H1] rem next.
  assert (Hq : 0 <= now / 1000) by (apply Z.div_pos; lia).
  assert (Er : rem = 30 - (now / 1000) mod 30).
  { unfold rem, secondsRemaining. now rewrite Z.rem_mod_nonneg by lia. }
  pose proof (Z.mod_pos_bound (now / 1000) 30 ltac:(lia)) as Hm.
  pose proof (Z.div_mod (now / 1000) 30 ltac:(lia)) as Hd.
  pose proof (Z.div_mod now 1000 ltac:(lia)) as Hd'.
  pose proof (Z.mod_pos_bound now 1000 ltac:(lia)) as Hm'.
  assert (En : next = 30000 * (now / 1000 / 30 + 1)) by (unfold next; lia).
  assert (Ec : now / 30000 = now / 1000 / 30).
  { rewrite Z.div_div by lia. reflexivity. }
  split; [lia |]. split; [lia |]. split.
  - rewrite En, Z.mul_comm. apply Z.mod_mul. lia.
  - split.
    + rewrite !counter_of_div, Ec, En.
      rewrite Z.mul_comm, Z.div_mul by lia. reflexivity.
    + intros secret t _ Ht.
      rewrite !totp_unfold, !totp_with_key_spec.
      replace (t / 30000) with (now / 30000); [reflexivity |].
      rewrite Ec.
      apply Z.div_unique with (r := t - 30000 * (now / 1000 / 30)); lia.
Qed.

Lemma secondsRemaining_window_witness :
  epoch_ok 59000 /\ epoch_ok 59999 /\
  totp rfc_secret 59999 = totp rfc_secret 59000.
Proof.
  assert (H : epoch_ok 59000) by (unfold epoch_ok; lia).
  assert (H' : epoch_ok 59999) by (unfold epoch_ok; lia).
  split; [exact H | split; [exact H' |]].
  refine (proj2 (proj2 (proj2 (proj2 (secondsRemaining_window 59000 H))))
            rfc_secret 59999 H' _).
  vm_compute. split; [discriminate | reflexivity].
Defined.

End Countdown.

(** ** The vault format *)

Section Format.

Lemma well_formed_inv (vault : json) :
  well_formed vault = true ->
  exists fields name items,
    vault = JObj fields /\
    own fields (lit "name") = Val (JStr name) /\
    own fields (lit "entries") = Val (JArr items) /\
    forallb entry_ok items = true.
Proof.
  unfold well_formed, name_of, entries_of.
  destruct vault as [| | | | | fields]; try discriminate.
  destruct (own fields (lit "name")) as [| [| | | n | |] |] eqn:En; try discriminate.
  destruct (own fields (lit "entries")) as [| [| | | | items |] |] eqn:Ee;
    try discriminate.
  intros H. now exists fields, n, items.
Qed.

Lemma entry_ok_inv (e : json) :
  entry_ok e = true ->
  exists fields label issuer secret,
    e = JObj fields /\
    own fields (lit "label") = Val (JStr label) /\
    own fields (lit "issuer") = Val (JStr issuer) /\
    own fields (lit "secret") = Val (JStr secret).
Proof.
  destruct e as [| | | | | fields]; try discriminate. cbn [entry_ok].
  intros H. apply andb_prop in H as [H H3]. apply andb_prop in H as [H1 H2].
  destruct (own fields (lit "label")) as [| [| | | l | |] |] eqn:El;
    try discriminate.
  destruct (own fields (lit "issuer")) as [| [| | | i | |] |] eqn:Ei;
    try discriminate.
  destruct (own fields (lit "secret")) as [| [| | | s | |] |] eqn:Es;
    try discriminate.
  now exists fields, l, i, s.
Qed.

End Format.

(** ** Delivery *)

Section Delivery.

Lemma ack_after_write_app (tr acts : list action) :
  ack_after_write tr -> forallb (fun a => negb (is_ack a)) acts = true ->
  ack_after_write (tr ++ acts).
Proof.
  intros IH Q pre conn post E.
  apply app_eq_app in E as [l [[E1 E2] | [E1 E2]]].
  - destruct l as [| a' l].
    + cbn in E2. subst acts. cbn in Q. discriminate.
    + cbn in E2. injection E2 as <- E2. exact (IH pre conn l E1).
  - subst acts. rewrite forallb_app in Q. apply andb_prop in Q as [_ Q].
    cbn in Q. discriminate.
Qed.

Lemma ack_after_write_accept (tr : list action) (name vault : value)
    (conn : nat) :
  ack_after_write tr -> ack_after_write (tr ++ accept_actions name vault conn).
Proof.
  intros IH pre c post E. unfold accept_actions in E.
  apply app_eq_app in E as [l [[E1 E2] | [E1 E2]]].
  - destruct l as [| a' l].
    + cbn in E2. discriminate.
    + cbn in E2. injection E2 as <- E2. exact (IH pre c l E1).
  - destruct l as [| a1 [| a2 [| a3 [| a4 l]]]]; cbn in E2; try discriminate.
    + injection E2 as <- <- _ _. subst pre.
      exists (tr ++ [Latch]), name, vault. now rewrite <- app_assoc.
    + destruct l; discriminate.
Qed.

Lemma persisted_app (tr acts : list action) :
  persisted tr -> persisted (tr ++ acts).
Proof.
  intros (pre & name & vault & conn & post & ->).
  exists pre, name, vault, conn, (post ++ acts).
  rewrite <- app_assoc. reflexivity.
Qed.

Lemma persisted_accept (tr : list action) (name vault : value) (conn : nat) :
  persisted (tr ++ accept_actions name vault conn).
Proof.
  exists (tr ++ [Latch]), name, vault, conn, [SetTimeout 500].
  rewrite <- app_assoc. reflexivity.
Qed.

Lemma onData_shapes (r : bool) (conn : nat) (payload : option json)
    (clock : nat -> Z) (fs_ok : bool) :
  (exists r' acts out, onData r conn payload clock fs_ok = (r', acts, out) /\
     out <> Suspended /\ forallb (fun a => negb (is_ack a)) acts = true) \/
  (exists name vault,
     onData r conn payload clock fs_ok
       = (true, accept_actions name vault conn, Suspended)).
Proof.
  destruct (onData_cases r conn payload clock fs_ok)
    as [[_ [E | E]] | (_ & _ & [E | (name & vault & E)])].
  - left. exists r, [], Returned. repeat split; [exact E | discriminate].
  - left. exists r, [], Rejected. repeat split; [exact E | discriminate].
  - left. exists true, [Latch], Rejected. repeat split; [exact E | discriminate].
  - right. now exists name, vault.
Qed.

Lemma delivery_invariant (evs : list event) :
  let s := run init evs in
  ack_after_write (trace s) /\
  ((0 < grace s + exit0 s)%nat -> persisted (trace s)) /\
  (status_of s = Exited 0 -> (0 < exit0 s)%nat).
Proof.
  induction evs as [| e evs IH] using rev_ind.
  - cbn. repeat split; try lia; try discriminate.
    intros pre conn post E. destruct pre; discriminate.
  - cbv zeta in *. rewrite run_snoc. destruct IH as (A & P & X).
    open_session (run init evs). run_step.
    destruct st; [| now repeat split | now repeat split].
    assert (Q : forall acts, forallb (fun a => negb (is_ack a)) acts = true ->
              ack_after_write (tr ++ acts))
      by (intros; now apply ack_after_write_app).
    destruct e as [conn payload clock fs_ok | | | | |].
    + destruct (onData_shapes r conn payload clock fs_ok)
        as [(r' & acts & out & E & NS & NA) | (name & vault & E)]; rewrite E.
      * destruct out; [| congruence |];
          cbn [trace grace exit0 status_of]; repeat split;
          try discriminate.
        -- now apply Q.
        -- intros H. now apply persisted_app, P.
        -- apply Q. rewrite forallb_app, NA. reflexivity.
        -- intros H. now apply persisted_app, P.
      * cbn [trace grace exit0 status_of]. repeat split; try discriminate.
        -- now apply ack_after_write_accept.
        -- intros _. apply persisted_accept.
    + destruct j; cbn [trace grace exit0 status_of]; repeat split;
        try discriminate; try assumption.
      * now apply Q.
      * intros H. now apply persisted_app, P.
    + destruct t; [destruct (negb r) |]; cbn [trace grace exit0 status_of];
        repeat split; try discriminate; try assumption.
      * now apply Q.
      * intros H. now apply persisted_app, P.
    + destruct g; cbn [trace grace exit0 status_of]; repeat split;
        try discriminate; try assumption.
      * now apply Q.
      * intros H. apply persisted_app, P. lia.
    + destruct e0; cbn [trace grace exit0 status_of]; repeat split;
        try discriminate; try assumption; try lia.
      * now apply Q.
      * intros H. now apply persisted_app, P.
    + destruct e1; cbn [trace grace exit0 status_of]; repeat split;
        try discriminate; try assumption.
      * now apply Q.
      * intros H. now apply persisted_app, P.
Qed.

(** X7 --  In every run of a receive session, whatever the events and their
    order, an acknowledgement is written to a peer only straight after the
    vault file has been written: a sharer is never told of a receipt that
    was not persisted. *)
Theorem acknowledged_after_persisted (evs : list event) :
  ack_after_write (trace (run init evs)).
Proof. exact (proj1 (delivery_invariant evs)). Qed.

(** X8 --  A receive session that has ended with [process.exit(0)] has
    written exactly one vault file and acknowledged it.  (The user
    interrupt, which also exits with 0, is not among the events.) *)
Theorem exit_zero_means_persisted (evs : list event) :
  status_of (run init evs) = Exited 0 ->
  persisted (trace (run init evs)) /\
  count is_write (trace (run init evs)) = 1%nat.
Proof.
  intros H. destruct (delivery_invariant evs) as (_ & P & X).
  cbv zeta in *. specialize (X H).
  assert (Pz : persisted (trace (run init evs))) by (apply P; lia).
  split; [exact Pz |].
  destruct (session_invariant evs) as (_ & W & _). cbv zeta in W.
  destruct Pz as (pre & name & vault & conn & post & E).
  assert (1 <= count is_write (trace (run init evs)))%nat.
  { rewrite E, count_app. cbn [count filter is_write List.length]. lia. }
  destruct (received (run init evs)); lia.
Qed.

Lemma exit_zero_means_persisted_witness :
  let evs := [Flushed; Data 1 (Some sample_share) sample_clock true; Grace;
              Destroyed0] in
  status_of (run init evs) = Exited 0 /\
  count is_write (trace (run init evs)) = 1%nat.
Proof.
  intros evs.
  assert (H : status_of (run init evs) = Exited 0) by reflexivity.
  split; [exact H |]. exact (proj2 (exit_zero_means_persisted evs H)).
Defined.

Lemma entry_ok_body (clock : nat -> Z) (k : nat) (e : json) :
  entry_ok e = true -> 0 <= clock (S k) ->
  entry_body clock k (Val e) = Normal tt.
Proof.
  intros H C.
  destruct (entry_ok_inv e H) as (fields & l & i & x & -> & El & Ei & Es).
  destruct (proj1 (bar_cells (clock (S k))) C) as (bar & Eb & _).
  unfold entry_body, call. cbn [get bind]. rewrite Es, El, Ei, Eb.
  reflexivity.
Qed.

Lemma entries_ok_forEach (clock : nat -> Z) (items : list json) :
  (forall k, 0 <= clock k) ->
  forallb entry_ok items = true ->
  forall k, forEach_items clock k items = Normal tt.
Proof.
  intros C. induction items as [| e items IH]; [reflexivity |].
  cbn [forallb forEach_items]. intros H k. apply andb_prop in H as [H1 H2].
  rewrite (entry_ok_body clock k e H1 (C (S k))). cbn [bind]. now apply IH.
Qed.

Lemma read_vault_share (clock : nat -> Z) (vault : json) (ts : Z) :
  (forall k, 0 <= clock k) ->
  well_formed vault = true ->
  exists name, name_of vault = Some name /\
    header_ok (Val (share_payload vault ts)) = Normal true /\
    read_vault clock (Val (share_payload vault ts))
      = Normal (Val (JStr name), Val vault).
Proof.
  intros C H.
  destruct (well_formed_inv vault H)
    as (fields & name & items & -> & En & Ee & Hi).
  exists name. split; [cbn [name_of]; now rewrite En |]. split; [reflexivity |].
  unfold read_vault, share_payload.
  change (get (Val (JObj _)) (lit "vault")) with (Normal (Val (JObj fields))).
  cbn [bind get]. rewrite En, Ee. cbn [bind get interpolate printable].
  unfold forEach, call. cbn [get bind].
  rewrite (entries_ok_forEach clock items C Hi). reflexivity.
Qed.

(** X9 --  Share and receive fit together.  For a vault in the format of
    line 171, the message that [runShare] writes to a peer is one that a
    waiting [runReceive] accepts, when the receiver's clock is not before
    the epoch and the file can be written: it sets the latch, writes that
    very vault to the file named after its name, acknowledges on the same
    connection, and ends with [process.exit(0)] once the 500 ms wait and
    the teardown are over; and the acknowledgement it writes is one that
    the sharer's ['data'] callback reports as a confirmed receipt.
    (Messages are taken as delivered whole and unchanged.) *)
Theorem share_then_receive (vault : json) (ts ts' : Z) (conn : nat)
    (clock : nat -> Z) (s : session) :
  well_formed vault = true ->
  (forall k, 0 <= clock k) ->
  status_of s = Running -> received s = false ->
  let s1 := step s (Data conn (Some (share_payload vault ts)) clock true) in
  (exists name, name_of vault = Some name /\
     trace s1 = trace s ++ [Latch; WriteFile (Val (JStr name)) (Val vault);
                            ConnWrite conn; SetTimeout 500]) /\
  status_of (run s1 [Grace; Destroyed0]) = Exited 0 /\
  share_onData (Some (ack_payload ts')) = true.
Proof.
  intros H C R L s1.
  destruct (read_vault_share clock vault ts C H) as (name & En & Hh & Hr).
  assert (E : onData false conn (Some (share_payload vault ts)) clock true
              = (true, [Latch; WriteFile (Val (JStr name)) (Val vault);
                        ConnWrite conn; SetTimeout 500], Suspended)).
  { unfold onData. rewrite Hh, Hr. reflexivity. }
  subst s1. open_session s. subst st r. run_step. rewrite E.
  cbn [trace]. split; [now exists name |]. split; reflexivity.
Qed.

Lemma share_then_receive_witness :
  well_formed sample_vault = true /\
  (forall k, 0 <= sample_clock k) /\
  status_of init = Running /\ received init = false /\
  status_of
    (run (step init (Data 1 (Some (share_payload sample_vault 1700000000000))
                          sample_clock true))
         [Grace; Destroyed0]) = Exited 0.
Proof.
  assert (H : well_formed sample_vault = true) by reflexivity.
  assert (C : forall k, 0 <= sample_clock k) by (intros k; unfold sample_clock; lia).
  split; [exact H |]. split; [exact C |].
  split; [reflexivity |]. split; [reflexivity |].
  exact (proj1 (proj2 (share_then_receive sample_vault 1700000000000 0 1
                         sample_clock init H C eq_refl eq_refl))).
Defined.

End Delivery.

(** ** Setup *)

Section Setup.

Lemma saved_of_app (a b : list effect) :
  saved_of (a ++ b) = saved_of a ++ saved_of b.
Proof. unfold saved_of. apply flat_map_app. Qed.

Lemma get_entries (vault : json) :
  (x <- get (Val vault) (lit "entries") ;; as_array x)
  = match entries_of vault with Some items => Normal items | None => Throw end.
Proof.
  destruct vault as [| | | | items | fields]; try reflexivity.
  cbn [get entries_of bind].
  destruct (own fields (lit "entries")) as [| [| | | | |] |]; reflexivity.
Qed.

(** What [add_entry] does: it appends effects, and saves nothing or the
    vault with one entry more. *)
Lemma add_entry_spec (e : env) (vault : json) (w : world) :
  exists r w' new,
    add_entry e vault w = (r, w') /\ effects w' = effects w ++ new /\
    (saved_of new = [] \/
     exists items a1 a2 a3 rest,
       stdin w = a1 :: a2 :: a3 :: rest /\
       entries_of vault = Some items /\ trim a1 <> [] /\ writable e = true /\
       saved_of new =
         [set_entries vault
            (items ++ [new_entry (trim a1) (or_else (trim a2) (trim a1))
                                 (stored_secret e a3)])]).
Proof.
  destruct w as [inp tk eff]. unfold add_entry.
  destruct inp as [| a1 [| a2 [| a3 rest]]].
  - io_unfold. eexists _, _, []. rewrite app_nil_r. repeat split. now left.
  - io_unfold. eexists _, _, []. rewrite app_nil_r. repeat split. now left.
  - io_unfold. eexists _, _, []. rewrite app_nil_r. repeat split. now left.
  - io_unfold. unfold stored_secret.
    pose proof (get_entries vault) as G.
    destruct (is_empty (typed_secret a3)) eqn:Es; io_unfold;
    (destruct (is_empty (trim a1)) eqn:El; io_unfold;
     [ eexists _, _, [_; _]; rewrite <- app_assoc; repeat split; now left |]);
    (destruct (get (Val vault) (lit "entries")) as [x |] eqn:Eg; cbn [bind] in G;
     [| eexists _, _, [_]; repeat split; now left]);
    (destruct (as_array x) as [items |] eqn:Ea;
     [| eexists _, _, [_]; repeat split; now left]);
    (destruct (entries_of vault) as [items' |]; [| discriminate]);
    injection G as <-;
    (destruct (writable e) eqn:Ew; io_unfold;
     [| eexists _, _, [_]; repeat split; now left]);
    (destruct (countdownBar _) as [bar |]; io_unfold).
    all: rewrite <- ?app_assoc; cbn [app].
    all: eexists _, _, _; split; [reflexivity |]; split; [reflexivity |].
    all: right; exists items, a1, a2, a3, rest; repeat split; try reflexivity.
    all: try (intros Ht; rewrite Ht in El; discriminate).
    all: rewrite Es; reflexivity.
Qed.

Lemma delete_entry_spec (e : env) (vault : json) (w : world) :
  exists r w' new,
    delete_entry e vault w = (r, w') /\ effects w' = effects w ++ new /\
    (saved_of new = [] \/
     exists items a rest n,
       stdin w = a :: rest /\ entries_of vault = Some items /\
       parseInt a = Some n /\ 1 <= n <= Z.of_nat (List.length items) /\
       writable e = true /\
       saved_of new = [set_entries vault (without (Z.to_nat (n - 1)) items)]).
Proof.
  destruct w as [inp tk eff]. unfold delete_entry.
  destruct (printVaultTable (Val vault)) as [[] |]; io_unfold;
    [| eexists _, _, []; rewrite app_nil_r; repeat split; now left].
  destruct inp as [| a rest]; io_unfold;
    [eexists _, _, []; rewrite app_nil_r; repeat split; now left |].
  pose proof (get_entries vault) as G.
  destruct (get (Val vault) (lit "entries")) as [x |] eqn:Eg; cbn [bind] in G;
    [| eexists _, _, []; rewrite app_nil_r; repeat split; now left].
  destruct (as_array x) as [items |] eqn:Ea;
    [| eexists _, _, []; rewrite app_nil_r; repeat split; now left].
  destruct (entries_of vault) as [items' |]; [| discriminate].
  injection G as <-.
  destruct (parseInt a) as [n |] eqn:Ep; cbn [option_map in_bounds];
    [| io_unfold; eexists _, _, [_]; repeat split; now left].
  destruct ((0 <=? n - 1) && (n - 1 <? Z.of_nat (List.length items))) eqn:Eb;
    [| io_unfold; eexists _, _, [_]; repeat split; now left].
  apply andb_prop in Eb as [B1 B2]. apply Z.leb_le in B1. apply Z.ltb_lt in B2.
  destruct (writable e) eqn:Ew; io_unfold;
    [| eexists _, _, []; rewrite app_nil_r; repeat split; now left].
  assert (Hn : 1 <= n <= Z.of_nat (List.length items)) by lia.
  destruct (get (Val (nth _ items JNull)) (lit "label")) as [lab |];
    cbv beta iota; [destruct (interpolate lab); cbv beta iota |].
  - exists (Ok tt), (mkW rest tk
       ((eff ++ [SaveVault (set_entries vault (without (Z.to_nat (n - 1)) items))])
        ++ [Say Removed])),
      [SaveVault (set_entries vault (without (Z.to_nat (n - 1)) items));
       Say Removed].
    split; [reflexivity |]. split; [cbn [effects]; now rewrite <- app_assoc |].
    right. now exists items, a, rest, n.
  - eexists _, _, [_]. split; [reflexivity |]. split; [reflexivity |].
    right. now exists items, a, rest, n.
  - eexists _, _, [_]. split; [reflexivity |]. split; [reflexivity |].
    right. now exists items, a, rest, n.
Qed.

Lemma setup_cases (e : env) (file : option json) (answers : list jsstring) :
  saved (snd (setup e file answers)) = [] \/
  exists vault items v',
    saved (snd (setup e file answers)) = [v'] /\
    opened e file answers vault /\ entries_of vault = Some items /\
    edit vault items v'.
Proof.
  unfold setup, runSetup, saved.
  destruct (ToBoolean (loadVault file)) eqn:Et.
  - destruct file as [vault |]; [| discriminate]. cbn [loadVault] in *.
    destruct (get (Val vault) (lit "name")) as [name |]; io_unfold; [| now left].
    destruct (interpolate name) as [[] |]; io_unfold; [| now left].
    destruct (get (Val vault) (lit "entries")) as [entries |]; io_unfold; [| now left].
    destruct (get entries (lit "length")) as [len |]; io_unfold; [| now left].
    destruct (interpolate len) as [[] |]; io_unfold; [| now left].
    destruct answers as [| a0 answers]; io_unfold; [now left |].
    destruct (str_eqb (toLowerCase (trim a0)) (lit "v")).
    { destruct (printVaultTable (Val vault)) as [[] |]; now left. }
    destruct (str_eqb (toLowerCase (trim a0)) (lit "d")).
    { destruct (delete_entry_spec e vault (mkW answers 0 ([] ++ [Say ExistingVault])))
        as (r & w' & new & E & Ee & [S | (items & a & rest & n & _ & Ei & Ep & Hn & _ & S)]);
        rewrite E; cbn [snd effects] in *; rewrite Ee, saved_of_app; cbn [saved_of flat_map app];
        fold (saved_of new); rewrite S; [now left |].
      right. exists vault, items, (set_entries vault (without (Z.to_nat (n - 1)) items)).
      repeat split; [left; now split | exact Ei |].
      apply Deleted. lia. }
    destruct (str_eqb (toLowerCase (trim a0)) (lit "q")); [now left |].
    destruct (add_entry_spec e vault (mkW answers 0 ([] ++ [Say ExistingVault])))
      as (r & w' & new & E & Ee & [S | (items & a1 & a2 & a3 & rest & _ & Ei & Hl & _ & S)]);
      rewrite E; cbn [snd effects] in *; rewrite Ee, saved_of_app; cbn [saved_of flat_map app];
      fold (saved_of new); rewrite S; [now left |].
    right. eexists vault, items, _. repeat split; [left; now split | exact Ei |].
    apply Added; [exact Hl |].
    unfold or_else. destruct (is_empty (trim a2)) eqn:E2; [exact Hl |].
    destruct (trim a2); [discriminate | discriminate].
  - destruct answers as [| a0 answers]; io_unfold; [now left |].
    fold (fresh_vault e a0).
    destruct (add_entry_spec e (fresh_vault e a0)
                (mkW answers 0 ([] ++ [Say (CreatingVault (or_else (trim a0) (lit "MyTeam")))])))
      as (r & w' & new & E & Ee & [S | (items & a1 & a2 & a3 & rest & _ & Ei & Hl & _ & S)]);
      rewrite E; cbn [snd effects] in *; rewrite Ee, saved_of_app; cbn [saved_of flat_map app];
      fold (saved_of new); rewrite S; [now left |].
    right. eexists (fresh_vault e a0), items, _.
    repeat split; [right; split; [exact Et | now exists a0, answers] | exact Ei |].
    apply Added; [exact Hl |].
    unfold or_else. destruct (is_empty (trim a2)) eqn:E2; [exact Hl |].
    destruct (trim a2); [discriminate | discriminate].
Qed.

(** X10 --  A run of [runSetup] writes the vault file at most once, whatever
    the file holds and whatever is typed. *)
Theorem setup_saves_at_most_once (e : env) (file : option json)
    (answers : list jsstring) :
  (List.length (saved (snd (setup e file answers))) <= 1)%nat.
Proof.
  destruct (setup_cases e file answers) as [-> | (vault & items & v' & -> & _)];
    cbn; lia.
Qed.

(** X11 --  What [runSetup] writes is the vault it opened (the one in the
    file, or a new one named by the first line typed, "MyTeam" if that line
    is blank) with exactly one change to its entries: one entry appended,
    whose label and issuer are not empty, or one entry removed.  Every other
    entry and every other field of the vault is written back as it was. *)
Theorem setup_save_is_one_edit (e : env) (file : option json)
    (answers : list jsstring) (v' : json) :
  In v' (saved (snd (setup e file answers))) ->
  exists vault items,
    opened e file answers vault /\ entries_of vault = Some items /\
    edit vault items v'.
Proof.
  destruct (setup_cases e file answers)
    as [-> | (vault & items & v & -> & O & Ei & Ed)].
  - intros [].
  - intros [<- | []]. now exists vault, items.
Qed.

Lemma setup_save_is_one_edit_witness :
  let answers := [lit ""; lit "AWS"; lit ""; lit "jbsw y3dp ehpk 3pxp"] in
  let v := set_entries (fresh_vault sample_env (lit ""))
             [new_entry (lit "AWS") (lit "AWS") (lit "JBSWY3DPEHPK3PXP")] in
  In v (saved (snd (setup sample_env None answers))) /\
  exists vault items,
    opened sample_env None answers vault /\ entries_of vault = Some items /\
    edit vault items v.
Proof.
  intros answers v.
  assert (H : In v (saved (snd (setup sample_env None answers))))
    by (vm_compute; left; reflexivity).
  split; [exact H |].
  exact (setup_save_is_one_edit sample_env None answers v H).
Defined.

Lemma digit_value_digit (d : Z) :
  0 <= d < 10 -> digit_value (Z.to_N (48 + d)) = Some d.
Proof.
  intros H. unfold digit_value. rewrite Z2N.id by lia.
  destruct (Z.leb_spec 48 (48 + d)); [| lia].
  destruct (Z.leb_spec (48 + d) 57); [| lia].
  cbn [andb]. f_equal. lia.
Qed.

Lemma parse_digits_digits (fuel : nat) :
  forall n acc a seen,
    0 <= n -> (Z.to_nat n < fuel)%nat ->
    exists m, parse_digits 10 (digits fuel n acc) a seen
              = parse_digits 10 acc (a * m + n) true.
Proof.
  induction fuel as [| fuel IH]; intros n acc a seen Hn Hf; [lia |].
  cbn [digits].
  pose proof (Z.mod_pos_bound n 10 ltac:(lia)) as Hm.
  pose proof (Z.div_mod n 10 ltac:(lia)) as Hd.
  assert (P : forall b s, parse_digits 10 (Z.to_N (48 + n mod 10) :: acc) b s
               = parse_digits 10 acc (b * 10 + n mod 10) true).
  { intros b s. cbn [parse_digits]. rewrite digit_value_digit by lia.
    destruct (Z.ltb_spec (n mod 10) 10); [reflexivity | lia]. }
  destruct (Z.eqb_spec (n / 10) 0) as [E | E].
  - exists 10. rewrite P. f_equal. lia.
  - assert (0 < n / 10) by (pose proof (Z.div_pos n 10); lia).
    destruct (IH (n / 10) (Z.to_N (48 + n mod 10) :: acc) a seen) as [m Em];
      [lia | lia |].
    exists (m * 10). rewrite Em, P. f_equal. lia.
Qed.

Lemma digits_head (fuel : nat) :
  forall n acc, 0 <= n -> (0 < fuel)%nat ->
    forallb is_digit acc = true ->
    forallb is_digit (digits fuel n acc) = true /\ digits fuel n acc <> [].
Proof.
  induction fuel as [| fuel IH]; intros n acc Hn Hf Ha; [lia |].
  cbn [digits].
  pose proof (Z.mod_pos_bound n 10 ltac:(lia)) as Hm.
  assert (D : is_digit (Z.to_N (48 + n mod 10)) = true).
  { unfold is_digit. apply andb_true_intro. split; apply N.leb_le; lia. }
  destruct (Z.eqb_spec (n / 10) 0) as [E | E].
  - split; [cbn [forallb]; now rewrite D | discriminate].
  - destruct fuel as [| fuel].
    + cbn [digits]. split; [cbn [forallb]; now rewrite D | discriminate].
    + apply IH; [apply Z.div_pos; lia | lia | cbn [forallb]; now rewrite D].
Qed.

Lemma digit_not_space (c : N) : is_digit c = true -> is_space c = false.
Proof.
  intros H.
  assert (A : forallb (fun n => implb (is_digit (N.of_nat n)) (negb (is_space (N.of_nat n))))
                (seq 48 10) = true) by (vm_compute; reflexivity).
  unfold is_digit in H. apply andb_prop in H as [H1 H2].
  apply N.leb_le in H1, H2.
  rewrite forallb_forall in A. specialize (A (N.to_nat c)).
  rewrite N2Nat.id in A.
  assert (D : is_digit c = true)
    by (unfold is_digit; apply andb_true_intro; split; now apply N.leb_le).
  rewrite D in A. cbn [implb] in A. apply negb_true_iff. apply A.
  apply in_seq. lia.
Qed.

(** A run of digits is read back as it was written. *)
Lemma parseInt_digits (s : jsstring) :
  forallb is_digit s = true ->
  parseInt s = parse_digits 10 s 0 false.
Proof.
  intros H. destruct s as [| c s]; [reflexivity |].
  cbn [forallb] in H. apply andb_prop in H as [Hc Hs].
  unfold parseInt. cbn [trimStart]. rewrite (digit_not_space c Hc).
  unfold is_digit in Hc. apply andb_prop in Hc as [H1 H2].
  apply N.leb_le in H1, H2.
  assert (N43 : (c =? 43)%N = false) by (apply N.eqb_neq; lia).
  assert (N45 : (c =? 45)%N = false) by (apply N.eqb_neq; lia).
  rewrite N43, N45. cbn [orb].
  assert (Sg : match c :: s with 45%N :: _ => -1 | _ => 1 end = 1).
  { destruct (N.eq_dec c 45) as [-> | Hne]; [lia |].
    destruct c as [| p]; [reflexivity |].
    repeat (destruct p as [p | p |]; try reflexivity); congruence. }
  rewrite Sg.
  assert (Px : (let '(R, s3) :=
                  match c :: s with
                  | 48%N :: x :: s' =>
                      if (x =? 120)%N || (x =? 88)%N then (16, s') else (10, c :: s)
                  | _ => (10, c :: s)
                  end in
                option_map (Z.mul 1) (parse_digits R s3 0 false))
               = option_map (Z.mul 1) (parse_digits 10 (c :: s) 0 false)).
  { destruct s as [| x s'].
    - destruct c as [| p]; [reflexivity |].
      repeat (destruct p as [p | p |]; try reflexivity).
    - cbn [forallb] in Hs. apply andb_prop in Hs as [Hx _].
      unfold is_digit in Hx. apply andb_prop in Hx as [Hx1 Hx2].
      apply N.leb_le in Hx1, Hx2.
      assert (N120 : (x =? 120)%N = false) by (apply N.eqb_neq; lia).
      assert (N88 : (x =? 88)%N = false) by (apply N.eqb_neq; lia).
      destruct c as [| p]; [reflexivity |].
      repeat (destruct p as [p | p |]; try reflexivity).
      rewrite N120, N88. reflexivity. }
  etransitivity; [exact Px |].
  destruct (parse_digits 10 (c :: s) 0 false) as [z |]; [| reflexivity].
  cbn [option_map]. f_equal. lia.
Qed.

Lemma parseInt_String_of (n : Z) : 0 <= n -> parseInt (String_of n) = Some n.
Proof.
  intros H. unfold String_of.
  destruct (digits_head (S (Z.to_nat n)) n [] H ltac:(lia) eq_refl) as [D _].
  rewrite (parseInt_digits _ D).
  destruct (parse_digits_digits (S (Z.to_nat n)) n [] 0 false H ltac:(lia))
    as [m ->].
  cbn [parse_digits]. f_equal; lia.
Qed.

Lemma entry_ok_table (e : json) : entry_ok e = true -> table_entry e = Normal tt.
Proof.
  intros H. destruct (entry_ok_inv e H) as (f & l & i & s & -> & El & Ei & Es).
  unfold table_entry. cbn [get bind]. rewrite El, Ei, Es. reflexivity.
Qed.

Lemma entries_ok_table (items : list json) :
  forallb entry_ok items = true -> table_entries items = Normal tt.
Proof.
  induction items as [| e items IH]; [reflexivity |].
  cbn [forallb table_entries]. intros H. apply andb_prop in H as [H1 H2].
  rewrite (entry_ok_table e H1). cbn [bind]. now apply IH.
Qed.

Lemma well_formed_table (vault : json) :
  well_formed vault = true -> printVaultTable (Val vault) = Normal tt.
Proof.
  intros H. destruct (well_formed_inv vault H) as (f & n & items & -> & En & Ee & Hi).
  unfold printVaultTable. cbn [get bind]. rewrite En, Ee. cbn [get bind interpolate printable as_array].
  now apply entries_ok_table.
Qed.

Lemma forallb_nth {A} (f : A -> bool) (l : list A) (i : nat) (d : A) :
  forallb f l = true -> (i < List.length l)%nat -> f (nth i l d) = true.
Proof.
  intros H Hi. rewrite forallb_forall in H. apply H. now apply nth_In.
Qed.

(** An existing vault in the format of line 171, up to the question
    "Add entry / (v)iew / (d)elete / (q)uit?". *)
Lemma setup_existing (e : env) (vault : json) (a0 : jsstring)
    (rest : list jsstring) :
  well_formed vault = true ->
  setup e (Some vault) (a0 :: rest)
  = (let choice := toLowerCase (trim a0) in
     if str_eqb choice (lit "v") then lift (printVaultTable (Val vault))
     else if str_eqb choice (lit "d") then delete_entry e vault
     else if str_eqb choice (lit "q") then ret tt
     else add_entry e vault) (mkW rest 0 [Say ExistingVault]).
Proof.
  intros H. destruct (well_formed_inv vault H) as (f & n & items & -> & En & Ee & Hi).
  unfold setup, runSetup. cbn [loadVault ToBoolean get]. rewrite En, Ee.
  reflexivity.
Qed.

(** X12 --  Deleting by number removes the entry shown under that number
    and nothing else.  [printVaultTable] numbers the entries from 1; with a
    vault in the format of line 171, the choice "d" and an answer that
    [parseInt] reads as the number of entry [i] (the number as printed is
    such an answer), [runSetup] writes the vault without that entry, once,
    reports the removal and ends normally. *)
Theorem setup_deletes_shown_entry (e : env) (vault : json) (items : list json)
    (a0 a1 : jsstring) (rest : list jsstring) (i : nat) :
  well_formed vault = true -> entries_of vault = Some items ->
  toLowerCase (trim a0) = lit "d" -> writable e = true ->
  (i < List.length items)%nat ->
  parseInt a1 = Some (Z.of_nat i + 1) ->
  parseInt (String_of (Z.of_nat i + 1)) = Some (Z.of_nat i + 1) /\
  setup e (Some vault) (a0 :: a1 :: rest)
  = (Ok tt,
     mkW rest 0
       [Say ExistingVault; SaveVault (set_entries vault (without i items));
        Say Removed]).
Proof.
  intros H Ei Hc Hw Hi Hp. split; [apply parseInt_String_of; lia |].
  rewrite (setup_existing e vault a0 _ H). cbv zeta. rewrite Hc.
  change (str_eqb (lit "d") (lit "v")) with false.
  change (str_eqb (lit "d") (lit "d")) with true. cbv iota.
  unfold delete_entry. rewrite (well_formed_table vault H). io_unfold.
  pose proof (get_entries vault) as G. rewrite Ei in G.
  destruct (get (Val vault) (lit "entries")) as [x |]; [| discriminate].
  cbn [bind] in G. rewrite G. rewrite Hp. cbn [option_map in_bounds].
  replace (Z.of_nat i + 1 - 1) with (Z.of_nat i) by lia.
  destruct (Z.leb_spec 0 (Z.of_nat i)); [| lia].
  destruct (Z.ltb_spec (Z.of_nat i) (Z.of_nat (List.length items))); [| lia].
  cbn [andb]. rewrite Nat2Z.id, Hw. io_unfold.
  destruct (well_formed_inv vault H) as (f & n & items' & -> & En & Ee & Hok).
  cbn [entries_of] in Ei. rewrite Ee in Ei. injection Ei as ->.
  pose proof (forallb_nth entry_ok items i JNull Hok Hi) as Hn.
  destruct (entry_ok_inv _ Hn) as (f' & l & iss & s & -> & El & _ & _).
  cbn [get]. rewrite El. cbn [interpolate printable]. reflexivity.
Qed.

Lemma setup_deletes_shown_entry_witness :
  well_formed sample_vault = true /\
  toLowerCase (trim (lit " D ")) = lit "d" /\
  parseInt (lit "1") = Some 1 /\
  saved (snd (setup sample_env (Some sample_vault) [lit " D "; lit "1"]))
  = [set_entries sample_vault []].
Proof.
  set (items := [JObj [(lit "label", JStr (lit "AWS Root"));
                       (lit "issuer", JStr (lit "Amazon"));
                       (lit "secret", JStr (lit "JBSWY3DPEHPK3PXP"))]]).
  assert (W : well_formed sample_vault = true) by reflexivity.
  assert (E : entries_of sample_vault = Some items) by reflexivity.
  assert (C : toLowerCase (trim (lit " D ")) = lit "d") by reflexivity.
  assert (L : (0 < List.length items)%nat) by (cbn; lia).
  assert (P : parseInt (lit "1") = Some (Z.of_nat 0 + 1)) by reflexivity.
  split; [exact W |]. split; [exact C |]. split; [exact P |].
  rewrite (proj2 (setup_deletes_shown_entry sample_env sample_vault items
                    (lit " D ") (lit "1") [] 0 W E C eq_refl L P)).
  reflexivity.
Defined.

(** X13 --  Any other answer deletes nothing: when [parseInt] reads no
    number from the answer, or reads one that is below 1 or above the
    number of entries, [runSetup] writes no file, warns of an invalid index
    and ends normally. *)
Theorem setup_rejects_other_numbers (e : env) (vault : json)
    (items : list json) (a0 a1 : jsstring) (rest : list jsstring) :
  well_formed vault = true -> entries_of vault = Some items ->
  toLowerCase (trim a0) = lit "d" ->
  (forall n, parseInt a1 = Some n -> n < 1 \/ Z.of_nat (List.length items) < n) ->
  setup e (Some vault) (a0 :: a1 :: rest)
  = (Ok tt, mkW rest 0 [Say ExistingVault; Say InvalidIndex]).
Proof.
  intros H Ei Hc Hp.
  rewrite (setup_existing e vault a0 _ H). cbv zeta. rewrite Hc.
  change (str_eqb (lit "d") (lit "v")) with false.
  change (str_eqb (lit "d") (lit "d")) with true. cbv iota.
  unfold delete_entry. rewrite (well_formed_table vault H). io_unfold.
  pose proof (get_entries vault) as G. rewrite Ei in G.
  destruct (get (Val vault) (lit "entries")) as [x |]; [| discriminate].
  cbn [bind] in G. rewrite G.
  destruct (parseInt a1) as [n |]; cbn [option_map in_bounds]; [| reflexivity].
  specialize (Hp n eq_refl).
  destruct (Z.leb_spec 0 (n - 1)); [| reflexivity].
  destruct (Z.ltb_spec (n - 1) (Z.of_nat (List.length items))); [lia | reflexivity].
Qed.

Lemma setup_rejects_other_numbers_witness :
  well_formed sample_vault = true /\
  parseInt (lit "7") = Some 7 /\ parseInt (lit "one") = None /\
  saved (snd (setup sample_env (Some sample_vault) [lit "d"; lit "7"])) = [] /\
  saved (snd (setup sample_env (Some sample_vault) [lit "d"; lit "one"])) = [].
Proof.
  set (items := [JObj [(lit "label", JStr (lit "AWS Root"));
                       (lit "issuer", JStr (lit "Amazon"));
                       (lit "secret", JStr (lit "JBSWY3DPEHPK3PXP"))]]).
  assert (W : well_formed sample_vault = true) by reflexivity.
  assert (E : entries_of sample_vault = Some items) by reflexivity.
  assert (C : toLowerCase (trim (lit "d")) = lit "d") by reflexivity.
  assert (P7 : forall n, parseInt (lit "7") = Some n ->
                 n < 1 \/ Z.of_nat (List.length items) < n).
  { intros n H. vm_compute in H. injection H as <-. right. reflexivity. }
  assert (P1 : forall n, parseInt (lit "one") = Some n ->
                 n < 1 \/ Z.of_nat (List.length items) < n).
  { intros n H. vm_compute in H. discriminate. }
  split; [exact W |]. split; [reflexivity |]. split; [reflexivity |].
  rewrite (setup_rejects_other_numbers sample_env sample_vault items
             (lit "d") (lit "7") [] W E C P7).
  rewrite (setup_rejects_other_numbers sample_env sample_vault items
             (lit "d") (lit "one") [] W E C P1).
  split; reflexivity.
Defined.

Lemma or_else_not_empty (a b : jsstring) : b <> [] -> or_else a b <> [].
Proof.
  intros H. unfold or_else. destruct a; [exact H | discriminate].
Qed.

Lemma is_empty_false (s : jsstring) : s <> [] -> is_empty s = false.
Proof. destruct s; [congruence | reflexivity]. Qed.

Lemma str_eqb_eq (a b : jsstring) : str_eqb a b = true -> a = b.
Proof.
  revert b. induction a as [| x a IH]; intros [| y b]; cbn [str_eqb];
    try discriminate; [reflexivity |].
  intros H. apply andb_prop in H as [H1 H2]. apply N.eqb_eq in H1.
  f_equal; [exact H1 | now apply IH].
Qed.

Lemma str_eqb_neq (a b : jsstring) : a <> b -> str_eqb a b = false.
Proof.
  intros H. destruct (str_eqb a b) eqn:E; [| reflexivity].
  now apply str_eqb_eq in E.
Qed.

(** [add_entry] when a label is typed and the file can be written. *)
Lemma add_entry_saved (e : env) (vault : json) (items : list json)
    (a1 a2 a3 : jsstring) (rest : list jsstring) (tk : nat)
    (eff : list effect) :
  entries_of vault = Some items -> trim a1 <> [] -> writable e = true ->
  saved_of eff = [] ->
  saved (snd (add_entry e vault (mkW (a1 :: a2 :: a3 :: rest) tk eff)))
  = [set_entries vault
       (items ++ [new_entry (trim a1) (or_else (trim a2) (trim a1))
                            (stored_secret e a3)])].
Proof.
  intros Ei Hl Hw He.
  unfold add_entry, stored_secret, saved. io_unfold.
  rewrite (is_empty_false _ Hl).
  pose proof (get_entries vault) as G. rewrite Ei in G.
  destruct (get (Val vault) (lit "entries")) as [x |]; [| discriminate].
  cbn [bind] in G. rewrite G, Hw.
  destruct (is_empty (typed_secret a3)); io_unfold;
    destruct (countdownBar _); io_unfold; cbn [snd effects];
    rewrite !saved_of_app, He; reflexivity.
Qed.

Lemma setup_add_saved (e : env) (a0 a1 a2 a3 : jsstring)
    (rest : list jsstring) :
  trim a1 <> [] -> writable e = true ->
  let entry :=
    new_entry (trim a1) (or_else (trim a2) (trim a1)) (stored_secret e a3) in
  (forall vault items,
     well_formed vault = true -> entries_of vault = Some items ->
     toLowerCase (trim a0) <> lit "v" -> toLowerCase (trim a0) <> lit "d" ->
     toLowerCase (trim a0) <> lit "q" ->
     saved (snd (setup e (Some vault) (a0 :: a1 :: a2 :: a3 :: rest)))
     = [set_entries vault (items ++ [entry])]) /\
  (forall file,
     ToBoolean (loadVault file) = false ->
     saved (snd (setup e file (a0 :: a1 :: a2 :: a3 :: rest)))
     = [set_entries (fresh_vault e a0) [entry]]).
Proof.
  intros Hl Hw entry. split.
  - intros vault items H Ei Nv Nd Nq.
    rewrite (setup_existing e vault a0 _ H). cbv zeta.
    rewrite (str_eqb_neq _ _ Nv), (str_eqb_neq _ _ Nd), (str_eqb_neq _ _ Nq).
    now apply add_entry_saved.
  - intros file Hf. unfold setup, runSetup. rewrite Hf. io_unfold.
    fold (fresh_vault e a0).
    now rewrite (add_entry_saved e (fresh_vault e a0) [] a1 a2 a3 rest).
Qed.

(** Line 248 on three lines typed: a small a with a macron (U+0101), a
    sharp s between spaces before an a, and a small letter of the Deseret
    alphabet (U+10428) written as a surrogate pair. *)
Example typed_secret_samples :
  typed_secret [257]%N = [256]%N /\
  typed_secret [32; 223; 32; 97]%N = [83; 83; 65]%N /\
  typed_secret [55297; 56360]%N = [55297; 56320]%N.
Proof. repeat split. Qed.

(** X14 --  Adding an entry: when the label typed is not blank and the file
    can be written, [runSetup] writes the vault with one entry appended,
    made of the label trimmed, the issuer trimmed (the label if it is
    blank) and the secret as stored (the line typed, trimmed, upper-cased
    by the Unicode mapping and without white space, or a generated secret
    if that is empty).
    This holds for an existing vault in the format of line 171 when the
    choice is none of "v", "d" and "q", and for a new vault when the file
    is missing, unreadable or holds a falsy value. *)
Theorem setup_adds_entry (e : env) (a0 a1 a2 a3 : jsstring)
    (rest : list jsstring) :
  trim a1 <> [] -> writable e = true ->
  let entry :=
    new_entry (trim a1) (or_else (trim a2) (trim a1)) (stored_secret e a3) in
  (forall vault items,
     well_formed vault = true -> entries_of vault = Some items ->
     toLowerCase (trim a0) <> lit "v" -> toLowerCase (trim a0) <> lit "d" ->
     toLowerCase (trim a0) <> lit "q" ->
     saved (snd (setup e (Some vault) (a0 :: a1 :: a2 :: a3 :: rest)))
     = [set_entries vault (items ++ [entry])]) /\
  (forall file,
     ToBoolean (loadVault file) = false ->
     saved (snd (setup e file (a0 :: a1 :: a2 :: a3 :: rest)))
     = [set_entries (fresh_vault e a0) [entry]]).
Proof. exact (setup_add_saved e a0 a1 a2 a3 rest). Qed.

Lemma setup_adds_entry_witness :
  trim (lit " AWS ") <> [] /\ writable sample_env = true /\
  saved (snd (setup sample_env None
                [lit ""; lit " AWS "; lit ""; lit "jbsw y3dp ehpk 3pxp"]))
  = [set_entries (fresh_vault sample_env (lit ""))
       [new_entry (lit "AWS") (lit "AWS") (lit "JBSWY3DPEHPK3PXP")]].
Proof.
  assert (L : trim (lit " AWS ") <> []) by (vm_compute; discriminate).
  assert (W : writable sample_env = true) by reflexivity.
  split; [exact L |]. split; [exact W |].
  exact (proj2 (setup_adds_entry sample_env (lit "") (lit " AWS ") (lit "")
                  (lit "jbsw y3dp ehpk 3pxp") [] L W) None eq_refl).
Defined.

Lemma str_eqb_refl (a : jsstring) : str_eqb a a = true.
Proof.
  induction a as [| x a IH]; [reflexivity |].
  cbn [str_eqb]. now rewrite N.eqb_refl, IH.
Qed.

Lemma own_assign_same (fields : list (jsstring * json)) (key : jsstring)
    (j : json) :
  own (assign fields key j) key = Val j.
Proof.
  unfold own. induction fields as [| [k v] fields IH]; cbn [assign find fst].
  - now rewrite str_eqb_refl.
  - destruct (str_eqb k key) eqn:E; cbn [find fst]; rewrite E; [reflexivity |].
    exact IH.
Qed.

Lemma own_assign_other (fields : list (jsstring * json)) (key key' : jsstring)
    (j : json) :
  key <> key' -> own (assign fields key j) key' = own fields key'.
Proof.
  intros H. unfold own.
  induction fields as [| [k v] fields IH]; cbn [assign find fst].
  - rewrite (str_eqb_neq _ _ H). reflexivity.
  - destruct (str_eqb k key) eqn:E; cbn [find fst].
    + apply str_eqb_eq in E. subst k. rewrite (str_eqb_neq _ _ H).
      reflexivity.
    + destruct (str_eqb k key'); [reflexivity | exact IH].
Qed.

Lemma set_entries_format (vault : json) (items : list json) :
  name_of vault <> None -> forallb entry_ok items = true ->
  well_formed (set_entries vault items) = true.
Proof.
  destruct vault as [| | | | | fields]; cbn [name_of]; try congruence.
  intros Hn Hi. unfold well_formed, set_entries, name_of, entries_of.
  rewrite own_assign_same, own_assign_other by discriminate.
  destruct (own fields (lit "name")) as [| [| | | n | |] |]; try congruence.
Qed.

Lemma forallb_without {A} (f : A -> bool) (l : list A) (i : nat) :
  forallb f l = true -> forallb f (firstn i l ++ skipn (S i) l) = true.
Proof.
  revert i. induction l as [| a l IH]; intros i H; [now destruct i |].
  cbn [forallb] in H. apply andb_prop in H as [H1 H2].
  destruct i as [| i]; [exact H2 |].
  cbn [firstn skipn app forallb]. rewrite H1. now apply IH.
Qed.

(** X15 --  [runSetup] keeps the vault in its format: if the file is
    missing or holds a vault in the format of line 171 (a name that is a
    text, entries whose label, issuer and secret are texts), so does
    whatever [runSetup] writes. *)
Theorem setup_keeps_format (e : env) (file : option json)
    (answers : list jsstring) (v' : json) :
  (forall vault, file = Some vault -> well_formed vault = true) ->
  In v' (saved (snd (setup e file answers))) ->
  well_formed v' = true.
Proof.
  intros Hf Hin.
  destruct (setup_cases e file answers)
    as [E | (vault & items & v & E & O & Ei & Ed)]; rewrite E in Hin;
    [destruct Hin |].
  destruct Hin as [<- | []].
  assert (W : well_formed vault = true).
  { destruct O as [[-> _] | (_ & a & rest & _ & ->)]; [now apply Hf | reflexivity]. }
  destruct (well_formed_inv vault W) as (f & n & items' & -> & En & Ee & Hok).
  cbn [entries_of] in Ei. rewrite Ee in Ei. injection Ei as ->.
  assert (Hn : name_of (JObj f) <> None) by (cbn [name_of]; now rewrite En).
  destruct Ed as [label issuer secret _ _ | i Hi].
  - apply set_entries_format; [exact Hn |].
    rewrite forallb_app, Hok. reflexivity.
  - apply set_entries_format; [exact Hn |]. now apply forallb_without.
Qed.

Lemma setup_keeps_format_witness :
  let answers := [lit "add"; lit "GitHub"; lit ""; lit ""] in
  let v := set_entries sample_vault
             [JObj [(lit "label", JStr (lit "AWS Root"));
                    (lit "issuer", JStr (lit "Amazon"));
                    (lit "secret", JStr (lit "JBSWY3DPEHPK3PXP"))];
              new_entry (lit "GitHub") (lit "GitHub")
                        (generateSecret (repeat x2a 20))] in
  In v (saved (snd (setup sample_env (Some sample_vault) answers))) /\
  well_formed v = true.
Proof.
  intros answers v.
  assert (F : forall vault, Some sample_vault = Some vault ->
                            well_formed vault = true)
    by (intros vault E; injection E as <-; reflexivity).
  assert (H : In v (saved (snd (setup sample_env (Some sample_vault) answers))))
    by (vm_compute; left; reflexivity).
  split; [exact H |].
  exact (setup_keeps_format sample_env (Some sample_vault) answers v F H).
Defined.

Lemma receiveTopic_none (VAULT_NAME : jsstring) :
  receiveTopic None VAULT_NAME = shareTopic VAULT_NAME.
Proof. reflexivity. Qed.

Lemma default_topics_differ :
  shareTopic (lit "MyTeam") <> shareTopic (lit "default").
Proof. vm_compute. discriminate. Qed.

(** X16 --  The two sides name the vault differently.  [runShare] derives
    its topic from the name stored in the vault, which for a vault made by
    [runSetup] is the first line typed, or "MyTeam" if that line is blank;
    [runReceive] without a topic argument derives its topic from
    [VAULT_NAME], the [--vault] argument or "default".  With both defaults
    the two topics differ: such a sharer and such a receiver do not meet. *)
Theorem default_names_do_not_meet (e : env) (a0 a1 a2 a3 : jsstring)
    (rest : list jsstring) :
  trim a1 <> [] -> writable e = true ->
  exists vault,
    saved (snd (setup e None (a0 :: a1 :: a2 :: a3 :: rest))) = [vault] /\
    runShare_topic (Val vault)
      = Normal (Some (shareTopic (or_else (trim a0) (lit "MyTeam")))) /\
    (forall VAULT_NAME, receiveTopic None VAULT_NAME = shareTopic VAULT_NAME) /\
    (trim a0 = [] ->
     runShare_topic (Val vault)
     <> Normal (Some (receiveTopic None (lit "default")))).
Proof.
  intros Hl Hw.
  destruct (setup_add_saved e a0 a1 a2 a3 rest Hl Hw) as [_ S].
  specialize (S None eq_refl). eexists. split; [exact S |].
  assert (T : runShare_topic
                (Val (set_entries (fresh_vault e a0)
                        [new_entry (trim a1) (or_else (trim a2) (trim a1))
                                   (stored_secret e a3)]))
              = Normal (Some (shareTopic (or_else (trim a0) (lit "MyTeam")))))
    by reflexivity.
  split; [exact T |]. split; [exact receiveTopic_none |].
  intros Ha. rewrite T, Ha, (receiveTopic_none (lit "default")).
  cbn [or_else is_empty].
  intros H. apply default_topics_differ.
  exact (f_equal (fun c => match c with
                           | Normal (Some x) => x
                           | _ => []
                           end) H).
Qed.

Lemma default_names_do_not_meet_witness :
  trim (lit "AWS") <> [] /\ writable sample_env = true /\
  exists vault,
    saved (snd (setup sample_env None [lit ""; lit "AWS"; lit ""; lit ""]))
    = [vault] /\
    runShare_topic (Val vault)
    <> Normal (Some (receiveTopic None (lit "default"))).
Proof.
  assert (L : trim (lit "AWS") <> []) by (vm_compute; discriminate).
  assert (W : writable sample_env = true) by reflexivity.
  split; [exact L |]. split; [exact W |].
  destruct (default_names_do_not_meet sample_env (lit "") (lit "AWS") (lit "")
              (lit "") [] L W) as (vault & S & _ & _ & D).
  exists vault. split; [exact S | exact (D eq_refl)].
Defined.

End Setup.

(** ** The topic key typed by the receiver *)

Section TopicKey.

Lemma upper_hex_byte (b : byte) (rest : jsstring) :
  B4a.from_hex (toUpperCase (B4a.toString_hex [b]) ++ rest) = b :: B4a.from_hex rest.
Proof. destruct b; reflexivity. Qed.

Lemma upper_hex_length (b : byte) :
  List.length (toUpperCase (B4a.toString_hex [b])) = 2%nat.
Proof. destruct b; reflexivity. Qed.

Lemma toString_hex_cons (b : byte) (buf : list byte) :
  B4a.toString_hex (b :: buf) = B4a.toString_hex [b] ++ B4a.toString_hex buf.
Proof. reflexivity. Qed.

Lemma from_hex_upper (buf : list byte) :
  B4a.from_hex (toUpperCase (B4a.toString_hex buf)) = buf /\
  List.length (toUpperCase (B4a.toString_hex buf)) = (2 * List.length buf)%nat.
Proof.
  induction buf as [| b buf [IH1 IH2]]; [split; reflexivity |].
  rewrite toString_hex_cons, toUpperCase_app. split.
  - now rewrite upper_hex_byte, IH1.
  - rewrite length_app, upper_hex_length, IH2. cbn [List.length]. lia.
Qed.

(** X17 --  The complete key shown by share mode works: [topicHex] has 64
    characters, and given as [--topic] it makes [runReceive] join exactly
    the topic on which the vault is shared, written in lower case (as
    shown) or in upper case, whatever [--vault] says. *)
Theorem full_topic_key_meets (name VAULT_NAME : jsstring) :
  List.length (shareTopicHex name) = 64%nat /\
  receiveTopic (Some (shareTopicHex name)) VAULT_NAME = shareTopic name /\
  receiveTopic (Some (toUpperCase (shareTopicHex name))) VAULT_NAME
  = shareTopic name.
Proof.
  assert (L : List.length (shareTopicHex name) = 64%nat).
  { unfold shareTopicHex. rewrite toString_hex_length.
    unfold shareTopic. now rewrite crypto_hash_length. }
  destruct (from_hex_upper (shareTopic name)) as [U1 U2].
  unfold shareTopic in U2 at 2. rewrite crypto_hash_length in U2.
  fold (shareTopicHex name) in U1, U2.
  split; [exact L |]. split.
  - unfold receiveTopic.
    destruct (shareTopicHex name) as [| c s] eqn:E; [discriminate |].
    cbn [truthy]. rewrite L. cbn [Nat.eqb]. rewrite <- E.
    apply from_hex_toString_hex.
  - unfold receiveTopic.
    destruct (toUpperCase (shareTopicHex name)) as [| c s] eqn:E; [discriminate |].
    cbn [truthy]. rewrite U2. cbn [Nat.eqb Nat.mul Nat.add]. exact U1.
Qed.

Lemma from_hex_short (s : jsstring) :
  (exists c, In c s /\ B4a.hex_value c = None) ->
  (2 * List.length (B4a.from_hex s) < List.length s)%nat.
Proof.
  remember (List.length s) as n eqn:En. revert s En.
  induction n as [n IH] using lt_wf_ind. intros s En (c & Hc & Hv).
  destruct s as [| a [| b s']]; [destruct Hc | cbn in *; lia |].
  cbn [B4a.from_hex].
  destruct (B4a.hex_value a) as [x |] eqn:Ea; [| cbn in *; lia].
  destruct (B4a.hex_value b) as [y |] eqn:Eb; [| cbn in *; lia].
  cbn [List.length] in *.
  assert (In c s').
  { destruct Hc as [-> | [-> | Hc]]; [congruence | congruence | exact Hc]. }
  specialize (IH (List.length s') ltac:(lia) s' eq_refl (ex_intro _ c (conj H Hv))).
  lia.
Qed.

(** X18 --  A 64-character [--topic] argument is not checked: if it holds a
    character that is not a hexadecimal digit, the topic that [runReceive]
    hands to the swarm is cut at the first pair that is not hexadecimal and
    has fewer than 32 bytes. *)
Theorem malformed_topic_key_is_short (t VAULT_NAME : jsstring) :
  List.length t = 64%nat ->
  (exists c, In c t /\ B4a.hex_value c = None) ->
  (List.length (receiveTopic (Some t) VAULT_NAME) < 32)%nat.
Proof.
  intros L H. unfold receiveTopic.
  destruct t as [| c s] eqn:E; [discriminate |].
  cbn [truthy]. rewrite L. cbn [Nat.eqb].
  pose proof (from_hex_short (c :: s) H). lia.
Qed.

Lemma malformed_topic_key_is_short_witness :
  List.length (repeat 122%N 64) = 64%nat /\
  (List.length (receiveTopic (Some (repeat 122%N 64)) (lit "default")) < 32)%nat.
Proof.
  assert (L : List.length (repeat 122%N 64) = 64%nat) by reflexivity.
  assert (B : exists c, In c (repeat 122%N 64) /\ B4a.hex_value c = None)
    by (exists 122%N; split; [left; reflexivity | reflexivity]).
  split; [exact L |].
  exact (malformed_topic_key_is_short (repeat 122%N 64) (lit "default") L B).
Defined.

End TopicKey.

(** ** The tables *)

Section Tables.

Lemma label_column (l : jsstring) :
  slice (padEnd 22 l) 0 22
  = firstn 22 l ++ repeat 32%N (22 - List.length l).
Proof.
  unfold slice, padEnd. cbn [skipn]. change (22 - 0)%nat with 22%nat.
  rewrite firstn_app. f_equal.
  apply firstn_all2. rewrite repeat_length. lia.
Qed.

Lemma label_column_length (l : jsstring) :
  List.length (firstn 22 l ++ repeat 32%N (22 - List.length l)) = 22%nat.
Proof. rewrite length_app, length_firstn, repeat_length. lia. Qed.

Lemma pretty_layout (s : jsstring) (t : Z) :
  exists a b, pretty (totp s t) = a ++ [32%N] ++ b /\
     List.length a = 3%nat /\ List.length b = 3%nat /\
     forallb is_digit (a ++ b) = true.
Proof.
  destruct (totp_shape s t) as (_ & D & a & b & P & E & La & Lb).
  exists a, b. repeat split; try assumption. now rewrite <- E.
Qed.

Lemma row_of_displayable (bar : jsstring) (t : Z) (entry : json) :
  displayable entry = true <-> row_of bar t entry <> None.
Proof.
  unfold displayable, field_is_string, row_of.
  destruct (get (Val entry) (lit "secret")) as [[| [| | | s | |] |] |];
    cbn [is_string andb]; try (split; [discriminate | intros H; now destruct H]);
  destruct (get (Val entry) (lit "label")) as [[| [| | | l | |] |] |];
    cbn [is_string]; try (split; [discriminate | intros H; now destruct H]).
  split; [discriminate | reflexivity].
Qed.

Lemma row_of_layout (bar : jsstring) (t : Z) (entry : json) (x : effect) :
  row_of bar t entry = Some x -> is_row x = true /\ row_layout x.
Proof.
  unfold row_of.
  destruct (get (Val entry) (lit "secret")) as [[| [| | | s | |] |] |];
    try discriminate;
  destruct (get (Val entry) (lit "label")) as [[| [| | | l | |] |] |];
    try discriminate.
  intros H. injection H as <-. split; [reflexivity |].
  cbn [row_layout]. split; [apply label_column_length | apply pretty_layout].
Qed.

Lemma rows_of_layout (e : env) (bar : jsstring) (items : list json) :
  forall k,
    forallb is_row (rows_of e bar k items) = true /\
    Forall row_layout (rows_of e bar k items) /\
    (forallb displayable items = true ->
     List.length (rows_of e bar k items) = List.length items).
Proof.
  induction items as [| entry items IH]; intros k; cbn [rows_of forallb].
  - repeat split; constructor.
  - pose proof (row_of_displayable bar (Date_now e k) entry) as D.
    destruct (row_of bar (Date_now e k) entry) as [x |] eqn:E.
    + destruct (row_of_layout _ _ _ _ E) as [Rx Lx].
      destruct (IH (S k)) as (R & L & N).
      cbn [forallb List.length]. rewrite Rx.
      split; [exact R |]. split; [now constructor |].
      intros H. apply andb_prop in H as [_ H]. now rewrite (N H).
    + split; [reflexivity |]. split; [constructor |].
      intros H. apply andb_prop in H as [H _].
      apply D in H. now destruct H.
Qed.

(** One turn of the loop of [printOTPTable]. *)
Lemma otp_row_spec (e : env) (bar : jsstring) (entry : json) (w : world) :
  (exists x, row_of bar (Date_now e (ticks w)) entry = Some x /\
     otp_row e bar entry w
     = (Ok tt, mkW (stdin w) (S (ticks w)) (effects w ++ [x]))) \/
  (row_of bar (Date_now e (ticks w)) entry = None /\
   exists tk, otp_row e bar entry w = (Raised, mkW (stdin w) tk (effects w))).
Proof.
  destruct w as [inp tk eff]. unfold otp_row, row_of.
  destruct (get (Val entry) (lit "secret")) as [secret |] eqn:Es; io_unfold;
    [| right; split; [reflexivity | now exists tk]].
  destruct secret as [| [| | | s | |] |]; cbn [as_string];
    try (right; split; [reflexivity | now exists (S tk)]).
  destruct (get (Val entry) (lit "label")) as [label |] eqn:El; io_unfold;
    [| right; split; [reflexivity | now exists (S tk)]].
  destruct label as [| [| | | l | |] |]; cbn [as_string];
    try (right; split; [reflexivity | now exists (S tk)]).
  left. eexists. split; [reflexivity |]. now rewrite label_column.
Qed.

Lemma each_rows (e : env) (bar : jsstring) (items : list json) :
  forall w,
  exists r w',
    each (otp_row e bar) items w = (r, w') /\
    effects w' = effects w ++ rows_of e bar (ticks w) items /\
    stdin w' = stdin w /\
    (r = Ok tt \/ r = Raised) /\
    (r = Ok tt <-> forallb displayable items = true) /\
    (r = Ok tt -> ticks w' = (ticks w + List.length items)%nat).
Proof.
  induction items as [| entry items IH]; intros w.
  - exists (Ok tt), w. cbn [each ret rows_of]. rewrite app_nil_r.
    repeat split; trivial; auto.
  - cbn [each rows_of]. unfold io_bind at 1.
    pose proof (row_of_displayable bar (Date_now e (ticks w)) entry) as D.
    destruct (otp_row_spec e bar entry w)
      as [(x & Rx & E) | (Rx & tk & E)]; rewrite E, Rx.
    + destruct (IH (mkW (stdin w) (S (ticks w)) (effects w ++ [x])))
        as (r & w' & E' & Ee & Ei & Hr & Hiff & Hok).
      exists r, w'. rewrite E'. cbn [effects stdin ticks] in *.
      split; [reflexivity |].
      split; [now rewrite Ee, <- app_assoc |].
      split; [exact Ei |].
      split; [exact Hr |].
      split.
      * cbn [forallb]. rewrite (proj2 D) by (rewrite Rx; discriminate).
        exact Hiff.
      * intros H. rewrite (Hok H). cbn [List.length]. lia.
    + exists Raised, (mkW (stdin w) tk (effects w)).
      cbn [effects stdin]. rewrite app_nil_r.
      split; [reflexivity |]. split; [reflexivity |]. split; [reflexivity |].
      split; [now right |].
      split; [| discriminate].
      cbn [forallb]. split; [discriminate |].
      intros H. apply andb_prop in H as [H _]. apply D in H.
      now destruct H.
Qed.

Lemma table_rows (e : env) (vault : json) (items : list json)
    (w : world) :
  entries_of vault = Some items ->
  0 <= Date_now e (S (ticks w)) ->
  exists r w' bar,
    printOTPTable e (Val vault) w = (r, w') /\
    countdownBar (Date_now e (S (ticks w))) = Normal bar /\
    (r = Ok tt <-> forallb displayable items = true) /\
    Forall row_layout (rows_of e bar (S (S (ticks w))) items) /\
    (r = Ok tt ->
     List.length (rows_of e bar (S (S (ticks w))) items) = List.length items /\
     effects w' = effects w ++ rows_of e bar (S (S (ticks w))) items
       ++ [Footer (List.length items) (secondsRemaining (Date_now e (ticks w)))]) /\
    (r <> Ok tt ->
     effects w' = effects w ++ rows_of e bar (S (S (ticks w))) items).
Proof.
  intros Ei Hc. destruct w as [inp tk eff]. cbn [ticks] in *.
  unfold printOTPTable. io_unfold.
  destruct (proj1 (bar_cells (Date_now e (S tk))) Hc) as (bar & Eb & _).
  rewrite Eb.
  pose proof (get_entries vault) as G. rewrite Ei in G.
  destruct (get (Val vault) (lit "entries")) as [x |]; [| discriminate].
  cbn [bind] in G. rewrite G.
  destruct (each_rows e bar items (mkW inp (S (S tk)) eff))
    as (r & w' & E' & Ee & Si & Hr & Hiff & Hok).
  destruct (rows_of_layout e bar items (S (S tk))) as (_ & L & N).
  cbn [effects stdin ticks] in *. rewrite E'.
  destruct Hr as [-> | ->].
  - eexists _, _, bar. split; [reflexivity |]. split; [reflexivity |].
    split; [exact Hiff |]. split; [exact L |]. split.
    + intros _. split; [apply N; now apply Hiff |].
      cbn [effects]. now rewrite Ee, <- app_assoc.
    + congruence.
  - exists Raised, w', bar. split; [reflexivity |]. split; [reflexivity |].
    split; [exact Hiff |]. split; [exact L |].
    split; [discriminate | now intros _].
Qed.

(** X19 --  [printOTPTable] on a vault whose entries are an array, with the
    clock at or after the epoch when the bar is drawn.  It ends normally
    exactly when every entry has a secret and a label that are texts, and
    then it has printed one row per entry, in the order of the entries, and
    the footer; otherwise it raises an exception at the first entry that
    has not, after the rows of the entries before it.  The row of an entry
    shows its label cut or filled with spaces to 22 code units, the code of
    its secret at the clock reading taken for that row (the readings follow
    one another, one per row) written as three digits, a space and three
    digits, and the bar drawn once before the first row. *)
Theorem printOTPTable_rows (e : env) (vault : json) (items : list json)
    (w : world) :
  entries_of vault = Some items ->
  0 <= Date_now e (S (ticks w)) ->
  exists r w' bar,
    printOTPTable e (Val vault) w = (r, w') /\
    countdownBar (Date_now e (S (ticks w))) = Normal bar /\
    (r = Ok tt <-> forallb displayable items = true) /\
    Forall row_layout (rows_of e bar (S (S (ticks w))) items) /\
    (r = Ok tt ->
     List.length (rows_of e bar (S (S (ticks w))) items) = List.length items /\
     effects w' = effects w ++ rows_of e bar (S (S (ticks w))) items
       ++ [Footer (List.length items) (secondsRemaining (Date_now e (ticks w)))]) /\
    (r <> Ok tt ->
     effects w' = effects w ++ rows_of e bar (S (S (ticks w))) items).
Proof. exact (table_rows e vault items w). Qed.

Lemma printOTPTable_rows_witness :
  entries_of sample_vault
  = Some [JObj [(lit "label", JStr (lit "AWS Root"));
                (lit "issuer", JStr (lit "Amazon"));
                (lit "secret", JStr (lit "JBSWY3DPEHPK3PXP"))]] /\
  0 <= Date_now sample_env 1 /\
  exists r w' bar,
    printOTPTable sample_env (Val sample_vault) (mkW [] 0 []) = (r, w') /\
    countdownBar (Date_now sample_env 1) = Normal bar /\
    Forall row_layout
      (rows_of sample_env bar 2
         [JObj [(lit "label", JStr (lit "AWS Root"));
                (lit "issuer", JStr (lit "Amazon"));
                (lit "secret", JStr (lit "JBSWY3DPEHPK3PXP"))]]).
Proof.
  set (items := [JObj [(lit "label", JStr (lit "AWS Root"));
                       (lit "issuer", JStr (lit "Amazon"));
                       (lit "secret", JStr (lit "JBSWY3DPEHPK3PXP"))]]).
  assert (E : entries_of sample_vault = Some items) by reflexivity.
  assert (C : 0 <= Date_now sample_env (S (ticks (mkW [] 0 [])))) by (cbn; lia).
  split; [exact E |]. split; [exact C |].
  destruct (printOTPTable_rows sample_env sample_vault items (mkW [] 0 []) E C)
    as (r & w' & bar & P & B & _ & L & _).
  exists r, w', bar. split; [exact P |]. split; [exact B | exact L].
Defined.

Lemma own_not_method (fields : list (jsstring * json)) (key : jsstring) :
  match own fields key with Method _ _ => False | _ => True end.
Proof. unfold own. now destruct (find _ fields) as [[k j] |]. Qed.

Lemma call_replace_string (v : value) :
  call v (lit "replace") = Normal tt -> is_string v = true.
Proof.
  unfold call. destruct v as [| [| | | s | items | fields] |];
    cbn [get bind is_string]; try discriminate; try reflexivity.
  pose proof (own_not_method fields (lit "replace")) as H.
  destruct (own fields (lit "replace")); [discriminate | discriminate | destruct H].
Qed.

Lemma entry_body_secret (clock : nat -> Z) (k : nat) (e : json) :
  entry_body clock k (Val e) = Normal tt ->
  field_is_string e (lit "secret") = true.
Proof.
  unfold entry_body, field_is_string.
  destruct (get (Val e) (lit "secret")) as [secret |]; [| discriminate].
  cbn [bind]. intros H. apply call_replace_string.
  destruct (call secret (lit "replace")) as [[] |]; [reflexivity | discriminate].
Qed.

Lemma forEach_items_secrets (clock : nat -> Z) (items : list json) :
  forall k,
  forEach_items clock k items = Normal tt ->
  forallb (fun e => field_is_string e (lit "secret")) items = true.
Proof.
  induction items as [| e items IH]; [reflexivity |].
  intros k. cbn [forEach_items forallb].
  destruct (entry_body clock k (Val e)) as [[] |] eqn:E; [| discriminate].
  cbn [bind]. intros H.
  now rewrite (entry_body_secret clock k e E), (IH _ H).
Qed.

(** What [read_vault] has checked when it returns. *)
Lemma read_vault_inv (clock : nat -> Z) (msg name vault : value) :
  read_vault clock msg = Normal (name, vault) ->
  exists v items,
    vault = Val v /\ entries_of v = Some items /\
    forallb (fun e => field_is_string e (lit "secret")) items = true.
Proof.
  unfold read_vault.
  destruct (get msg (lit "vault")) as [vlt |]; cbn [bind]; [| discriminate].
  destruct (get vlt (lit "name")) as [nm |] eqn:En; cbn [bind]; [| discriminate].
  destruct (interpolate nm) as [[] |]; cbn [bind]; [| discriminate].
  destruct (get vlt (lit "entries")) as [entries |] eqn:Ee; cbn [bind];
    [| discriminate].
  destruct (get entries (lit "length")) as [len |]; cbn [bind]; [| discriminate].
  destruct (interpolate len) as [[] |]; cbn [bind]; [| discriminate].
  destruct (forEach clock entries) as [[] |] eqn:Ef; cbn [bind]; [| discriminate].
  destruct (call nm (lit "replace")) as [[] |]; cbn [bind]; [| discriminate].
  intros H. injection H as _ <-.
  unfold forEach in Ef.
  destruct (call entries (lit "forEach")) as [[] |]; [| discriminate].
  cbn [bind] in Ef.
  destruct entries as [| [| | | | items |] |]; try discriminate.
  destruct vlt as [| [| | | | its | fields] |]; cbn [get] in Ee;
    try discriminate; try (cbv in Ee; discriminate).
  injection Ee as Ee. exists (JObj fields), items.
  split; [reflexivity |]. split; [cbn [entries_of]; now rewrite Ee |].
  now apply (forEach_items_secrets clock items 0%nat).
Qed.

(** X20 --  What [runReceive] accepts is not always what [printOTPTable] can
    show.  The receiver reads the secret of every entry (it computes a code
    from it) and writes the label into a line, for which any value will do
    that can be converted to text; the table formats the label with
    [padEnd].  So for every message whose vault the receiver goes on to
    save, the table of that vault can be printed exactly when every entry
    has a label that is a text; and a vault with an entry that has a secret
    and no label is accepted and saved by the receiver (its clock not being
    before the epoch) and makes token and watch mode raise an exception. *)
Theorem accepted_vault_may_not_display :
  (forall (e : env) (clock : nat -> Z) (msg name vault : value) (w : world),
     read_vault clock msg = Normal (name, vault) ->
     0 <= Date_now e (S (ticks w)) ->
     exists v items,
       vault = Val v /\ entries_of v = Some items /\
       (fst (printOTPTable e vault w) = Ok tt <->
        forallb (fun entry => field_is_string entry (lit "label")) items = true)) /\
  (forall (clock : nat -> Z) (ts : Z),
     0 <= clock 1%nat ->
     exists name,
       read_vault clock (Val (share_payload unlabelled_vault ts))
       = Normal (name, Val unlabelled_vault)) /\
  (forall e w, fst (printOTPTable e (Val unlabelled_vault) w) <> Ok tt).
Proof.
  split; [| split].
  - intros e clock msg name vault w Hr Hc.
    destruct (read_vault_inv clock msg name vault Hr)
      as (v & items & -> & Ei & Hs).
    exists v, items. split; [reflexivity |]. split; [exact Ei |].
    destruct (table_rows e v items w Ei Hc)
      as (r & w' & bar & E & _ & Hiff & _).
    rewrite E. cbn [fst]. rewrite Hiff. unfold displayable.
    clear - Hs. induction items as [| x items IH]; [reflexivity |].
    cbn [forallb] in *. apply andb_prop in Hs as [H1 H2]. rewrite H1.
    cbn [andb]. specialize (IH H2).
    destruct (field_is_string x (lit "label")); cbn [andb]; [exact IH |].
    split; discriminate.
  - intros clock ts C.
    destruct (proj1 (bar_cells (clock 1%nat)) C) as (bar & Eb & _).
    exists (Val (JStr (lit "ops"))).
    cbv -[countdownBar]. rewrite Eb. reflexivity.
  - intros e w. unfold printOTPTable. io_unfold.
    destruct (countdownBar _); [| discriminate].
    cbn [unlabelled_vault get own find fst str_eqb lit]. 
    destruct w as [inp tk eff]. vm_compute. discriminate.
Qed.

Lemma accepted_vault_may_not_display_witness :
  read_vault sample_clock (Val sample_share)
  = Normal (Val (JStr (lit "myteam")), Val sample_vault) /\
  0 <= Date_now sample_env 1 /\
  exists v items,
    Val sample_vault = Val v /\ entries_of v = Some items /\
    (fst (printOTPTable sample_env (Val sample_vault) (mkW [] 0 [])) = Ok tt <->
     forallb (fun entry => field_is_string entry (lit "label")) items = true).
Proof.
  assert (R : read_vault sample_clock (Val sample_share)
              = Normal (Val (JStr (lit "myteam")), Val sample_vault))
    by (vm_compute; reflexivity).
  assert (C : 0 <= Date_now sample_env (S (ticks (mkW [] 0 [])))) by (cbn; lia).
  split; [exact R |]. split; [exact C |].
  exact (proj1 accepted_vault_may_not_display sample_env sample_clock
           (Val sample_share) (Val (JStr (lit "myteam"))) (Val sample_vault)
           (mkW [] 0 []) R C).
Defined.

End Tables.
